(** * CaproneISIS index builder: the resumable ingestion pipeline

    A shallow embedding of [src/caproneisis/builder.py]: the record
    extractor, the progress store kept in the metadata index, the action
    stream generator nested in [IndexBuilder.add_jsonl_files], the bulk
    submission and the statistics, and the file discovery that feeds them;
    then the other entry points: the constructors, [add_records], the
    index object of [core.py], the command line of [cli.py], the benchmark
    and the interactive session of [search.py], and the index listing of
    [cluster.py].

    Python values are modelled by the data the code manipulates: decoded
    JSON values, unbounded integers as [Z], wall-clock readings as rationals
    ([Q]; a float difference is zero exactly when the two readings are
    equal, which is all the code tests), sets as [gset].  Exceptions are
    explicit: a computation that may raise returns a [result]. *)

From Stdlib Require Import ZArith QArith Lia Ascii.
From stdpp Require Import base tactics option list gmap strings sorting pretty.

Local Open Scope Z_scope.
#[local] Set Warnings "-clear-no-such-hyp".

(** ** Exceptions and fallible computations *)

(** The exception classes the pipeline meets.  All of them derive from
    [Exception]; only [JSONDecodeError] is caught by the inner handler. *)
Inductive exn : Type :=
| JSONDecodeError
| ZeroDivisionError
| AttributeError
| TypeError
| ValueError
| NotImplementedError
| OSError
| UnicodeDecodeError
| NotFoundError
| ConnectionError
| RuntimeError.

Inductive result (A : Type) : Type :=
| Ok (a : A)
| Raise (e : exn).
Arguments Ok {A} a.
Arguments Raise {A} e.

#[global] Instance result_ret : MRet result := λ A a, Ok a.
#[global] Instance result_bind : MBind result := λ A B f m,
  match m with
  | Ok a => f a
  | Raise e => Raise e
  end.

#[global] Instance exn_eq_dec : EqDecision exn.
Proof. solve_decision. Defined.

(** [except json.JSONDecodeError] *)
Definition is_JSONDecodeError (e : exn) : bool :=
  match e with
  | JSONDecodeError => true
  | _ => false
  end.

Fixpoint result_mapM {A B : Type} (f : A → result B) (l : list A) : result (list B) :=
  match l with
  | [] => Ok []
  | x :: l' => y ← f x; ys ← result_mapM f l'; Ok (y :: ys)
  end.

(** [a % b] on Python integers: floor modulo, a fault on a zero divisor. *)
Definition py_mod (a b : Z) : result Z :=
  if b =? 0 then Raise ZeroDivisionError else Ok (a mod b).

(** [a / b] on numbers: true division, a fault on a zero divisor. *)
Definition py_truediv (a b : Q) : result Q :=
  if Qeq_bool b 0 then Raise ZeroDivisionError else Ok (a / b)%Q.

(** ** Decoded JSON values *)

(** What [json.loads] returns: [None], booleans, integers, strings, lists
    and dicts (numbers with a fraction are left out of the model).  A dict
    is its items in insertion order, keys distinct. *)
#[warnings="-register-all"]
Inductive json : Type :=
| JNull
| JBool (b : bool)
| JNum (n : Z)
| JStr (s : string)
| JArr (items : list json)
| JObj (fields : list (string * json)).

Fixpoint dict_get (k : string) (d : list (string * json)) (default : json) : json :=
  match d with
  | [] => default
  | (k', v) :: d' => if String.eqb k k' then v else dict_get k d' default
  end.

(** [v.get(k, default)]: only dicts have the method. *)
Definition py_get (v : json) (k : string) (default : json) : result json :=
  match v with
  | JObj d => Ok (dict_get k d default)
  | _ => Raise AttributeError
  end.

Fixpoint chars (s : string) : list json :=
  match s with
  | EmptyString => []
  | String c s' => JStr (String c EmptyString) :: chars s'
  end.

(** Iterating a value: a list gives its items, a dict its keys, a string
    its characters (one per byte of the text in this model); anything else is
    not iterable. *)
Definition py_iter (v : json) : result (list json) :=
  match v with
  | JArr l => Ok l
  | JObj d => Ok ((λ kv, JStr kv.1) <$> d)
  | JStr s => Ok (chars s)
  | _ => Raise TypeError
  end.

Definition as_str (v : json) : result string :=
  match v with
  | JStr s => Ok s
  | _ => Raise TypeError
  end.

(** [sep.join(items)]: every item has to be a string. *)
Definition py_join (sep : string) (items : list json) : result string :=
  strs ← result_mapM as_str items; Ok (String.concat sep strs).

(** ** Elements of a Python set *)

(** The hashable JSON values.  [True] and [1] (and [False] and [0]) are
    equal and hash alike, so a set never holds both: booleans are filed
    under their integer. *)
Inductive pykey : Type :=
| KNone
| KNum (n : Z)
| KStr (s : string).

#[global] Instance pykey_eq_dec : EqDecision pykey.
Proof. solve_decision. Defined.

#[global] Instance pykey_countable : Countable pykey.
Proof.
  refine (inj_countable'
    (λ k, match k with
          | KNone => inl ()
          | KNum n => inr (inl n)
          | KStr s => inr (inr s)
          end)
    (λ x, match x with
          | inl _ => KNone
          | inr (inl n) => KNum n
          | inr (inr s) => KStr s
          end) _).
  by intros [].
Defined.

Definition py_hash (v : json) : result pykey :=
  match v with
  | JNull => Ok KNone
  | JBool b => Ok (KNum (if b then 1 else 0))
  | JNum n => Ok (KNum n)
  | JStr s => Ok (KStr s)
  | JArr _ | JObj _ => Raise TypeError
  end.

(** The characters of a text, as elements of a set. *)
Fixpoint char_keys (s : string) : list pykey :=
  match s with
  | EmptyString => []
  | String c s' => KStr (String c EmptyString) :: char_keys s'
  end.

Definition key_json (k : pykey) : json :=
  match k with
  | KNone => JNull
  | KNum n => JNum n
  | KStr s => JStr s
  end.

(** [set(v)] *)
Definition py_set (v : json) : result (gset pykey) :=
  items ← py_iter v; keys ← result_mapM py_hash items; Ok (list_to_set keys).

(** ** Records and write operations *)

(** The 5-tuple [(id, title, content, year, prefix)] an extractor returns.
    The components are whatever values the extractor found. *)
Record record : Type := {
  r_id : json;
  r_title : json;
  r_content : json;
  r_year : json;
  r_prefix : json
}.

(** The dict yielded for one record: [_index], [_id], [_source]. *)
Record action : Type := {
  a_index : string;
  a_id : json;
  a_source : record
}.

(** ** [default_extractor] *)

Section Extractor.
(** The builtin [str], applied to a decoded JSON value. *)
Variable py_str : json → string.

(** The body of the [try] block. *)
Definition default_extractor_body (rec : json) : result record :=
  doi ← py_get rec "id" (JStr EmptyString);
  attrs ← py_get rec "attributes" (JObj []);
  ts ← py_get attrs "titles" (JArr []);
  titems ← py_iter ts;
  tvals ← result_mapM (λ t, py_get t "title" (JStr EmptyString)) titems;
  titles ← py_join " " tvals;
  ds ← py_get attrs "descriptions" (JArr []);
  ditems ← py_iter ds;
  dvals ← result_mapM (λ d, py_get d "description" (JStr EmptyString)) ditems;
  descs ← py_join " " dvals;
  pub ← py_get attrs "publicationYear" (JStr EmptyString);
  let year := py_str pub in
  prefix ← py_get attrs "prefix" (JStr EmptyString);
  Ok {| r_id := doi; r_title := JStr titles; r_content := JStr descs;
        r_year := JStr year; r_prefix := prefix |}.

(** [try: ... except Exception: return None] *)
Definition default_extractor (rec : json) : option record :=
  match default_extractor_body rec with
  | Ok r => Some r
  | Raise _ => None
  end.
End Extractor.

(** ** Paths *)

(** The root of a POSIX path: none, one slash, or two.  Exactly two
    leading slashes are kept apart from one; three or more are one. *)
Inductive root : Type :=
| Relative
| Slash
| DoubleSlash.

#[global] Instance root_eq_dec : EqDecision root.
Proof. solve_decision. Defined.

Definition root_str (r : root) : string :=
  match r with
  | Relative => EmptyString
  | Slash => "/"
  | DoubleSlash => "//"
  end.

Definition absolute (r : root) : bool :=
  match r with
  | Relative => false
  | Slash | DoubleSlash => true
  end.

(** A [pathlib] path on a POSIX system: its root and its components. *)
Record path : Type := {
  p_root : root;
  p_parts : list string
}.

#[global] Instance path_eq_dec : EqDecision path.
Proof. solve_decision. Defined.

Definition join_parts (parts : list string) : string := String.concat "/" parts.

(** [str(p)] *)
Definition path_str (p : path) : string :=
  match p_root p with
  | Relative =>
    match p_parts p with
    | [] => "."
    | _ => join_parts (p_parts p)
    end
  | r => root_str r +:+ join_parts (p_parts p)
  end.

(** ** The environment of a run *)

(** A source file as the generator sees it: whether [open] raises, and the
    outcome of each successive read of a line until the file is exhausted.
    A read that raises ends the iteration; what follows it in the list is
    the part of the file that is never reached. *)
Record file : Type := {
  f_open : option exn;
  f_reads : list (result string)
}.

(** A directory entry: an existing path and whether it is a directory. *)
Record fs_entry : Type := {
  e_path : path;
  e_is_dir : bool
}.

Record world : Type := {
  (** [json.loads] and [json.dumps] *)
  json_loads : string → result json;
  json_dumps : json → string;
  (** the value returned by the n-th call of [time.time()] *)
  clock : nat → Q;
  (** the content found behind a path when it is opened *)
  disk : string → file;
  (** the entries of the file system: the paths that exist, relative to
      the current directory or from the root, as the system answers for
      them (a path through [..] exists when it is listed) *)
  fs_entries : list fs_entry;
  (** [fnmatch] on one path component *)
  fnmatch : string → string → bool;
  (** whether the backend accepts a write operation *)
  item_ok : action → bool
}.

(** ** The progress store *)

(** The [processed_files] field of a stored progress document: a text, or a
    value of another type. *)
Inductive stored : Type :=
| SText (s : string)
| SOther.

(** The [_source] of a document of the metadata index; [None] is an absent
    field.  The [last_updated] stamp is written and never read. *)
Record progress_doc : Type := {
  d_index_name : string;
  d_processed_files : option stored
}.

(** The backend, as far as the builder is concerned: whether it answers,
    and the documents of [_caproneisis_meta] by id. *)
Record backend : Type := {
  b_up : bool;
  b_meta : gmap string progress_doc
}.

(** [client.get(index=META_INDEX, id=...)] *)
Definition client_get (b : backend) (id : string) : result progress_doc :=
  if b_up b then
    match b_meta b !! id with
    | Some d => Ok d
    | None => Raise NotFoundError
    end
  else Raise ConnectionError.

(** [client.index(index=META_INDEX, id=..., document=...)] *)
Definition client_index (b : backend) (id : string) (d : progress_doc) : result backend :=
  if b_up b then Ok {| b_up := b_up b; b_meta := <[id := d]> (b_meta b) |}
  else Raise ConnectionError.

Record builder : Type := {
  index_name : string;
  batch_size : Z;
  progress_interval : Z;
  thread_count : Z;
  _processed_files : gset pykey;
  _client : backend
}.

Definition set_processed (self : builder) (s : gset pykey) : builder :=
  {| index_name := index_name self; batch_size := batch_size self;
     progress_interval := progress_interval self;
     thread_count := thread_count self;
     _processed_files := s; _client := _client self |}.

Definition set_client (self : builder) (b : backend) : builder :=
  {| index_name := index_name self; batch_size := batch_size self;
     progress_interval := progress_interval self;
     thread_count := thread_count self;
     _processed_files := _processed_files self; _client := b |}.

Definition progress_id (self : builder) : string := "progress_" +:+ index_name self.

(** [json.loads(x)] where [x] came out of a document *)
Definition loads_stored (w : world) (x : stored) : result json :=
  match x with
  | SText s => json_loads w s
  | SOther => Raise TypeError
  end.

(** The body of the [try] block of [_load_progress]. *)
Definition load_progress_body (w : world) (self : builder) : result (gset pykey) :=
  doc ← client_get (_client self) (progress_id self);
  let files_json := default (SText "[]") (d_processed_files doc) in
  v ← loads_stored w files_json;
  py_set v.

(** [_load_progress]: any exception of the body resets the set. *)
Definition _load_progress (w : world) (self : builder) : result builder :=
  match load_progress_body w self with
  | Ok s => Ok (set_processed self s)
  | Raise _ => Ok (set_processed self ∅)
  end.

(** [_save_progress] *)
Definition _save_progress (w : world) (self : builder) : result builder :=
  let doc := {| d_index_name := index_name self;
                d_processed_files :=
                  Some (SText (json_dumps w (JArr (key_json <$> elements (_processed_files self))))) |} in
  b ← client_index (_client self) (progress_id self) doc;
  Ok (set_client self b).

(** [_init_meta_index]: the existence check contacts the backend. *)
Definition _init_meta_index (self : builder) : result builder :=
  if b_up (_client self) then Ok self else Raise ConnectionError.

(** [IndexBuilder.__init__], from the moment the client exists. *)
Definition IndexBuilder_init (w : world) (b : backend) (name : string)
    (batch progress threads : Z) : result builder :=
  let self := {| index_name := name; batch_size := batch;
                 progress_interval := progress; thread_count := threads;
                 _processed_files := ∅; _client := b |} in
  self ← _init_meta_index self;
  _load_progress w self.

(** ** The action stream generator *)

(** The counters that [generate_actions] shares with [add_jsonl_files]
    ([nonlocal]), the number of clock readings taken so far, and the
    builder. *)
Record gen_state : Type := {
  total_records : Z;
  total_errors : Z;
  ticks : nat;
  self : builder
}.

Definition incr_records (st : gen_state) : gen_state :=
  {| total_records := total_records st + 1; total_errors := total_errors st;
     ticks := ticks st; self := self st |}.

Definition incr_errors (st : gen_state) : gen_state :=
  {| total_records := total_records st; total_errors := total_errors st + 1;
     ticks := ticks st; self := self st |}.

Definition tick (st : gen_state) : gen_state :=
  {| total_records := total_records st; total_errors := total_errors st;
     ticks := S (ticks st); self := self st |}.

Definition set_self (st : gen_state) (b : builder) : gen_state :=
  {| total_records := total_records st; total_errors := total_errors st;
     ticks := ticks st; self := b |}.

(** A printed progress line. *)
Record report : Type := {
  rep_records : Z;
  rep_rate : Q;
  rep_file : nat;
  rep_nfiles : nat
}.

(** What the generator does, in order.  [EvYield] and the two prints are
    its visible effects; the other events record the points the control
    flow passes through. *)
Inductive event : Type :=
| EvOpen (file_key : string)
| EvYield (a : action)
| EvLineError
| EvNoRecord
| EvReport (r : report)
| EvFileError (file_key : string) (e : exn)
| EvMark (file_key : string)
| EvSave (files : gset pykey).

(** How a block of the generator ends: it falls through, the generator
    returns, or an exception leaves the block. *)
Inductive flow : Type :=
| Next
| Stop
| Throw (e : exn).

Definition make_action (self : builder) (extracted : record) : action :=
  {| a_index := index_name self; a_id := r_id extracted; a_source := extracted |}.

Section Generator.
Variable w : world.
Variable extractor : json → result (option record).
Variable test_limit : option Z.
Variable resume : bool.
Variable start_time : Q.
Variable nfiles : nat.

(** An exception inside the inner [try]: a [JSONDecodeError] is counted
    and the loop goes on, anything else leaves the loop. *)
Definition on_line_exn (e : exn) (st : gen_state) (evs : list event)
    : flow * gen_state * list event :=
  if is_JSONDecodeError e then (Next, incr_errors st, evs ++ [EvLineError])
  else (Throw e, st, evs).

(** [if test_limit and total_records >= test_limit: return] *)
Definition limit_check (st : gen_state) (evs : list event)
    : flow * gen_state * list event :=
  match test_limit with
  | Some k =>
    if negb (k =? 0) && (total_records st >=? k) then (Stop, st, evs)
    else (Next, st, evs)
  | None => (Next, st, evs)
  end.

(** The body of [for line in f]. *)
Definition gen_line (file_idx : nat) (line : string) (st : gen_state)
    : flow * gen_state * list event :=
  match json_loads w line with
  | Raise e => on_line_exn e st []
  | Ok rec =>
    match extractor rec with
    | Raise e => on_line_exn e st []
    | Ok None => (Next, st, [EvNoRecord])
    | Ok (Some extracted) =>
      let st1 := incr_records st in
      let ev := EvYield (make_action (self st1) extracted) in
      match py_mod (total_records st1) (progress_interval (self st1)) with
      | Raise e => on_line_exn e st1 [ev]
      | Ok m =>
        if m =? 0 then
          let elapsed := (clock w (ticks st1) - start_time)%Q in
          let st2 := tick st1 in
          match py_truediv (inject_Z (total_records st2)) elapsed with
          | Raise e => on_line_exn e st2 [ev]
          | Ok rate =>
            limit_check st2
              [ev; EvReport {| rep_records := total_records st2; rep_rate := rate;
                               rep_file := S file_idx; rep_nfiles := nfiles |}]
          end
        else limit_check st1 [ev]
      end
    end
  end.

(** [for line in f: ...] over the successive reads of the file. *)
Fixpoint gen_lines (file_idx : nat) (reads : list (result string)) (st : gen_state)
    : flow * gen_state * list event :=
  match reads with
  | [] => (Next, st, [])
  | Raise e :: _ => (Throw e, st, [])
  | Ok line :: rest =>
    let '(fl, st1, ev1) := gen_line file_idx line st in
    match fl with
    | Next =>
      let '(fl2, st2, ev2) := gen_lines file_idx rest st1 in
      (fl2, st2, ev1 ++ ev2)
    | _ => (fl, st1, ev1)
    end
  end.

(** [with open(filepath, 'r', encoding='utf-8') as f: for line in f: ...] *)
Definition gen_open (file_idx : nat) (file_key : string) (st : gen_state)
    : flow * gen_state * list event :=
  match f_open (disk w file_key) with
  | Some e => (Throw e, st, [EvOpen file_key])
  | None =>
    let '(fl, st1, evs) := gen_lines file_idx (f_reads (disk w file_key)) st in
    (fl, st1, EvOpen file_key :: evs)
  end.

(** Mark the file complete, and save the progress at every hundredth
    completed file. *)
Definition mark_complete (file_key : string) (st : gen_state) (evs : list event)
    : flow * gen_state * list event :=
  let files := {[ KStr file_key ]} ∪ _processed_files (self st) in
  let st1 := set_self st (set_processed (self st) files) in
  if Z.of_nat (size files) mod 100 =? 0 then
    match _save_progress w (self st1) with
    | Ok b => (Next, set_self st1 b, evs ++ [EvMark file_key; EvSave files])
    | Raise e => (Throw e, st1, evs ++ [EvMark file_key])
    end
  else (Next, st1, evs ++ [EvMark file_key]).

(** The body of [for file_idx, filepath in enumerate(files)]. *)
Definition gen_file (file_idx : nat) (filepath : path) (st : gen_state)
    : flow * gen_state * list event :=
  let file_key := path_str filepath in
  if resume && bool_decide (KStr file_key ∈ _processed_files (self st)) then (Next, st, [])
  else
    let '(fl, st1, evs) := gen_open file_idx file_key st in
    match fl with
    | Throw e => (Next, incr_errors st1, evs ++ [EvFileError file_key e])
    | Stop => (Stop, st1, evs)
    | Next => mark_complete file_key st1 evs
    end.

Fixpoint gen_files (file_idx : nat) (files : list path) (st : gen_state)
    : flow * gen_state * list event :=
  match files with
  | [] => (Next, st, [])
  | filepath :: rest =>
    let '(fl, st1, ev1) := gen_file file_idx filepath st in
    match fl with
    | Next =>
      let '(fl2, st2, ev2) := gen_files (S file_idx) rest st1 in
      (fl2, st2, ev1 ++ ev2)
    | _ => (fl, st1, ev1)
    end
  end.
End Generator.

(** [generate_actions()], run until it is exhausted, returns, or raises. *)
Definition generate_actions (w : world) (extractor : json → result (option record))
    (test_limit : option Z) (resume : bool) (start_time : Q) (files : list path)
    (st : gen_state) : flow * gen_state * list event :=
  gen_files w extractor test_limit resume start_time (length files) 0 files st.

(** The stream of write operations: what the consumer of the generator
    receives. *)
Definition yielded (evs : list event) : list action :=
  omap (λ ev, match ev with EvYield a => Some a | _ => None end) evs.

(** ** File discovery *)

(** [sub in s] *)
Fixpoint contains (sub s : string) : bool :=
  String.prefix sub s ||
  match s with
  | EmptyString => false
  | String _ s' => contains sub s'
  end.

(** [s.split(sep)] for a non-empty separator: [skip] characters of a
    separator just found remain to be passed over, [cur] is the piece being
    collected. *)
Fixpoint split_aux (sep : string) (skip : nat) (cur s : string) : list string :=
  match s with
  | EmptyString => [cur]
  | String c s' =>
    match skip with
    | S k => split_aux sep k cur s'
    | O =>
      if String.prefix sep s then cur :: split_aux sep (String.length sep - 1) EmptyString s'
      else split_aux sep 0 (cur +:+ String c EmptyString) s'
    end
  end.

Definition py_split (s sep : string) : list string := split_aux sep 0 EmptyString s.

(** The root a text starts with. *)
Definition root_of (s : string) : root :=
  if String.prefix "/" s then
    if String.prefix "//" s && negb (String.prefix "///" s) then DoubleSlash else Slash
  else Relative.

(** [Path(s)]: empty components and [.] components are dropped, and with
    them a separator at the end. *)
Definition Path (s : string) : path :=
  {| p_root := root_of s;
     p_parts := filter (λ c, c ≠ EmptyString ∧ c ≠ ".") (py_split s "/") |}.

(** Whether a pattern ends in a separator. *)
Fixpoint ends_with_sep (s : string) : bool :=
  match s with
  | EmptyString => false
  | String c EmptyString => Ascii.eqb c "/"
  | String _ s' => ends_with_sep s'
  end.

(** [p.parent] *)
Definition parent (p : path) : path :=
  {| p_root := p_root p; p_parts := removelast (p_parts p) |}.

(** [p.name] *)
Definition name (p : path) : string := List.last (p_parts p) EmptyString.

(** [_is_wildcard_pattern] *)
Definition is_wildcard_pattern (pat : string) : bool :=
  contains "*" pat || contains "?" pat || contains "[" pat.

(** One component of a pattern against one component of a path: a
    component without wildcard characters stands for itself. *)
Definition part_match (w : world) (pat nm : string) : bool :=
  if is_wildcard_pattern pat then fnmatch w pat nm else String.eqb pat nm.

(** Whether the components [rest] below the starting directory are
    selected by the pattern components; [is_dir] tells whether the entry
    they lead to is a directory.  A [**] component stands for any number
    of directories, the starting one included (so a pattern that ends in
    [**] selects directories only, as pathlib does up to Python 3.12). *)
Fixpoint selects (w : world) (pats : list string) : list string → bool → bool :=
  match pats with
  | [] => λ rest _, bool_decide (rest = [])
  | pat :: pats' =>
    if String.eqb pat "**" then
      fix descend (rest : list string) (is_dir : bool) : bool :=
        match rest with
        | [] => is_dir && selects w pats' [] is_dir
        | _ :: rest' => selects w pats' rest is_dir || descend rest' is_dir
        end
    else
      λ rest is_dir,
        match rest with
        | [] => false
        | nm :: rest' => part_match w pat nm && selects w pats' rest' is_dir
        end
  end.

(** The components a selector accepts: [**] only as a whole component. *)
Definition valid_part (pat : string) : bool :=
  String.eqb pat "**" || negb (contains "**" pat).

(** The components of [l] below the directory [base], when [l] lies there. *)
Fixpoint below (base l : list string) : option (list string) :=
  match base, l with
  | [], _ => Some l
  | b :: base', x :: l' => if String.eqb b x then below base' l' else None
  | _ :: _, [] => None
  end.

(** An entry lies below [base] when both are relative or both start at
    the root and its components continue those of [base]; [dironly] asks
    for a directory. *)
Definition selected (w : world) (base : path) (pats : list string) (dironly : bool)
    (e : fs_entry) : bool :=
  Bool.eqb (absolute (p_root (e_path e))) (absolute (p_root base)) &&
  (negb dironly || e_is_dir e) &&
  match below (p_parts base) (p_parts (e_path e)) with
  | Some rest => selects w pats rest (e_is_dir e)
  | None => false
  end.

(** The existing paths below [base] selected by the pattern components,
    in the order of the directory listing, each written from [base] on,
    with the root of [base]. *)
Definition select_from (w : world) (base : path) (pats : list string) (dironly : bool)
    : list path :=
  (λ e, {| p_root := p_root base; p_parts := p_parts (e_path e) |})
    <$> List.filter (selected w base pats dironly) (fs_entries w).

(** [base.glob(pattern)]: a pattern that ends in a separator selects
    directories only (as pathlib does from Python 3.11 on; before, the
    separator at the end is dropped with no effect). *)
Definition glob (w : world) (base : path) (pattern : string) : result (list path) :=
  if String.eqb pattern EmptyString then Raise ValueError
  else if absolute (p_root (Path pattern)) then Raise NotImplementedError
  else if forallb valid_part (p_parts (Path pattern))
  then Ok (select_from w base (p_parts (Path pattern)) (ends_with_sep pattern))
  else Raise ValueError.

(** [base.rglob(pattern)] *)
Definition rglob (w : world) (base : path) (pattern : string) : result (list path) :=
  if absolute (p_root (Path pattern)) then Raise NotImplementedError
  else if forallb valid_part (p_parts (Path pattern))
  then Ok (select_from w base ("**" :: p_parts (Path pattern)) (ends_with_sep pattern))
  else Raise ValueError.

(** The order of paths: component by component, each component by the
    order of strings. *)
Fixpoint parts_leb (a b : list string) : bool :=
  match a, b with
  | [], _ => true
  | _ :: _, [] => false
  | x :: a', y :: b' =>
    match String.compare x y with
    | Lt => true
    | Gt => false
    | Eq => parts_leb a' b'
    end
  end.

(** The parts of a path as pathlib compares them: the root, when there
    is one, comes first. *)
Definition path_key (p : path) : list string :=
  match p_root p with
  | Relative => []
  | r => [root_str r]
  end ++ p_parts p.

Definition path_le (p q : path) : Prop := parts_leb (path_key p) (path_key q) = true.

#[global] Instance path_le_dec : RelDecision path_le.
Proof. intros p q. unfold path_le. apply _. Defined.

(** [sorted(paths)] *)
Definition sorted (l : list path) : list path := merge_sort path_le l.

(** The first lines of [add_jsonl_files]: the files matching the pattern. *)
Definition discover (w : world) (pattern : string) : result (list path) :=
  if contains "**" pattern then
    let base := default EmptyString (head (py_split pattern "**")) in
    found ← rglob w (Path base) (List.last (py_split pattern "**/") EmptyString);
    Ok (sorted found)
  else
    let base_path := parent (Path pattern) in
    let glob_pattern := name (Path pattern) in
    found ← glob w base_path glob_pattern;
    Ok (sorted found).

(** The existing paths matching a pattern, the pattern read as a whole:
    the reference the discovery is compared with. *)
Definition matching (w : world) (pattern : string) : list path :=
  select_from w {| p_root := p_root (Path pattern); p_parts := [] |}
    (p_parts (Path pattern)) (ends_with_sep pattern).

(** ** Bulk submission and statistics *)

(** A request to the backend fails as a whole when it does not answer. *)
Definition request {A : Type} (client : backend) (a : A) : result A :=
  if b_up client then Ok a else Raise ConnectionError.

(** [ThreadPool(thread_count)]: a pool needs at least one thread. *)
Definition thread_pool (thread_count : Z) : result () :=
  if thread_count <=? 0 then Raise ValueError else Ok ().

(** [parallel_bulk(client, actions, thread_count=..., raise_on_error=False)]:
    the pool is made first; then one [(success, info)] pair per write
    operation, in the order of the stream (the chunks are answered in
    order, and a chunk answers its items in order).  No request is sent
    for an empty stream. *)
Definition parallel_bulk (w : world) (client : backend) (thread_count : Z)
    (actions : list action) : result (list (bool * action)) :=
  _ ← thread_pool thread_count;
  match actions with
  | [] => Ok []
  | _ => request client ((λ a, (item_ok w a, a)) <$> actions)
  end.

(** [bulk(client, actions, ..., raise_on_error=False)]: the number of
    successes and the list of failed items. *)
Definition bulk (w : world) (client : backend) (actions : list action)
    : result (Z * list action) :=
  match actions with
  | [] => Ok (0, [])
  | _ =>
    request client
      (Z.of_nat (length (List.filter (item_ok w) actions)),
       List.filter (λ a, negb (item_ok w a)) actions)
  end.

(** [for success, info in ...: if not success: total_errors += 1] *)
Fixpoint count_failures (results : list (bool * action)) (st : gen_state) : gen_state :=
  match results with
  | [] => st
  | (success, _) :: results' =>
    count_failures results' (if success then st else incr_errors st)
  end.

Record stats : Type := {
  s_total_records : Z;
  s_total_errors : Z;
  s_elapsed_seconds : Q;
  s_elapsed_hours : Q;
  s_rate_per_second : Q;
  s_files_processed : nat
}.

(** [total_records / elapsed if elapsed > 0 else 0] *)
Definition rate_per_second (records : Z) (elapsed : Q) : result Q :=
  if negb (Qle_bool elapsed 0) then py_truediv (inject_Z records) elapsed else Ok 0%Q.

(** What a call leaves behind: the returned statistics, the builder, and
    what the generator did. *)
Record run : Type := {
  run_stats : stats;
  run_self : builder;
  run_events : list event
}.

(** The counters at the start of a run; the start time is the first clock
    reading. *)
Definition fresh (this : builder) : gen_state :=
  {| total_records := 0; total_errors := 0; ticks := 1; self := this |}.

(** The run once the files are known.  [parallel_bulk] makes its pool
    before it asks the generator for the first operation: with a thread
    count that is not positive the parallel run raises with the generator
    not started; the count is the one the builder has when the call is
    made. *)
Definition ingest (w : world) (this : builder) (files : list path)
    (extractor : json → result (option record))
    (test_limit : option Z) (resume parallel : bool) : result run :=
  let start_time := clock w 0 in
  _ ← (if parallel then thread_pool (thread_count this) else Ok ());
  let '(fl, st1, evs) :=
    generate_actions w extractor test_limit resume start_time files (fresh this) in
  match fl with
  | Throw e => Raise e
  | _ =>
    st2 ← (if parallel then
             results ← parallel_bulk w (_client (self st1)) (thread_count this)
                         (yielded evs);
             Ok (count_failures results st1)
           else
             _ ← bulk w (_client (self st1)) (yielded evs);
             Ok st1);
    this' ← _save_progress w (self st2);
    _ ← request (_client this') ();
    let elapsed := (clock w (ticks st2) - start_time)%Q in
    rate ← rate_per_second (total_records st2) elapsed;
    Ok {| run_stats :=
            {| s_total_records := total_records st2;
               s_total_errors := total_errors st2;
               s_elapsed_seconds := elapsed;
               s_elapsed_hours := (elapsed / 3600)%Q;
               s_rate_per_second := rate;
               s_files_processed := size (_processed_files this') |};
          run_self := this';
          run_events := evs |}
  end.

(** [IndexBuilder.add_jsonl_files] *)
Definition add_jsonl_files (w : world) (this : builder) (pattern : string)
    (extractor : json → result (option record))
    (test_limit : option Z) (resume parallel : bool) : result run :=
  files ← discover w pattern;
  ingest w this files extractor test_limit resume parallel.

(** ** Sample environments *)

(** A decoder for the texts the examples use: the empty object, the empty
    array and arrays of plain strings.  [json.loads] agrees with it on
    these texts, and rejects as it does a line that is not JSON at all. *)
Inductive dstate : Type :=
| DStart
| DFirst
| DNext (acc : list string)
| DStr (acc : list string) (cur : string)
| DAfter (acc : list string)
| DDone (acc : list string)
| DFail.

Definition dq : ascii := "034"%char.

Definition dstep (st : dstate) (c : ascii) : dstate :=
  match st with
  | DStart => if Ascii.eqb c "["%char then DFirst else if Ascii.eqb c " "%char then DStart else DFail
  | DFirst =>
    if Ascii.eqb c "]"%char then DDone []
    else if Ascii.eqb c dq then DStr [] EmptyString
    else if Ascii.eqb c " "%char then DFirst else DFail
  | DNext acc =>
    if Ascii.eqb c dq then DStr acc EmptyString
    else if Ascii.eqb c " "%char then DNext acc else DFail
  | DStr acc cur =>
    if Ascii.eqb c dq then DAfter (acc ++ [cur])
    else if Ascii.eqb c "\"%char then DFail
    else DStr acc (cur +:+ String c EmptyString)
  | DAfter acc =>
    if Ascii.eqb c ","%char then DNext acc
    else if Ascii.eqb c "]"%char then DDone acc
    else if Ascii.eqb c " "%char then DAfter acc else DFail
  | DDone acc => if Ascii.eqb c " "%char then DDone acc else DFail
  | DFail => DFail
  end.

Fixpoint drun (st : dstate) (s : string) : dstate :=
  match s with
  | EmptyString => st
  | String c s' => drun (dstep st c) s'
  end.

Definition sample_loads (s : string) : result json :=
  if String.eqb s "{}" then Ok (JObj [])
  else match drun DStart s with
       | DDone acc => Ok (JArr (JStr <$> acc))
       | _ => Raise JSONDecodeError
       end.

Definition quoted (s : string) : string := String dq (s +:+ String dq EmptyString).

Definition sample_dumps (v : json) : string :=
  match v with
  | JArr l =>
    "[" +:+ String.concat ", "
              (omap (λ x, match x with JStr s => Some (quoted s) | _ => None end) l)
        +:+ "]"
  | JObj _ => "{}"
  | _ => "null"
  end.

(** [str] on the scalars. *)
Definition sample_str (v : json) : string :=
  match v with
  | JStr s => s
  | JNum n => pretty n
  | JNull => "None"
  | JBool true => "True"
  | JBool false => "False"
  | _ => "..."
  end.

(** [fnmatch] for patterns made of literal characters, [*] and [?]. *)
Fixpoint sample_fnmatch (pat : string) : string → bool :=
  match pat with
  | EmptyString => λ s, String.eqb s EmptyString
  | String c pat' =>
    if Ascii.eqb c "*"%char then
      fix star (s : string) : bool :=
        sample_fnmatch pat' s ||
        match s with
        | EmptyString => false
        | String _ s' => star s'
        end
    else if Ascii.eqb c "?"%char then
      λ s, match s with
           | EmptyString => false
           | String _ s' => sample_fnmatch pat' s'
           end
    else
      λ s, match s with
           | EmptyString => false
           | String d s' => Ascii.eqb c d && sample_fnmatch pat' s'
           end
  end.

Definition file_of_lines (lines : list string) : file :=
  {| f_open := None; f_reads := Ok <$> lines |}.

(** Four source files: ten records and two lines that are not JSON; two
    records; a file whose second read fails; one record between two lines
    that hold a list, which the default extractor turns down.  Anything
    else cannot be opened.  Line ends are left out. *)
Definition sample_disk (p : string) : file :=
  if String.eqb p "data/a.jsonl" then
    file_of_lines ["{}"; "{}"; "oops"; "{}"; "{}"; "{}"; "{}"; "{"; "{}"; "{}"; "{}"; "{}"]
  else if String.eqb p "data/b.jsonl" then file_of_lines ["{}"; "{}"]
  else if String.eqb p "data/c.jsonl" then
    {| f_open := None; f_reads := [Ok "{}"; Raise OSError; Ok "{}"] |}
  else if String.eqb p "data/sub/x.jsonl" then file_of_lines ["[]"; "{}"; "[]"]
  else {| f_open := Some OSError; f_reads := [] |}.

Definition rel (parts : list string) : path := {| p_root := Relative; p_parts := parts |}.

Definition sample_entries : list fs_entry :=
  [ {| e_path := rel []; e_is_dir := true |};
    {| e_path := rel ["data"]; e_is_dir := true |};
    {| e_path := rel ["data"; "b.jsonl"]; e_is_dir := false |};
    {| e_path := rel ["data"; "a.jsonl"]; e_is_dir := false |};
    {| e_path := rel ["data"; "sub"]; e_is_dir := true |};
    {| e_path := rel ["data"; "sub"; "x.jsonl"]; e_is_dir := false |} ].

(** One second passes between two clock readings. *)
Definition running_clock (n : nat) : Q := inject_Z (Z.of_nat n).

(** A clock too coarse to tell the readings apart. *)
Definition frozen_clock (n : nat) : Q := 0%Q.

Definition sample_world (clk : nat → Q) (ok : bool) : world :=
  {| json_loads := sample_loads; json_dumps := sample_dumps; clock := clk;
     disk := sample_disk; fs_entries := sample_entries;
     fnmatch := sample_fnmatch; item_ok := λ _, ok |}.

Definition sample_extractor (rec : json) : result (option record) :=
  Ok (default_extractor sample_str rec).

Definition empty_backend : backend := {| b_up := true; b_meta := ∅ |}.


(** [json.loads] that also reads the text of the string [ab]. *)
Definition loads_with_text (s : string) : result json :=
  if String.eqb s (quoted "ab") then Ok (JStr "ab") else sample_loads s.

(** A backend whose progress record for the sample index holds, in place
    of a list of files, the text of a string. *)
Definition corrupt_backend : backend :=
  {| b_up := true;
     b_meta := {[ "progress_corpus" :=
                    {| d_index_name := "corpus";
                       d_processed_files := Some (SText (quoted "ab")) |} ]} |}.

Definition sample_builder (progress : Z) (done : gset pykey) : builder :=
  {| index_name := "corpus"; batch_size := 5000; progress_interval := progress;
     thread_count := 4; _processed_files := done; _client := empty_backend |}.

(** ** Observations on a run *)

(** The events of a line that was read and dispatched: a record emitted,
    or the line skipped (not JSON, or no record extracted). *)
Definition is_dispatch (ev : event) : bool :=
  match ev with
  | EvYield _ | EvLineError | EvNoRecord => true
  | _ => false
  end.

Definition dispatched (evs : list event) : nat := length (List.filter is_dispatch evs).

(** The events the body of the line loop produces. *)
Definition is_line_event (ev : event) : bool :=
  match ev with
  | EvYield _ | EvLineError | EvNoRecord | EvReport _ => true
  | _ => false
  end.

(** The files marked complete, in order. *)
Definition marked (evs : list event) : list string :=
  omap (λ ev, match ev with EvMark k => Some k | _ => None end) evs.

(** The files opened, in order. *)
Definition opened (evs : list event) : list string :=
  omap (λ ev, match ev with EvOpen k => Some k | _ => None end) evs.

Definition is_ok {A : Type} (r : result A) : bool :=
  match r with
  | Ok _ => true
  | Raise _ => false
  end.

(** A line that yields a record, a line that is not JSON, a line whose
    value the extractor turns down. *)
Definition is_valid (w : world) (extractor : json → result (option record))
    (line : string) : bool :=
  match json_loads w line with
  | Ok rec => match extractor rec with Ok (Some _) => true | _ => false end
  | Raise _ => false
  end.

Definition is_malformed (w : world) (line : string) : bool :=
  match json_loads w line with
  | Raise e => is_JSONDecodeError e
  | Ok _ => false
  end.

Definition is_rejected (w : world) (extractor : json → result (option record))
    (line : string) : bool :=
  match json_loads w line with
  | Ok rec => match extractor rec with Ok None => true | _ => false end
  | Raise _ => false
  end.

(** The resume test at the head of the file loop. *)
Definition skipped (resume : bool) (filepath : path) (st : gen_state) : bool :=
  resume && bool_decide (KStr (path_str filepath) ∈ _processed_files (self st)).

(** The progress report cannot fault: the interval is not zero, and from
    the reading [from] on the clock has moved away from the start time. *)
Definition reports_safe (w : world) (start_time : Q) (from : nat) (interval : Z) : Prop :=
  interval ≠ 0 ∧
  ∀ n, (from ≤ n)%nat → Qeq_bool (clock w n - start_time) 0 = false.

(** How a stretch of the run moves the state: the clock readings only
    advance, the reporting interval stays, and the record counter grows by
    the number of records emitted. *)
Definition advances (st st' : gen_state) (evs : list event) : Prop :=
  (ticks st ≤ ticks st')%nat ∧
  progress_interval (self st') = progress_interval (self st) ∧
  total_records st' = total_records st + Z.of_nat (length (yielded evs)).

(** The events of a file cut short by the limit: line events, then the
    last record emitted, then at most the progress line printed for it. *)
Definition cut_short (evs : list event) : Prop :=
  ∃ body a tail,
    evs = body ++ EvYield a :: tail ∧
    forallb is_line_event body = true ∧
    (tail = [] ∨ ∃ r, tail = [EvReport r]).

(** No limit in force: [test_limit] is [None] or zero, or too large to be
    reached by [n] more records. *)
Definition limit_beyond (test_limit : option Z) (st : gen_state) (n : Z) : Prop :=
  match test_limit with
  | None => True
  | Some k => k = 0 ∨ total_records st + n < k
  end.

(** A pattern component that stands for itself. *)
Definition literal (c : string) : bool := negb (is_wildcard_pattern c).

(** The patterns whose directory part is free of wildcards: a directory
    and a name pattern, with no [**] anywhere and no separator at the end;
    or a directory, one [**] component and a relative tail in which [**]
    occurs only as a whole component. *)
Definition literal_directory (pattern : string) : bool :=
  if contains "**" pattern then
    let base := Path (default EmptyString (head (py_split pattern "**"))) in
    let tail := Path (List.last (py_split pattern "**/") EmptyString) in
    negb (absolute (p_root tail)) && forallb valid_part (p_parts tail) &&
    forallb literal (p_parts base) &&
    bool_decide (p_root (Path pattern) = p_root base) &&
    bool_decide (p_parts (Path pattern) = p_parts base ++ "**" :: p_parts tail)
  else
    negb (ends_with_sep pattern) &&
    negb (bool_decide (p_parts (Path pattern) = [])) &&
    forallb literal (p_parts (parent (Path pattern))).

(** ** Further observations on a run *)

(** The lines counted as errors, and the files abandoned on an error. *)
Definition line_errors (evs : list event) : nat :=
  length (List.filter (λ ev, match ev with EvLineError => true | _ => false end) evs).

Definition file_errors (evs : list event) : nat :=
  length (List.filter (λ ev, match ev with EvFileError _ _ => true | _ => false end) evs).

(** A write operation of the index [name], keyed by the id of its own
    document. *)
Definition well_keyed (name : string) (a : action) : Prop :=
  a_index a = name ∧ a_id a = r_id (a_source a).

(** What a stretch of the run accounts for: every record counted was
    emitted, every error counted is a line or a file, the index name
    stays, and the operations emitted are well keyed. *)
Definition accounted (st st' : gen_state) (evs : list event) : Prop :=
  total_records st' = total_records st + Z.of_nat (length (yielded evs)) ∧
  total_errors st'
    = total_errors st + Z.of_nat (line_errors evs) + Z.of_nat (file_errors evs) ∧
  index_name (self st') = index_name (self st) ∧
  Forall (well_keyed (index_name (self st))) (yielded evs).

(** The progress document [_save_progress] writes for a builder. *)
Definition progress_doc_of (w : world) (this : builder) : progress_doc :=
  {| d_index_name := index_name this;
     d_processed_files :=
       Some (SText (json_dumps w (JArr (key_json <$> elements (_processed_files this))))) |}.

(** The same world with its entries listed in another arrangement. *)
Definition relisted (w : world) (entries : list fs_entry) : world :=
  {| json_loads := json_loads w; json_dumps := json_dumps w; clock := clock w;
     disk := disk w; fs_entries := entries; fnmatch := fnmatch w;
     item_ok := item_ok w |}.

(** ** Calls between the modules *)

(** A parameter of a [def] ([self] left out): its name and whether it has
    a default.  No function of the package takes [*args] or [**kwargs]. *)
Record formal : Type := {
  formal_name : string;
  formal_default : bool
}.

Definition required (n : string) : formal := {| formal_name := n; formal_default := false |}.
Definition optional (n : string) : formal := {| formal_name := n; formal_default := true |}.

(** A call site: how many arguments are passed by position, and the names
    of those passed by keyword. *)
Record call : Type := {
  positional : nat;
  keywords : list string
}.

(** Binding the arguments of a call to the parameters.  It is a
    [TypeError] to pass more positional arguments than there are
    parameters, to pass a keyword that names no parameter or one a
    positional argument fills already, and to leave a parameter without
    default unfilled. *)
Definition binds (sig : list formal) (c : call) : result () :=
  let open := drop (positional c) sig in
  if (length sig <? positional c)%nat then Raise TypeError
  else if negb (forallb (λ k, bool_decide (k ∈ formal_name <$> open)) (keywords c))
  then Raise TypeError
  else if negb (forallb (λ p, formal_default p || bool_decide (formal_name p ∈ keywords c)) open)
  then Raise TypeError
  else Ok ().

(** [CaproneIndex.__init__] *)
Definition CaproneIndex_signature : list formal :=
  [required "index_name"; optional "hosts"; optional "api_key"; optional "basic_auth";
   optional "verify_certs"; optional "shards"; optional "replicas";
   optional "create_if_missing"].

(** [IndexBuilder.__init__] *)
Definition IndexBuilder_signature : list formal :=
  [required "index_name"; optional "hosts"; optional "api_key"; optional "basic_auth";
   optional "batch_size"; optional "progress_interval"; optional "thread_count";
   optional "shards"; optional "replicas"; optional "refresh_interval"].

(** [benchmark] *)
Definition benchmark_signature : list formal :=
  [required "index_name"; optional "hosts"; optional "api_key"; optional "queries"].

(** [IndexBuilder.add_jsonl_files] *)
Definition add_jsonl_files_signature : list formal :=
  [required "pattern"; optional "extractor"; optional "test_limit"; optional "resume";
   optional "parallel"].

(** ** Construction *)

(** The keyword arguments handed to [Elasticsearch(...)]; [None] is a key
    that is not passed. *)
Record connection : Type := {
  c_hosts : list string;
  c_verify_certs : option bool;
  c_api_key : option string;
  c_basic_auth : option (list string)
}.

Definition default_hosts : list string := ["http://localhost:9200"].

(** [conn_kwargs], as the constructors build it: [hosts or [...]], then
    the API key if there is a non-empty one, else the basic
    authentication if there is a non-empty one. *)
Definition conn_kwargs (hosts : option (list string)) (verify_certs : option bool)
    (api_key : option string) (basic_auth : option (list string)) : connection :=
  let key := match api_key with
             | Some k => if String.eqb k EmptyString then None else Some k
             | None => None
             end in
  {| c_hosts := match hosts with
                | Some (h :: hs) => h :: hs
                | _ => default_hosts
                end;
     c_verify_certs := verify_certs;
     c_api_key := key;
     c_basic_auth := match key, basic_auth with
                     | None, Some (x :: l) => Some (x :: l)
                     | _, _ => None
                     end |}.

(** A [CaproneIndex] object. *)
Record caprone_index : Type := {
  ci_index_name : string;
  ci_shards : Z;
  ci_replicas : Z;
  ci_client : backend
}.

Section Construction.
(** [Elasticsearch] called with the keyword arguments of the connection,
    [client.indices.exists(index=...)], and
    [client.indices.create(index=..., body=...)] with the shard and
    replica numbers of the settings. *)
Variable Elasticsearch : connection → result backend.
Variable indices_exists : backend → string → result bool.
Variable indices_create : backend → string → Z → Z → result backend.

(** The body of [CaproneIndex.__init__]. *)
Definition CaproneIndex_init (index_name : string) (hosts : option (list string))
    (api_key : option string) (basic_auth : option (list string))
    (verify_certs : bool) (shards replicas : Z) (create_if_missing : bool)
    : result caprone_index :=
  client ← Elasticsearch (conn_kwargs hosts (Some verify_certs) api_key basic_auth);
  client ← (if create_if_missing then
              there ← indices_exists client index_name;
              if (there : bool) then Ok client
              else indices_create client index_name shards replicas
            else Ok client);
  Ok {| ci_index_name := index_name; ci_shards := shards; ci_replicas := replicas;
        ci_client := client |}.

(** [IndexBuilder.__init__], whole: the client, the [CaproneIndex] of the
    main index, called with one positional argument and six keywords, then
    the metadata index and the progress. *)
Definition IndexBuilder_new (w : world) (index_name : string)
    (hosts : option (list string)) (api_key : option string)
    (basic_auth : option (list string)) (batch_size progress_interval thread_count : Z)
    (shards replicas : Z) (refresh_interval : string) : result builder :=
  client ← Elasticsearch (conn_kwargs hosts None api_key basic_auth);
  _ ← (_ ← binds CaproneIndex_signature
             {| positional := 1;
                keywords := ["hosts"; "api_key"; "basic_auth"; "shards"; "replicas";
                             "refresh_interval"] |};
       CaproneIndex_init index_name hosts api_key basic_auth true shards replicas true);
  IndexBuilder_init w client index_name batch_size progress_interval thread_count.

(** [get_hosts(args)], on the value of [args.hosts]. *)
Definition get_hosts (hosts : option string) : list string :=
  match hosts with
  | Some s => if String.eqb s EmptyString then default_hosts else py_split s ","
  | None => default_hosts
  end.

(** The arguments of the [build] command, as the parser leaves them. *)
Record build_args : Type := {
  arg_hosts : option string;
  arg_api_key : option string;
  arg_pattern : string;
  arg_index : string;
  arg_batch_size : Z;
  arg_shards : Z;
  arg_replicas : Z;
  arg_limit : option Z;
  arg_no_resume : bool
}.

(** [cmd_build]; [py_str] is the builtin [str] the default extractor
    applies.  Closing the builder at the end has no effect here. *)
Definition cmd_build (w : world) (py_str : json → string) (args : build_args)
    : result run :=
  _ ← binds IndexBuilder_signature
        {| positional := 0;
           keywords := ["index_name"; "hosts"; "api_key"; "batch_size"; "shards";
                        "replicas"] |};
  builder ← IndexBuilder_new w (arg_index args) (Some (get_hosts (arg_hosts args)))
              (arg_api_key args) None (arg_batch_size args) 100000 4
              (arg_shards args) (arg_replicas args) "-1";
  _ ← binds add_jsonl_files_signature
        {| positional := 0; keywords := ["pattern"; "test_limit"; "resume"] |};
  add_jsonl_files w builder (arg_pattern args) (λ rec, Ok (default_extractor py_str rec))
    (arg_limit args) (negb (arg_no_resume args)) true.
End Construction.

(** ** The other entry points *)

(** Their exceptions: those of the pipeline, and the classes met only
    outside it.  [KeyboardInterrupt] is the one that does not derive from
    [Exception]. *)
Inductive raised : Type :=
| Exn (e : exn)
| IndexError
| KeyError
| BulkIndexError
| ApiError
| EOFError
| KeyboardInterrupt.

Inductive attempt (A : Type) : Type :=
| Done (a : A)
| Fails (r : raised).
Arguments Done {A} a.
Arguments Fails {A} r.

#[global] Instance attempt_ret : MRet attempt := λ A a, Done a.
#[global] Instance attempt_bind : MBind attempt := λ A B f m,
  match m with
  | Done a => f a
  | Fails r => Fails r
  end.

Definition lift {A : Type} (m : result A) : attempt A :=
  match m with
  | Ok a => Done a
  | Raise e => Fails (Exn e)
  end.

(** The truth value of a decoded value. *)
Definition truthy (v : json) : bool :=
  match v with
  | JNull => false
  | JBool b => b
  | JNum n => negb (n =? 0)
  | JStr s => negb (String.eqb s EmptyString)
  | JArr l => negb (bool_decide (l = []))
  | JObj d => negb (bool_decide (d = []))
  end.

(** [bulk(client, actions, ...)] with [raise_on_error] left at its
    default: a rejected operation raises [BulkIndexError]; otherwise the
    number of successes and the empty list of failures. *)
Definition bulk_strict (w : world) (client : backend) (actions : list action)
    : attempt (Z * list action) :=
  match actions with
  | [] => Done (0, [])
  | _ =>
    _ ← lift (request client ());
    if forallb (item_ok w) actions then Done (Z.of_nat (length actions), [])
    else Fails BulkIndexError
  end.

Section Tuples.
(** The builtin [str]. *)
Variable py_str : json → string.

(** [str(year) if year else <empty>] *)
Definition year_text (year : json) : json :=
  if truthy year then JStr (py_str year) else JStr EmptyString.

(** The document [CaproneIndex.add] sends, under the id as key. *)
Definition add_document (name : string) (id title content year prefix : json) : action :=
  {| a_index := name; a_id := id;
     a_source := {| r_id := id; r_title := title; r_content := content;
                    r_year := year_text year; r_prefix := prefix |} |}.

(** [CaproneIndex.add]: one request; what was sent, when the backend took
    it. *)
Definition CaproneIndex_add (w : world) (this : caprone_index)
    (id title content year prefix : json) : attempt action :=
  let doc := add_document (ci_index_name this) id title content year prefix in
  _ ← lift (request (ci_client this) ());
  if item_ok w doc then Done doc else Fails ApiError.

(** The dict yielded for one tuple by [generate_actions] of
    [CaproneIndex.bulk_add]: the first component is read without a length
    test, the others only when the tuple is long enough to have them, the
    empty string standing in otherwise. *)
Definition bulk_add_action (name : string) (rec : list json) : attempt action :=
  match rec !! 0%nat with
  | None => Fails IndexError
  | Some doc_id =>
    Done {| a_index := name; a_id := doc_id;
            a_source :=
              {| r_id := doc_id;
                 r_title := default (JStr EmptyString) (rec !! 1%nat);
                 r_content := default (JStr EmptyString) (rec !! 2%nat);
                 r_year := match rec !! 3%nat with
                           | Some year => year_text year
                           | None => JStr EmptyString
                           end;
                 r_prefix := default (JStr EmptyString) (rec !! 4%nat) |} |}
  end.

Fixpoint attempt_mapM {A B : Type} (f : A → attempt B) (l : list A) : attempt (list B) :=
  match l with
  | [] => Done []
  | x :: l' => y ← f x; ys ← attempt_mapM f l'; Done (y :: ys)
  end.

(** [CaproneIndex.bulk_add]: the number of successes [bulk] reports.  The
    stream is produced, then submitted. *)
Definition bulk_add (w : world) (this : caprone_index) (records : list (list json))
    : attempt Z :=
  actions ← attempt_mapM (bulk_add_action (ci_index_name this)) records;
  '(success, _) ← bulk_strict w (ci_client this) actions;
  Done success.

(** A progress line of [add_records]. *)
Record progress_line : Type := {
  pl_records : Z;
  pl_rate : Q;
  pl_percent : option Q
}.

(** What the generator of [add_records] puts out: the operations it
    yields and the lines it prints. *)
Inductive output : Type :=
| Op (a : action)
| Line (p : progress_line).

Definition ops (out : list output) : list action :=
  omap (λ o, match o with Op a => Some a | Line _ => None end) out.

(** The dict yielded for one tuple by [generate_actions] of
    [IndexBuilder.add_records]. *)
Definition add_records_action (name : string) (rec : list json) : attempt action :=
  match rec !! 0%nat with
  | None => Fails IndexError
  | Some id =>
    Done {| a_index := name; a_id := id;
            a_source :=
              {| r_id := id;
                 r_title := default (JStr EmptyString) (rec !! 1%nat);
                 r_content := default (JStr EmptyString) (rec !! 2%nat);
                 r_year := match rec !! 3%nat with
                           | Some year => year_text year
                           | None => JStr EmptyString
                           end;
                 r_prefix := default (JStr EmptyString) (rec !! 4%nat) |} |}
  end.

(** The body of [for rec in records] in [add_records]; the state is the
    counter and the number of clock readings taken. *)
Definition add_records_step (w : world) (this : builder) (total_hint : option Z)
    (start_time : Q) (rec : list json) (st : Z * nat) : attempt (Z * nat * list output) :=
  let total_records := st.1 + 1 in
  a ← add_records_action (index_name this) rec;
  m ← lift (py_mod total_records (progress_interval this));
  if m =? 0 then
    let elapsed := (clock w st.2 - start_time)%Q in
    rate ← lift (py_truediv (inject_Z total_records) elapsed);
    let pct := match total_hint with
               | Some h => if h =? 0 then None
                           else Some (inject_Z (100 * total_records) / inject_Z h)%Q
               | None => None
               end in
    Done (total_records, S st.2,
          [Op a; Line {| pl_records := total_records; pl_rate := rate;
                         pl_percent := pct |}])
  else Done (total_records, st.2, [Op a]).

Fixpoint add_records_gen (w : world) (this : builder) (total_hint : option Z)
    (start_time : Q) (records : list (list json)) (st : Z * nat)
    : attempt (Z * nat * list output) :=
  match records with
  | [] => Done (st, [])
  | rec :: rest =>
    '(st1, out1) ← add_records_step w this total_hint start_time rec st;
    '(st2, out2) ← add_records_gen w this total_hint start_time rest st1;
    Done (st2, out1 ++ out2)
  end.

(** The dict [add_records] returns. *)
Record add_stats : Type := {
  ar_total_records : Z;
  ar_elapsed_seconds : Q;
  ar_rate_per_second : Q
}.

(** [IndexBuilder.add_records].  The stream is produced, then submitted,
    then the index is refreshed. *)
Definition add_records (w : world) (this : builder) (records : list (list json))
    (total_hint : option Z) : attempt (add_stats * list output) :=
  let start_time := clock w 0 in
  '(st, out) ← add_records_gen w this total_hint start_time records (0, 1%nat);
  _ ← bulk_strict w (_client this) (ops out);
  _ ← lift (request (_client this) ());
  let elapsed := (clock w st.2 - start_time)%Q in
  rate ← lift (rate_per_second st.1 elapsed);
  Done ({| ar_total_records := st.1; ar_elapsed_seconds := elapsed;
           ar_rate_per_second := rate |}, out).
End Tuples.

(** ** Searching *)

(** The request body of a search: the query text, the term filters as
    pairs of a field and a value, and the size. *)
Record search_body : Type := {
  q_query : string;
  q_filters : list (string * string);
  q_size : Z
}.

(** A hit of the response: its [_source] and its [_score]. *)
Record hit : Type := {
  h_source : list (string * json);
  h_score : json
}.

(** A result of [CaproneIndex.search]. *)
Record found : Type := {
  fd_id : json;
  fd_title : json;
  fd_content : json;
  fd_year : json;
  fd_prefix : json;
  fd_score : json
}.

Definition default_queries : list string :=
  ["quantum"; "neural network"; "climate change"; "machine learning"; "polysemanticity"].

(** One line of the table of [benchmark]: the query, the number of hits
    and the time in milliseconds. *)
Record timing : Type := {
  t_query : string;
  t_results : nat;
  t_time_ms : Q
}.

(** The dict [benchmark] returns. *)
Record bench : Type := {
  bn_queries : list timing;
  bn_average_ms : Q;
  bn_total_ms : Q
}.

Section Searching.
Variable Elasticsearch : connection → result backend.
Variable indices_exists : backend → string → result bool.
Variable indices_create : backend → string → Z → Z → result backend.
(** [client.search(index=..., body=...)]: the hits of the response. *)
Variable client_search : backend → string → search_body → attempt (list hit).

(** [CaproneIndex.search]: a year or a prefix that counts as false adds no
    filter. *)
Definition CaproneIndex_search (this : caprone_index) (query : string) (limit : Z)
    (year : option Z) (prefix : option string) : attempt (list found) :=
  let year_clause := match year with
                     | Some y => if y =? 0 then [] else [("year", pretty y)]
                     | None => []
                     end in
  let prefix_clause := match prefix with
                       | Some p => if String.eqb p EmptyString then [] else [("prefix", p)]
                       | None => []
                       end in
  let body := {| q_query := query; q_filters := year_clause ++ prefix_clause;
                 q_size := limit |} in
  hits ← client_search (ci_client this) (ci_index_name this) body;
  Done ((λ h, {| fd_id := dict_get "id" (h_source h) (JStr EmptyString);
                 fd_title := dict_get "title" (h_source h) (JStr EmptyString);
                 fd_content := dict_get "content" (h_source h) (JStr EmptyString);
                 fd_year := dict_get "year" (h_source h) (JStr EmptyString);
                 fd_prefix := dict_get "prefix" (h_source h) (JStr EmptyString);
                 fd_score := h_score h |}) <$> (hits : list hit)).

(** The loop of [benchmark]: two clock readings around each search; the
    state is the number of readings taken and the total time. *)
Fixpoint benchmark_loop (w : world) (index : caprone_index) (queries : list string)
    (ticks : nat) (total_time : Q) : attempt (nat * Q * list timing) :=
  match queries with
  | [] => Done (ticks, total_time, [])
  | query :: rest =>
    let start := clock w ticks in
    hits ← CaproneIndex_search index query 100 None None;
    let elapsed_ms := ((clock w (S ticks) - start) * 1000)%Q in
    '(ticks', total', results) ←
      benchmark_loop w index rest (S (S ticks)) (total_time + elapsed_ms)%Q;
    Done (ticks', total',
          {| t_query := query; t_results := length hits; t_time_ms := elapsed_ms |}
            :: results)
  end.

(** [benchmark] *)
Definition benchmark (w : world) (index_name : string) (hosts : option (list string))
    (api_key : option string) (queries : option (list string)) : attempt bench :=
  let queries := default default_queries queries in
  index ← lift (_ ← binds CaproneIndex_signature
                      {| positional := 1;
                         keywords := ["hosts"; "api_key"; "create_if_missing"] |};
                CaproneIndex_init Elasticsearch indices_exists indices_create
                  index_name hosts api_key None true 5 1 false);
  '(_, total_time, results) ← benchmark_loop w index queries 0 0%Q;
  avg_time ← lift (py_truediv total_time (inject_Z (Z.of_nat (length queries))));
  Done {| bn_queries := results; bn_average_ms := avg_time; bn_total_ms := total_time |}.

(** [cmd_benchmark], on the values of [args.index], [args.hosts],
    [args.api_key] and [args.queries]. *)
Definition cmd_benchmark (w : world) (index : string) (hosts api_key queries : option string)
    : attempt bench :=
  let queries := match queries with
                 | Some s => if String.eqb s EmptyString then None
                             else Some (py_split s ",")
                 | None => None
                 end in
  _ ← lift (binds benchmark_signature
              {| positional := 0;
                 keywords := ["index_name"; "hosts"; "api_key"; "queries"] |});
  benchmark w index (Some (get_hosts hosts)) api_key queries.
End Searching.

(** ** A sample cluster *)

(** A cluster that answers: the client is made, no index exists that
    would not be created on request, and every search has one hit. *)
Definition sample_connect (c : connection) : result backend := Ok empty_backend.
Definition sample_exists (b : backend) (name : string) : result bool := Ok false.
Definition sample_create (b : backend) (name : string) (shards replicas : Z)
    : result backend := Ok b.
Definition sample_search (b : backend) (name : string) (body : search_body)
    : attempt (list hit) :=
  Done [ {| h_source := [("id", JStr "10.1/x"); ("title", JStr (q_query body))];
            h_score := JNum 1 |} ].

(** ** The interactive session *)

(** The settings the session keeps between two prompts. *)
Record settings : Type := {
  year_filter : option Z;
  limit : Z;
  show_content : bool
}.

(** How one turn of the loop ends: [continue] (or the end of the body),
    or [break]. *)
Inductive turn : Type :=
| Continue (st : settings)
| Break.

Section Interactive.
(** The n-th call of [input], and the outcome of the calls made for the
    n-th line: [self.search] and [self.index.stats]. *)
Variable input : nat → attempt string.
Variable run_search : nat → string → settings → attempt ().
Variable run_stats : nat → attempt ().
(** [str.strip], [str.split] without argument, and [int] on a string. *)
Variable py_strip : string → string.
Variable py_words : string → list string.
Variable py_int : string → result Z.

(** The body of the [try] block for the n-th prompt. *)
Definition interactive_body (n : nat) (st : settings) : attempt turn :=
  line ← input n;
  let query := py_strip line in
  if String.eqb query EmptyString then Done (Continue st)
  else if String.eqb query ":quit" || String.eqb query ":q" then Done Break
  else if String.prefix ":year" query then
    match py_words query with
    | [_; year] =>
      y ← lift (py_int year);
      Done (Continue {| year_filter := Some y; limit := limit st;
                        show_content := show_content st |})
    | _ => Done (Continue {| year_filter := None; limit := limit st;
                             show_content := show_content st |})
    end
  else if String.prefix ":limit" query then
    match py_words query with
    | [_; lim] =>
      l ← lift (py_int lim);
      Done (Continue {| year_filter := year_filter st; limit := l;
                        show_content := show_content st |})
    | _ => Done (Continue st)
    end
  else if String.eqb query ":content" then
    Done (Continue {| year_filter := year_filter st; limit := limit st;
                      show_content := negb (show_content st) |})
  else if String.eqb query ":stats" then
    _ ← run_stats n; Done (Continue st)
  else
    _ ← run_search n query st; Done (Continue st).

(** One turn: [KeyboardInterrupt] leaves the loop, any other exception is
    printed and the loop goes on with the settings it had. *)
Definition interactive_turn (n : nat) (st : settings) : turn :=
  match interactive_body n st with
  | Done t => t
  | Fails KeyboardInterrupt => Break
  | Fails _ => Continue st
  end.

(** [while True: ...] for at most [fuel] turns from the n-th prompt on:
    the number of prompts shown and the settings when the loop is left,
    [None] when it is still running. *)
Fixpoint interactive_loop (fuel : nat) (n : nat) (st : settings) : option (nat * settings) :=
  match fuel with
  | O => None
  | S fuel' =>
    match interactive_turn n st with
    | Break => Some (S n, st)
    | Continue st' => interactive_loop fuel' (S n) st'
    end
  end.

(** [SearchInterface.interactive]: the loop from the first prompt with the
    initial settings. *)
Definition interactive (fuel : nat) : option (nat * settings) :=
  interactive_loop fuel 0 {| year_filter := None; limit := 20; show_content := false |}.
End Interactive.

(** ** The indices of the cluster *)

(** An entry of [ClusterManager.indices]. *)
Record index_info : Type := {
  ix_name : json;
  ix_health : json;
  ix_status : json;
  ix_docs_count : Z;
  ix_size : json;
  ix_pri_shards : Z;
  ix_rep_shards : Z
}.

Fixpoint dict_lookup (k : string) (d : list (string * json)) : option json :=
  match d with
  | [] => None
  | (k', v) :: d' => if String.eqb k k' then Some v else dict_lookup k d'
  end.

Section Cluster.
(** [int] on a string. *)
Variable py_int : string → result Z.

(** [int(v)] on a decoded value. *)
Definition int_of (v : json) : result Z :=
  match v with
  | JNum n => Ok n
  | JBool b => Ok (if b then 1 else 0)
  | JStr s => py_int s
  | _ => Raise TypeError
  end.

(** One row of the listing: the condition of the comprehension first,
    then the entry; [None] is a row the condition leaves out. *)
Definition index_row (idx : list (string * json)) : attempt (option index_info) :=
  name ← match dict_lookup "index" idx with
         | Some v => Done v
         | None => Fails KeyError
         end;
  system ← match name with
           | JStr s => Done (String.prefix "." s)
           | _ => Fails (Exn AttributeError)
           end;
  if system : bool then Done None
  else
    docs ← lift (int_of (dict_get "docs.count" idx (JNum 0)));
    pri ← lift (int_of (dict_get "pri" idx (JNum 0)));
    rep ← lift (int_of (dict_get "rep" idx (JNum 0)));
    Done (Some {| ix_name := name;
                  ix_health := dict_get "health" idx (JStr "unknown");
                  ix_status := dict_get "status" idx (JStr "unknown");
                  ix_docs_count := docs;
                  ix_size := dict_get "store.size" idx (JStr "0b");
                  ix_pri_shards := pri;
                  ix_rep_shards := rep |}).

Fixpoint index_rows (rows : list (list (string * json))) : attempt (list index_info) :=
  match rows with
  | [] => Done []
  | idx :: rows' =>
    entry ← index_row idx;
    rest ← index_rows rows';
    Done (match entry with Some e => e :: rest | None => rest end)
  end.

(** [ClusterManager.indices], on the answer of [client.cat.indices]. *)
Definition indices (cat_indices : attempt (list (list (string * json))))
    : attempt (list index_info) :=
  rows ← cat_indices; index_rows rows.
End Cluster.

(** ** A sample session *)

(** The input of a session that was written beforehand: the lines in
    turn, then the end of the input. *)
Definition scripted (lines : list string) (n : nat) : attempt string :=
  match lines !! n with
  | Some line => Done line
  | None => Fails EOFError
  end.

Fixpoint drop_blanks (s : string) : string :=
  match s with
  | String c s' => if Ascii.eqb c " " then drop_blanks s' else s
  | EmptyString => EmptyString
  end.

(** [strip], [split] and [int] as they are on texts of letters, digits,
    colons and blanks. *)
Definition sample_strip (s : string) : string :=
  String.rev (drop_blanks (String.rev (drop_blanks s))).

Definition sample_words (s : string) : list string :=
  List.filter (λ p, negb (String.eqb p EmptyString)) (py_split s " ").

Fixpoint digits (acc : Z) (s : string) : result Z :=
  match s with
  | EmptyString => Ok acc
  | String c s' =>
    let d := Z.of_nat (nat_of_ascii c) - 48 in
    if (0 <=? d) && (d <=? 9) then digits (10 * acc + d) s' else Raise ValueError
  end.

Definition sample_int (s : string) : result Z :=
  match s with
  | EmptyString => Raise ValueError
  | _ => digits 0 s
  end.

Definition quiet_search (n : nat) (query : string) (st : settings) : attempt () := Done ().
Definition quiet_stats (n : nat) : attempt () := Done ().

(** * Properties *)

(** ** The line loop *)

Ltac line_cases :=
  unfold gen_line, on_line_exn, limit_check, py_mod, py_truediv in *;
  repeat case_match; simplify_eq/=.

Section LineLoop.
Context (w : world) (extractor : json → result (option record)).
Context (test_limit : option Z) (resume : bool) (start_time : Q) (nfiles : nat).

Local Abbreviation gen_line := (gen_line w extractor test_limit start_time nfiles).
Local Abbreviation gen_lines := (gen_lines w extractor test_limit start_time nfiles).

Lemma gen_line_self idx line st fl st' evs :
  gen_line idx line st = (fl, st', evs) → self st' = self st.
Proof. intros H. line_cases; done. Qed.

Lemma gen_line_line_events idx line st fl st' evs :
  gen_line idx line st = (fl, st', evs) → forallb is_line_event evs = true.
Proof. intros H. line_cases; done. Qed.

(** A line that lets the loop go on, or that ends the stream, was
    dispatched exactly once. *)
Lemma gen_line_dispatched idx line st fl st' evs :
  gen_line idx line st = (fl, st', evs) →
  (∀ e, fl ≠ Throw e) → dispatched evs = 1%nat.
Proof. intros H Hfl. line_cases; try done; by destruct (Hfl e). Qed.

Lemma gen_line_dispatched_le idx line st fl st' evs :
  gen_line idx line st = (fl, st', evs) → (dispatched evs ≤ 1)%nat.
Proof. intros H. line_cases; cbn; lia. Qed.

Lemma gen_lines_self idx reads st fl st' evs :
  gen_lines idx reads st = (fl, st', evs) → self st' = self st.
Proof.
  revert st fl st' evs. induction reads as [|[line|e] reads IH]; intros st fl st' evs H.
  - by simplify_eq/=.
  - cbn in H. destruct (gen_line idx line st) as [[fl1 st1] ev1] eqn:E1.
    apply gen_line_self in E1. destruct fl1.
    + destruct (gen_lines idx reads st1) as [[fl2 st2] ev2] eqn:E2.
      apply IH in E2. simplify_eq. congruence.
    + by simplify_eq.
    + by simplify_eq.
  - by simplify_eq/=.
Qed.

Lemma gen_lines_line_events idx reads st fl st' evs :
  gen_lines idx reads st = (fl, st', evs) → forallb is_line_event evs = true.
Proof.
  revert st fl st' evs. induction reads as [|[line|e] reads IH]; intros st fl st' evs H.
  - by simplify_eq/=.
  - cbn in H. destruct (gen_line idx line st) as [[fl1 st1] ev1] eqn:E1.
    apply gen_line_line_events in E1. destruct fl1.
    + destruct (gen_lines idx reads st1) as [[fl2 st2] ev2] eqn:E2.
      apply IH in E2. simplify_eq. rewrite forallb_app. by rewrite E1, E2.
    + by simplify_eq.
    + by simplify_eq.
  - by simplify_eq/=.
Qed.

Lemma dispatched_app evs1 evs2 :
  dispatched (evs1 ++ evs2) = (dispatched evs1 + dispatched evs2)%nat.
Proof. unfold dispatched. by rewrite List.filter_app, length_app. Qed.

(** When the loop runs off the end of the file, every read succeeded and
    every line was dispatched. *)
Lemma gen_lines_next idx reads st st' evs :
  gen_lines idx reads st = (Next, st', evs) →
  forallb is_ok reads = true ∧ dispatched evs = length reads.
Proof.
  revert st st' evs. induction reads as [|[line|e] reads IH]; intros st st' evs H.
  - by simplify_eq/=.
  - cbn in H. destruct (gen_line idx line st) as [[fl1 st1] ev1] eqn:E1.
    destruct fl1; [|done..].
    destruct (gen_lines idx reads st1) as [[fl2 st2] ev2] eqn:E2. simplify_eq.
    apply IH in E2 as [? ?]. apply gen_line_dispatched in E1; [|done].
    rewrite dispatched_app. cbn. split; [done|lia].
  - by simplify_eq/=.
Qed.

(** However the loop ends, no more lines are dispatched than were read
    before the loop ended. *)
Lemma gen_lines_dispatched_le idx reads st fl st' evs :
  gen_lines idx reads st = (fl, st', evs) → (dispatched evs ≤ length reads)%nat.
Proof.
  revert st fl st' evs. induction reads as [|[line|e] reads IH]; intros st fl st' evs H.
  - simplify_eq/=. done.
  - cbn in H. destruct (gen_line idx line st) as [[fl1 st1] ev1] eqn:E1.
    apply gen_line_dispatched_le in E1. destruct fl1.
    + destruct (gen_lines idx reads st1) as [[fl2 st2] ev2] eqn:E2. simplify_eq.
      apply IH in E2. rewrite dispatched_app. cbn. lia.
    + simplify_eq. cbn. lia.
    + simplify_eq. cbn. lia.
  - simplify_eq/=. cbn. lia.
Qed.

(** A read that fails after a prefix the loop went through ends the loop
    there, whatever follows in the file. *)
Lemma gen_lines_fault idx pre e post st st1 ev1 :
  gen_lines idx pre st = (Next, st1, ev1) →
  gen_lines idx (pre ++ Raise e :: post) st = (Throw e, st1, ev1).
Proof.
  revert st st1 ev1. induction pre as [|[line|e'] pre IH]; intros st st1 ev1 H.
  - by simplify_eq/=.
  - cbn in *. destruct (gen_line idx line st) as [[fl2 st2] ev2] eqn:E2.
    destruct fl2; [|done..].
    destruct (gen_lines idx pre st2) as [[fl3 st3] ev3] eqn:E3. simplify_eq.
    by rewrite (IH _ _ _ E3).
  - by simplify_eq/=.
Qed.
End LineLoop.

(** ** One file *)

Section OneFile.
Context (w : world) (extractor : json → result (option record)).
Context (test_limit : option Z) (resume : bool) (start_time : Q) (nfiles : nat).

Local Abbreviation gen_lines := (gen_lines w extractor test_limit start_time nfiles).
Local Abbreviation gen_open := (gen_open w extractor test_limit start_time nfiles).
Local Abbreviation gen_file := (gen_file w extractor test_limit resume start_time nfiles).

Lemma marked_app evs1 evs2 : marked (evs1 ++ evs2) = marked evs1 ++ marked evs2.
Proof. unfold marked. by rewrite omap_app. Qed.

Lemma marked_line_events evs : forallb is_line_event evs = true → marked evs = [].
Proof.
  induction evs as [|ev evs IH]; [done|].
  cbn. intros [Hev Hevs]%andb_prop. destruct ev; try done; by apply IH.
Qed.

Lemma not_mark_line_events evs k :
  forallb is_line_event evs = true → EvMark k ∉ evs.
Proof.
  intros Hall Hin. rewrite forallb_forall in Hall.
  apply list_elem_of_In, Hall in Hin. done.
Qed.

Lemma mark_complete_spec key st evs fl st' evs' :
  mark_complete w key st evs = (fl, st', evs') →
  _processed_files (self st') = {[ KStr key ]} ∪ _processed_files (self st) ∧
  total_records st' = total_records st ∧ total_errors st' = total_errors st ∧
  ticks st' = ticks st ∧
  fl ≠ Stop ∧
  ∃ tail, evs' = evs ++ EvMark key :: tail ∧ (tail = [] ∨ ∃ s, tail = [EvSave s]).
Proof.
  unfold mark_complete, _save_progress, client_index. intros H.
  repeat case_match; simplify_eq/=; repeat split; try done; eauto.
Qed.

(** C1.  A file is marked complete only at the end of a full read: if
    [gen_file] marks a file, the file was opened, every read of it
    succeeded, every line was dispatched (emitted or skipped) before the
    mark, and nothing but a progress save follows the mark.  If the file
    cannot be opened, or a read fails once the loop has gone through the
    lines before it, the error counter grows by exactly one over its value
    at the fault, the lines after the fault are never dispatched, the set
    of processed files is unchanged, and the generator goes on to the next
    file. *)
Theorem mark_only_after_full_read idx filepath st fl st' evs :
  gen_file idx filepath st = (fl, st', evs) →
  let key := path_str filepath in
  let f := disk w key in
  (∀ k, EvMark k ∈ evs →
     k = key ∧ f_open f = None ∧ forallb is_ok (f_reads f) = true ∧
     ∃ body tail,
       evs = EvOpen key :: body ++ EvMark key :: tail ∧
       forallb is_line_event body = true ∧
       dispatched body = length (f_reads f) ∧
       (tail = [] ∨ ∃ s, tail = [EvSave s]))
  ∧ (∀ e, skipped resume filepath st = false → f_open f = Some e →
       fl = Next ∧ st' = incr_errors st ∧
       evs = [EvOpen key; EvFileError key e])
  ∧ (∀ pre e post st1 ev1,
       skipped resume filepath st = false → f_open f = None →
       f_reads f = pre ++ Raise e :: post →
       gen_lines idx pre st = (Next, st1, ev1) →
       fl = Next ∧
       total_errors st' = total_errors st1 + 1 ∧
       total_records st' = total_records st1 ∧
       _processed_files (self st') = _processed_files (self st) ∧
       evs = EvOpen key :: ev1 ++ [EvFileError key e] ∧
       marked evs = [] ∧
       dispatched evs = length pre).
Proof.
  intros H key f. unfold gen_file, gen_open, skipped in *.
  subst key f. split; [|split].
  - intros k Hk.
    destruct (resume && _) eqn:Hskip.
    { simplify_eq. by apply elem_of_nil in Hk. }
    destruct (f_open _) as [e|] eqn:Hopen.
    { simplify_eq/=. set_solver. }
    destruct (gen_lines idx _ st) as [[fl1 st1] ev1] eqn:E1.
    pose proof E1 as Hline. apply gen_lines_line_events in Hline.
    pose proof (not_mark_line_events _ k Hline) as Hnot.
    destruct fl1.
    + apply gen_lines_next in E1 as [Hok Hd].
      apply mark_complete_spec in H as (_ & _ & _ & _ & _ & tail & -> & Htail).
      assert (k = path_str filepath) as ->.
      { cbn in Hk. rewrite elem_of_cons, elem_of_app, elem_of_cons in Hk.
        destruct Hk as [?|[?|[?|Hk]]]; try done; [congruence|].
        destruct Htail as [->|[s ->]]; set_solver. }
      repeat split; try done. exists ev1, tail. by rewrite app_comm_cons.
    + simplify_eq. set_solver.
    + simplify_eq. cbn in Hk. set_solver.
  - intros e Hskip Hopen. rewrite Hskip, Hopen in H. by simplify_eq.
  - intros pre e post st1 ev1 Hskip Hopen Hreads Hpre.
    rewrite Hskip, Hopen, Hreads in H.
    erewrite gen_lines_fault in H by exact Hpre. simplify_eq.
    pose proof Hpre as Hself. apply gen_lines_self in Hself.
    pose proof Hpre as Hline. apply gen_lines_line_events in Hline.
    apply gen_lines_next in Hpre as [_ Hd].
    cbn. rewrite Hself. repeat split; try done.
    + rewrite marked_app, (marked_line_events _ Hline). done.
    + unfold dispatched in *. cbn. rewrite List.filter_app, length_app. cbn. lia.
Qed.
End OneFile.

(** The third sample file fails at its second read: one record is emitted,
    the fault is counted once, the line after it is never dispatched and
    the file is not marked. *)
Lemma mark_only_after_full_read_witness :
  let out := gen_file (sample_world running_clock true) sample_extractor None true
               0%Q 3 2 (rel ["data"; "c.jsonl"]) (fresh (sample_builder 100000 ∅)) in
  out.1.1 = Next ∧ total_errors out.1.2 = 1 ∧ marked out.2 = [] ∧
  dispatched out.2 = 1%nat ∧ _processed_files (self out.1.2) = ∅.
Proof.
  intros out. destruct out as [[fl st'] evs] eqn:E. subst out.
  pose proof E as H. apply mark_only_after_full_read in H as (_ & _ & H).
  eassert (E1 : gen_lines (sample_world running_clock true) sample_extractor None
                  0%Q 3 2 [Ok "{}"] (fresh (sample_builder 100000 ∅)) = (Next, _, _))
    by (vm_compute; reflexivity).
  edestruct (H [Ok "{}"] OSError [Ok "{}"]) as (Hfl & Herr & _ & Hp & _ & Hm & Hd);
    [vm_compute; reflexivity | vm_compute; reflexivity | vm_compute; reflexivity
    | exact E1 |].
  cbn [fst snd]. repeat split; [exact Hfl | rewrite Herr; reflexivity | exact Hm
                               | exact Hd | rewrite Hp; reflexivity].
Defined.

(** ** The file loop *)

Section FileLoop.
Context (w : world) (extractor : json → result (option record)).
Context (test_limit : option Z) (resume : bool) (start_time : Q).

Lemma opened_app evs1 evs2 : opened (evs1 ++ evs2) = opened evs1 ++ opened evs2.
Proof. unfold opened. by rewrite omap_app. Qed.

Lemma opened_line_events evs : forallb is_line_event evs = true → opened evs = [].
Proof.
  induction evs as [|ev evs IH]; [done|].
  cbn. intros [Hev Hevs]%andb_prop. destruct ev; try done; by apply IH.
Qed.

Lemma marked_open k evs : marked (EvOpen k :: evs) = marked evs.
Proof. done. Qed.

Lemma opened_open k evs : opened (EvOpen k :: evs) = k :: opened evs.
Proof. done. Qed.

Lemma gen_open_spec nfiles idx key st fl st' evs :
  gen_open w extractor test_limit start_time nfiles idx key st = (fl, st', evs) →
  self st' = self st ∧
  ∃ body, evs = EvOpen key :: body ∧ forallb is_line_event body = true.
Proof.
  unfold gen_open. intros H. destruct (f_open _).
  - simplify_eq. eauto.
  - destruct (gen_lines _ _ _ _ _ _ _ _) as [[fl1 st1] ev1] eqn:E1. simplify_eq.
    split; [by eapply gen_lines_self|].
    eexists; split; [done|]. by eapply gen_lines_line_events.
Qed.

(** What one turn of the file loop does to the set of processed files and
    which file it opens. *)
Lemma gen_file_spec nfiles idx filepath st fl st' evs :
  gen_file w extractor test_limit resume start_time nfiles idx filepath st
    = (fl, st', evs) →
  _processed_files (self st')
    = list_to_set (KStr <$> marked evs) ∪ _processed_files (self st) ∧
  (skipped resume filepath st = true → st' = st ∧ evs = [] ∧ fl = Next) ∧
  (skipped resume filepath st = false → opened evs = [path_str filepath]).
Proof.
  unfold gen_file, skipped. intros H.
  destruct (resume && _) eqn:Hskip.
  { simplify_eq. cbn. split; [set_solver|]. by split. }
  split; [|split; [done|intros _]];
    destruct (gen_open _ _ _ _ _ _ _ _) as [[fl1 st1] ev1] eqn:E1;
    apply gen_open_spec in E1 as (Hself & body & -> & Hline);
    pose proof (marked_line_events _ Hline) as Hm;
    pose proof (opened_line_events _ Hline) as Ho;
    destruct fl1.
  - apply mark_complete_spec in H as (Hp & _ & _ & _ & _ & tail & -> & Htail).
    rewrite Hp, Hself, <- app_comm_cons, marked_open, marked_app, Hm.
    destruct Htail as [->|[s ->]]; cbn; set_solver.
  - simplify_eq. rewrite marked_open, Hm, Hself. cbn. set_solver.
  - simplify_eq. rewrite <- app_comm_cons, marked_open, marked_app, Hm.
    cbn. rewrite Hself. set_solver.
  - apply mark_complete_spec in H as (_ & _ & _ & _ & _ & tail & -> & Htail).
    rewrite <- app_comm_cons, opened_open, opened_app, Ho.
    destruct Htail as [->|[s ->]]; done.
  - simplify_eq. by rewrite opened_open, Ho.
  - simplify_eq. by rewrite <- app_comm_cons, opened_open, opened_app, Ho.
Qed.

Lemma gen_files_processed nfiles idx files st fl st' evs :
  gen_files w extractor test_limit resume start_time nfiles idx files st
    = (fl, st', evs) →
  _processed_files (self st')
    = list_to_set (KStr <$> marked evs) ∪ _processed_files (self st).
Proof.
  revert idx st fl st' evs.
  induction files as [|filepath files IH]; intros idx st fl st' evs H.
  - simplify_eq/=. set_solver.
  - cbn in H. destruct (gen_file _ _ _ _ _ _ _ _ _) as [[fl1 st1] ev1] eqn:E1.
    apply gen_file_spec in E1 as (Hp1 & _ & _). destruct fl1.
    + destruct (gen_files _ _ _ _ _ _ _ _ _) as [[fl2 st2] ev2] eqn:E2.
      apply IH in E2. simplify_eq.
      rewrite marked_app, fmap_app, list_to_set_app_L, E2, Hp1. set_solver.
    + by simplify_eq.
    + by simplify_eq.
Qed.

(** With [resume] on, a file is opened only if it was not in the set of
    processed files when the run started. *)
Lemma gen_files_opened_fresh nfiles idx files st fl st' evs :
  resume = true →
  gen_files w extractor test_limit resume start_time nfiles idx files st
    = (fl, st', evs) →
  ∀ k, k ∈ opened evs → KStr k ∉ _processed_files (self st).
Proof.
  intros Hres. revert idx st fl st' evs.
  induction files as [|filepath files IH]; intros idx st fl st' evs H k Hk.
  - simplify_eq/=. by apply elem_of_nil in Hk.
  - cbn in H. destruct (gen_file _ _ _ _ _ _ _ _ _) as [[fl1 st1] ev1] eqn:E1.
    apply gen_file_spec in E1 as (Hp1 & Hskip & Hopen).
    assert (k ∈ opened ev1 → KStr k ∉ _processed_files (self st)) as Hfirst.
    { destruct (skipped resume filepath st) eqn:Hs.
      - destruct (Hskip eq_refl) as (_ & -> & _). by intros ?%elem_of_nil.
      - rewrite (Hopen eq_refl). intros ->%list_elem_of_singleton.
        unfold skipped in Hs. rewrite Hres in Hs. cbn in Hs.
        by apply bool_decide_eq_false in Hs. }
    destruct fl1; [|simplify_eq; auto..].
    destruct (gen_files _ _ _ _ _ _ _ _ _) as [[fl2 st2] ev2] eqn:E2. simplify_eq.
    rewrite opened_app, elem_of_app in Hk. destruct Hk as [Hk|Hk]; [auto|].
    pose proof (IH _ _ _ _ _ E2 k Hk) as Hnot. set_solver.
Qed.
End FileLoop.

(** C2.  A run with [resume] on opens only files that were not in the set
    of processed files at its start.  For a file in that set, its turn of
    the file loop leaves every counter and the builder as they are and
    produces no event: nothing is emitted, nothing counted, the file is not
    opened. *)
Theorem resume_skips_processed w extractor test_limit start_time this files fl st' evs :
  generate_actions w extractor test_limit true start_time files (fresh this)
    = (fl, st', evs) →
  (∀ k, k ∈ opened evs → KStr k ∉ _processed_files this) ∧
  (∀ filepath, KStr (path_str filepath) ∈ _processed_files this →
     (path_str filepath ∉ opened evs) ∧
     (∀ nfiles idx st, _processed_files this ⊆ _processed_files (self st) →
        gen_file w extractor test_limit true start_time nfiles idx filepath st
          = (Next, st, []))).
Proof.
  intros H. unfold generate_actions in H.
  pose proof (gen_files_opened_fresh w extractor test_limit true start_time
                (length files) 0 files (fresh this) fl st' evs eq_refl H) as Hfresh.
  split; [exact Hfresh|]. intros filepath Hin. split.
  - intros Hopen. by apply Hfresh in Hopen.
  - intros nfiles idx st Hsub. unfold gen_file.
    rewrite bool_decide_eq_true_2; [done|]. by apply Hsub.
Qed.

(** A resumed run over the first two sample files, the first of them
    already processed: only the second is opened. *)
Lemma resume_skips_processed_witness :
  let this := sample_builder 100000 {[ KStr "data/a.jsonl" ]} in
  let files := [rel ["data"; "a.jsonl"]; rel ["data"; "b.jsonl"]] in
  let out := generate_actions (sample_world running_clock true) sample_extractor
               None true 0%Q files (fresh this) in
  ("data/a.jsonl" ∉ opened out.2) ∧
  gen_file (sample_world running_clock true) sample_extractor None true 0%Q
    2 0 (rel ["data"; "a.jsonl"]) (fresh this) = (Next, fresh this, []).
Proof.
  intros this files out. destruct out as [[fl st'] evs] eqn:E. subst out.
  pose proof E as H. apply resume_skips_processed in H as [_ H].
  destruct (H (rel ["data"; "a.jsonl"])) as [Hopen Hstep].
  { apply (bool_decide_unpack _). vm_compute. exact I. }
  split; [exact Hopen|]. apply Hstep. reflexivity.
Defined.

(** ** The record limit *)

Section Limit.
Context (w : world) (extractor : json → result (option record)).
Context (K : Z) (resume : bool) (start_time : Q) (from : nat) (interval : Z).
Context (HK : 1 ≤ K) (Hsafe : reports_safe w start_time from interval).

Lemma yielded_app evs1 evs2 : yielded (evs1 ++ evs2) = yielded evs1 ++ yielded evs2.
Proof. unfold yielded. by rewrite omap_app. Qed.

Lemma advances_refl st : advances st st [].
Proof. unfold advances. cbn. repeat split; lia. Qed.

Lemma advances_trans st st1 st2 ev1 ev2 :
  advances st st1 ev1 → advances st1 st2 ev2 → advances st st2 (ev1 ++ ev2).
Proof.
  unfold advances. intros (? & ? & ?) (? & ? & ?).
  rewrite yielded_app, length_app. repeat split; [lia|congruence|lia].
Qed.

Lemma gen_line_limit nfiles idx line st fl st' evs :
  (from ≤ ticks st)%nat → progress_interval (self st) = interval →
  total_records st < K →
  gen_line w extractor (Some K) start_time nfiles idx line st = (fl, st', evs) →
  advances st st' evs ∧
  match fl with
  | Stop => total_records st' = K ∧
            ∃ a tail, evs = EvYield a :: tail ∧ (tail = [] ∨ ∃ r, tail = [EvReport r])
  | _ => total_records st' < K
  end.
Proof.
  intros Hfrom Hint Hlt H. destruct Hsafe as [Hne Hclk].
  specialize (Hclk (ticks st) Hfrom).
  unfold advances. line_cases.
  all: try (rewrite Z.eqb_eq in *; congruence).
  all: try congruence.
  all: repeat match goal with
       | H : _ && _ = true |- _ => apply andb_prop in H as [? ?]
       | H : _ && _ = false |- _ => apply andb_false_iff in H
       | H : negb _ = true |- _ => apply negb_true_iff in H
       | H : negb _ = false |- _ => apply negb_false_iff in H
       | H : (_ =? _) = true |- _ => apply Z.eqb_eq in H
       | H : (_ =? _) = false |- _ => apply Z.eqb_neq in H
       | H : (_ >=? _) = true |- _ => rewrite Z.geb_leb in H; apply Z.leb_le in H
       | H : (_ >=? _) = false |- _ => rewrite Z.geb_leb in H; apply Z.leb_gt in H
       end.
  all: repeat split; eauto 10; lia.
Qed.

Lemma gen_lines_limit nfiles idx reads st fl st' evs :
  (from ≤ ticks st)%nat → progress_interval (self st) = interval →
  total_records st < K →
  gen_lines w extractor (Some K) start_time nfiles idx reads st = (fl, st', evs) →
  advances st st' evs ∧
  match fl with
  | Stop => total_records st' = K ∧ cut_short evs
  | _ => total_records st' < K
  end.
Proof.
  revert st fl st' evs.
  induction reads as [|[line|e] reads IH]; intros st fl st' evs Hfrom Hint Hlt H.
  - simplify_eq/=. split; [apply advances_refl|done].
  - cbn in H. destruct (gen_line _ _ _ _ _ _ _ _) as [[fl1 st1] ev1] eqn:E1.
    pose proof E1 as Hline. apply gen_line_line_events in Hline.
    apply gen_line_limit in E1 as [Hadv Hfl]; [|done..].
    destruct fl1.
    + destruct (gen_lines _ _ _ _ _ _ _ _) as [[fl2 st2] ev2] eqn:E2. simplify_eq.
      apply IH in E2 as [Hadv2 Hfl2];
        [|destruct Hadv as (? & ? & ?); first [lia|congruence|done]..].
      split; [by eapply advances_trans|].
      destruct fl; try done. destruct Hfl2 as [? (body & a & tail & -> & ? & ?)].
      split; [done|]. exists (ev1 ++ body), a, tail.
      rewrite <- app_assoc, forallb_app, Hline. done.
    + simplify_eq. split; [done|]. destruct Hfl as [? (a & tail & -> & ?)].
      split; [done|]. by exists [], a, tail.
    + by simplify_eq.
  - simplify_eq/=. split; [apply advances_refl|done].
Qed.

Lemma mark_complete_advances key st evs fl st' evs' :
  mark_complete w key st evs = (fl, st', evs') →
  progress_interval (self st') = progress_interval (self st) ∧
  yielded evs' = yielded evs.
Proof.
  unfold mark_complete, _save_progress, client_index. intros H.
  repeat case_match; simplify_eq/=; rewrite yielded_app, app_nil_r; done.
Qed.

Lemma gen_file_limit nfiles idx filepath st fl st' evs :
  (from ≤ ticks st)%nat → progress_interval (self st) = interval →
  total_records st < K →
  gen_file w extractor (Some K) resume start_time nfiles idx filepath st
    = (fl, st', evs) →
  advances st st' evs ∧
  match fl with
  | Stop => total_records st' = K ∧
            ∃ body, evs = EvOpen (path_str filepath) :: body ∧ cut_short body
  | _ => total_records st' < K
  end.
Proof.
  intros Hfrom Hint Hlt H. unfold gen_file, gen_open in H.
  destruct (resume && _).
  { simplify_eq. split; [apply advances_refl|done]. }
  destruct (f_open _).
  { simplify_eq. split; [|done]. unfold advances. cbn. repeat split; lia. }
  destruct (gen_lines _ _ _ _ _ _ _ _) as [[fl1 st1] ev1] eqn:E1.
  apply gen_lines_limit in E1 as [(Ht & Hi & Hr) Hfl]; [|done..].
  unfold advances. destruct fl1.
  - pose proof (mark_complete_advances _ _ _ _ _ _ H) as [Hi' Hy].
    apply mark_complete_spec in H as (_ & Hr' & _ & Ht' & Hstop & _).
    rewrite Hy, Hi', Hr', Ht'. cbn. split; [done|]. by destruct fl.
  - simplify_eq. cbn. split; [done|]. destruct Hfl as [? ?]. eauto.
  - simplify_eq. cbn. rewrite yielded_app, app_nil_r. done.
Qed.

Lemma gen_files_limit nfiles idx files st fl st' evs :
  (from ≤ ticks st)%nat → progress_interval (self st) = interval →
  total_records st < K →
  gen_files w extractor (Some K) resume start_time nfiles idx files st
    = (fl, st', evs) →
  advances st st' evs ∧
  match fl with
  | Stop => total_records st' = K ∧
            ∃ pre key body, evs = pre ++ EvOpen key :: body ∧ cut_short body
  | _ => total_records st' < K
  end.
Proof.
  revert idx st fl st' evs.
  induction files as [|filepath files IH]; intros idx st fl st' evs Hfrom Hint Hlt H.
  - simplify_eq/=. split; [apply advances_refl|done].
  - cbn in H. destruct (gen_file _ _ _ _ _ _ _ _ _) as [[fl1 st1] ev1] eqn:E1.
    apply gen_file_limit in E1 as [Hadv Hfl]; [|done..].
    destruct fl1.
    + destruct (gen_files _ _ _ _ _ _ _ _ _) as [[fl2 st2] ev2] eqn:E2. simplify_eq.
      apply IH in E2 as [Hadv2 Hfl2];
        [|destruct Hadv as (? & ? & ?); first [lia|congruence|done]..].
      split; [by eapply advances_trans|].
      destruct fl; try done. destruct Hfl2 as [? (pre & key & body & -> & ?)].
      split; [done|]. exists (ev1 ++ pre), key, body. by rewrite <- app_assoc.
    + simplify_eq. split; [done|]. destruct Hfl as [? (body & -> & ?)].
      split; [done|]. by exists [], (path_str filepath), body.
    + by simplify_eq.
Qed.
End Limit.

Lemma marked_cut_short evs : cut_short evs → marked evs = [].
Proof.
  intros (body & a & tail & -> & Hbody & Htail).
  rewrite marked_app, (marked_line_events _ Hbody).
  destruct Htail as [->|[r ->]]; done.
Qed.

(** C3, as amended.  With a limit [K ≥ 1], and as long as the progress
    report cannot fault, the generator emits as many records as its counter
    says and never more than [K]; it returns exactly when the counter
    reaches [K]; and when it returns, the last file opened is cut short:
    after the last record emitted comes at most the progress line printed
    for it, and the file is not marked, the set of processed files holding
    only the files completed before it. *)
Theorem limit_enforced w extractor K resume start_time this files fl st' evs :
  1 ≤ K →
  reports_safe w start_time 1 (progress_interval this) →
  generate_actions w extractor (Some K) resume start_time files (fresh this)
    = (fl, st', evs) →
  Z.of_nat (length (yielded evs)) = total_records st' ∧
  total_records st' ≤ K ∧
  (fl = Stop ↔ total_records st' = K) ∧
  (fl = Stop →
     ∃ pre key body,
       evs = pre ++ EvOpen key :: body ∧ cut_short body ∧
       _processed_files (self st')
         = list_to_set (KStr <$> marked pre) ∪ _processed_files this).
Proof.
  intros HK Hsafe H. unfold generate_actions in H.
  pose proof H as Hp. apply gen_files_processed in Hp.
  eapply gen_files_limit in H as [(_ & _ & Hr) Hfl]; [|done..|cbn; lia].
  cbn in Hr. repeat split.
  - lia.
  - destruct fl; lia.
  - intros ->. by destruct Hfl.
  - intros Heq. destruct fl; [lia|done|lia].
  - intros ->. destruct Hfl as [_ (pre & key & body & -> & Hcut)].
    exists pre, key, body. split; [done|]. split; [done|].
    rewrite Hp, marked_app, marked_open, (marked_cut_short _ Hcut), app_nil_r.
    done.
Qed.

(** The running clock has left the start time at every later reading. *)
Lemma running_clock_safe ok interval :
  interval ≠ 0 → reports_safe (sample_world running_clock ok) 0 1 interval.
Proof.
  intros Hne. split; [done|]. intros n Hn. cbn. unfold running_clock.
  destruct (Qeq_bool _ _) eqn:E; [|done].
  apply Qeq_bool_eq in E. unfold Qeq in E. cbn in E. lia.
Qed.

(** A limit of three over the two sample files: three records are emitted
    and no more. *)
Lemma limit_enforced_witness :
  let out := generate_actions (sample_world running_clock true) sample_extractor
               (Some 3) true 0%Q [rel ["data"; "b.jsonl"]; rel ["data"; "a.jsonl"]]
               (fresh (sample_builder 2 ∅)) in
  Z.of_nat (length (yielded out.2)) ≤ 3.
Proof.
  intros out. destruct out as [[fl st'] evs] eqn:E. subst out.
  edestruct (limit_enforced (sample_world running_clock true) sample_extractor 3
               true 0%Q (sample_builder 2 ∅)) as (Hlen & Hle & _);
    [lia | apply running_clock_safe; cbn; lia | exact E |].
  cbn [snd]. rewrite Hlen. exact Hle.
Defined.

(** Why the amended claim asks for a report that cannot fault: with a
    frozen clock the division of the progress line faults after the first
    record, the handler of the file skips the limit test, and the next file
    emits a second record under a limit of one. *)
Example limit_bypassed_by_report_fault :
  let out := generate_actions (sample_world frozen_clock true) sample_extractor
               (Some 1) true 0%Q [rel ["data"; "b.jsonl"]; rel ["data"; "a.jsonl"]]
               (fresh (sample_builder 1 ∅)) in
  length (yielded out.2) = 2%nat ∧ total_errors out.1.2 = 2.
Proof. cbv zeta. split; vm_compute; reflexivity. Qed.

(** C3 as stated fails for a limit of zero: [test_limit and ...] is false
    for [0], so no limit is in force and both records of the file are
    emitted. *)
Lemma limit_zero_counterexample :
  let out := generate_actions (sample_world running_clock true) sample_extractor
               (Some 0) true 0%Q [rel ["data"; "b.jsonl"]]
               (fresh (sample_builder 100000 ∅)) in
  length (yielded out.2) = 2%nat ∧ ¬ (Z.of_nat (length (yielded out.2)) ≤ 0).
Proof.
  assert (length (yielded (generate_actions (sample_world running_clock true)
            sample_extractor (Some 0) true 0%Q [rel ["data"; "b.jsonl"]]
            (fresh (sample_builder 100000 ∅))).2) = 2%nat) as E
    by (vm_compute; reflexivity).
  cbv zeta. rewrite E. split; [done|lia].
Qed.

(** ** Files read to the end *)

Section Scenario.
Context (w : world) (extractor : json → result (option record)).
Context (test_limit : option Z) (resume : bool) (start_time : Q) (nfiles : nat).
Context (from : nat) (interval : Z) (Hsafe : reports_safe w start_time from interval).

Local Abbreviation valid := (is_valid w extractor).
Local Abbreviation malformed := (is_malformed w).
Local Abbreviation rejected := (is_rejected w extractor).
Local Abbreviation count P l := (Z.of_nat (length (List.filter P l))).

Lemma gen_line_malformed idx line st :
  malformed line = true →
  gen_line w extractor test_limit start_time nfiles idx line st
    = (Next, incr_errors st, [EvLineError]).
Proof.
  unfold is_malformed, gen_line, on_line_exn. intros H.
  destruct (json_loads w line); [done|]. by rewrite H.
Qed.

Lemma gen_line_rejected idx line st :
  rejected line = true →
  gen_line w extractor test_limit start_time nfiles idx line st
    = (Next, st, [EvNoRecord]).
Proof.
  unfold is_rejected, gen_line. intros H.
  destruct (json_loads w line); [|done].
  destruct (extractor a) as [[r|]|]; done.
Qed.

Lemma gen_line_valid idx line st fl st' evs :
  valid line = true →
  (from ≤ ticks st)%nat → progress_interval (self st) = interval →
  limit_beyond test_limit st 1 →
  gen_line w extractor test_limit start_time nfiles idx line st = (fl, st', evs) →
  fl = Next ∧ advances st st' evs ∧ length (yielded evs) = 1%nat ∧
  total_errors st' = total_errors st ∧ self st' = self st.
Proof.
  intros Hv Hfrom Hint Hlim H. destruct Hsafe as [Hne Hclk].
  specialize (Hclk (ticks st) Hfrom).
  unfold is_valid, limit_beyond, advances in *. line_cases.
  all: try (rewrite Z.eqb_eq in *; congruence).
  all: try congruence.
  all: repeat match goal with
       | H : _ && _ = true |- _ => apply andb_prop in H as [? ?]
       | H : negb _ = true |- _ => apply negb_true_iff in H
       | H : (_ =? _) = true |- _ => apply Z.eqb_eq in H
       | H : (_ =? _) = false |- _ => apply Z.eqb_neq in H
       | H : (_ >=? _) = true |- _ => rewrite Z.geb_leb in H; apply Z.leb_le in H
       end.
  all: try lia.
  all: repeat split; try done; lia.
Qed.

(** A file whose lines each yield a record, fail to parse, or are turned
    down by the extractor, read with no limit within reach: the loop runs
    off the end, having emitted one record per valid line and counted one
    error per malformed line. *)
Lemma gen_lines_scenario idx lines st fl st' evs :
  Forall (λ l, valid l || malformed l || rejected l = true) lines →
  (from ≤ ticks st)%nat → progress_interval (self st) = interval →
  limit_beyond test_limit st (count valid lines) →
  gen_lines w extractor test_limit start_time nfiles idx (Ok <$> lines) st
    = (fl, st', evs) →
  fl = Next ∧
  Z.of_nat (length (yielded evs)) = count valid lines ∧
  total_records st' = total_records st + count valid lines ∧
  total_errors st' = total_errors st + count malformed lines.
Proof.
  revert st fl st' evs.
  induction lines as [|line lines IH]; intros st fl st' evs Hall Hfrom Hint Hlim H.
  - simplify_eq/=. repeat split; lia.
  - apply Forall_cons in Hall as [Hkind Hall]. cbn [fmap list_fmap] in H.
    cbn [gen_lines] in H. cbn [List.filter] in Hlim |- *.
    destruct (valid line) eqn:Hv; [|destruct (malformed line) eqn:Hm].
    + assert (malformed line = false) as ->.
      { unfold is_valid, is_malformed in *. by destruct (json_loads w line). }
      destruct (gen_line _ _ _ _ _ _ _ _) as [[fl1 st1] ev1] eqn:E1.
      apply gen_line_valid in E1 as (-> & (Ht & Hi & Hr) & Hy & He & Hs); try done.
      2:{ unfold limit_beyond in *. destruct test_limit; [|done].
          cbn [length] in Hlim. lia. }
      destruct (gen_lines _ _ _ _ _ _ _ _) as [[fl2 st2] ev2] eqn:E2. simplify_eq.
      apply IH in E2 as (-> & Hy2 & Hr2 & He2); try done; try lia; try congruence.
      2:{ unfold limit_beyond in *. destruct test_limit; [|done].
          cbn [length] in Hlim. lia. }
      rewrite yielded_app, length_app. cbn [length]. repeat split; lia.
    + rewrite (gen_line_malformed _ _ _ Hm) in H.
      destruct (gen_lines _ _ _ _ _ _ _ _) as [[fl2 st2] ev2] eqn:E2. simplify_eq.
      apply IH in E2 as (-> & Hy2 & Hr2 & He2); [|done..].
      cbn [length] in *. change (yielded ([EvLineError] ++ ev2)) with (yielded ev2).
      cbn in He2, Hr2. repeat split; lia.
    + cbn in Hkind. rewrite (gen_line_rejected _ _ _ Hkind) in H.
      destruct (gen_lines _ _ _ _ _ _ _ _) as [[fl2 st2] ev2] eqn:E2. simplify_eq.
      apply IH in E2 as (-> & Hy2 & Hr2 & He2); [|done..].
      change (yielded ([EvNoRecord] ++ ev2)) with (yielded ev2).
      repeat split; lia.
Qed.

Lemma gen_file_scenario idx filepath lines st fl st' evs :
  skipped resume filepath st = false →
  disk w (path_str filepath) = file_of_lines lines →
  Forall (λ l, valid l || malformed l || rejected l = true) lines →
  (from ≤ ticks st)%nat → progress_interval (self st) = interval →
  limit_beyond test_limit st (count valid lines) →
  gen_file w extractor test_limit resume start_time nfiles idx filepath st
    = (fl, st', evs) →
  Z.of_nat (length (yielded evs)) = count valid lines ∧
  total_records st' = total_records st + count valid lines ∧
  total_errors st' = total_errors st + count malformed lines ∧
  KStr (path_str filepath) ∈ _processed_files (self st') ∧
  path_str filepath ∈ marked evs.
Proof.
  intros Hskip Hdisk Hall Hfrom Hint Hlim H.
  unfold gen_file, gen_open, skipped in *. rewrite Hskip, Hdisk in H. cbn in H.
  destruct (gen_lines _ _ _ _ _ _ _ _) as [[fl1 st1] ev1] eqn:E1.
  apply gen_lines_scenario in E1 as (-> & Hy & Hr & He); try done.
  pose proof (mark_complete_advances _ _ _ _ _ _ _ H) as [_ Hy'].
  apply mark_complete_spec in H as (Hp & Hr' & He' & _ & _ & tail & -> & _).
  rewrite Hy', Hp, Hr', He', marked_app. cbn.
  repeat split; [done..|set_solver|set_solver].
Qed.
End Scenario.

(** C4, as amended.  A line that fails to parse as JSON adds exactly one
    to the error counter and the loop goes on with the lines after it.  A
    file that is read to the end, its lines either yielding a record or
    failing to parse, with no limit within reach and a progress report
    that cannot fault, has one record emitted per valid line, one error
    counted per malformed line, and is marked processed: ten and two for
    ten valid and two malformed lines. *)
Theorem malformed_lines_counted w extractor test_limit resume start_time nfiles idx :
  (∀ line rest st,
     is_malformed w line = true →
     gen_lines w extractor test_limit start_time nfiles idx (Ok line :: rest) st
       = let '(fl, st', evs) :=
           gen_lines w extractor test_limit start_time nfiles idx rest (incr_errors st) in
         (fl, st', EvLineError :: evs))
  ∧
  (∀ filepath lines st fl st' evs,
     skipped resume filepath st = false →
     disk w (path_str filepath) = file_of_lines lines →
     Forall (λ l, is_valid w extractor l || is_malformed w l = true) lines →
     reports_safe w start_time (ticks st) (progress_interval (self st)) →
     limit_beyond test_limit st
       (Z.of_nat (length (List.filter (is_valid w extractor) lines))) →
     gen_file w extractor test_limit resume start_time nfiles idx filepath st
       = (fl, st', evs) →
     Z.of_nat (length (yielded evs))
       = Z.of_nat (length (List.filter (is_valid w extractor) lines)) ∧
     total_errors st'
       = total_errors st + Z.of_nat (length (List.filter (is_malformed w) lines)) ∧
     KStr (path_str filepath) ∈ _processed_files (self st')).
Proof.
  split.
  - intros line rest st Hm. cbn [gen_lines].
    rewrite (gen_line_malformed _ _ _ _ _ _ _ _ Hm).
    by destruct (gen_lines _ _ _ _ _ _ _ _) as [[fl st'] evs].
  - intros filepath lines st fl st' evs Hskip Hdisk Hall Hsafe Hlim H.
    eapply gen_file_scenario in H as (Hy & _ & He & Hp & _); try done.
    eapply Forall_impl; [exact Hall|]. cbn. intros l ->. done.
Qed.

(** The first sample file: ten records emitted, two errors counted, the
    file marked. *)
Lemma malformed_lines_counted_witness :
  let out := gen_file (sample_world running_clock true) sample_extractor None true
               0%Q 1 0 (rel ["data"; "a.jsonl"]) (fresh (sample_builder 100000 ∅)) in
  Z.of_nat (length (yielded out.2)) = 10 ∧ total_errors out.1.2 = 2 ∧
  KStr "data/a.jsonl" ∈ _processed_files (self out.1.2).
Proof.
  intros out. destruct out as [[fl st'] evs] eqn:E. subst out.
  destruct (malformed_lines_counted (sample_world running_clock true)
              sample_extractor None true 0%Q 1 0) as [_ H].
  edestruct (H (rel ["data"; "a.jsonl"])) as (Hy & He & Hp);
    [| reflexivity | | | | exact E |].
  - vm_compute. reflexivity.
  - repeat (constructor; [vm_compute; reflexivity|]). constructor.
  - apply running_clock_safe. cbn. lia.
  - exact I.
  - cbn [fst snd]. split; [exact Hy|]. split; [exact He|exact Hp].
Defined.

(** C4 as stated fails when the file is not read to the end.  The first
    sample file has ten valid and two malformed lines.  With a record
    limit of five the stream stops inside it: five operations, one error,
    the file not marked.  With a progress interval of zero the progress
    test faults at the first record and the file is abandoned: one
    operation, one error, the file not marked. *)
Lemma malformed_scenario_counterexample :
  let w := sample_world running_clock true in
  let lines := ["{}"; "{}"; "oops"; "{}"; "{}"; "{}"; "{}"; "{"; "{}"; "{}"; "{}"; "{}"] in
  let limited := gen_file w sample_extractor (Some 5) true 0%Q 1 0
                   (rel ["data"; "a.jsonl"]) (fresh (sample_builder 100000 ∅)) in
  let faulted := gen_file w sample_extractor None true 0%Q 1 0
                   (rel ["data"; "a.jsonl"]) (fresh (sample_builder 0 ∅)) in
  (disk w "data/a.jsonl" = file_of_lines lines ∧
   length (List.filter (is_valid w sample_extractor) lines) = 10%nat ∧
   length (List.filter (is_malformed w) lines) = 2%nat) ∧
  (limited.1.1 = Stop ∧
   length (yielded limited.2) = 5%nat ∧ total_errors limited.1.2 = 1 ∧
   bool_decide (KStr "data/a.jsonl" ∈ _processed_files (self limited.1.2)) = false) ∧
  (length (yielded faulted.2) = 1%nat ∧ total_errors faulted.1.2 = 1 ∧
   bool_decide (KStr "data/a.jsonl" ∈ _processed_files (self faulted.1.2)) = false).
Proof. cbv zeta. repeat split; vm_compute; reflexivity. Qed.

Section Raising.
Context (w : world) (extractor : json → result (option record)).
Context (test_limit : option Z) (resume : bool) (start_time : Q) (nfiles : nat).



End Raising.




(** ** The whole run *)

Lemma count_failures_spec results st :
  total_errors (count_failures results st)
    = total_errors st + Z.of_nat (length (List.filter (λ r, negb r.1) results)) ∧
  total_records (count_failures results st) = total_records st ∧
  ticks (count_failures results st) = ticks st ∧
  self (count_failures results st) = self st.
Proof.
  revert st. induction results as [|[[] a] results IH]; intros st; cbn.
  - repeat split; lia.
  - apply IH.
  - destruct (IH (incr_errors st)) as (-> & -> & -> & ->). cbn. repeat split; lia.
Qed.

Lemma failures_of_stream w (actions : list action) :
  length (List.filter (λ r : bool * action, negb r.1) ((λ a, (item_ok w a, a)) <$> actions))
    = length (List.filter (λ a, negb (item_ok w a)) actions).
Proof.
  induction actions as [|a actions IH]; [done|].
  cbn. destruct (item_ok w a); cbn; by rewrite IH.
Qed.

Lemma save_progress_spec w this this' :
  _save_progress w this = Ok this' →
  _processed_files this' = _processed_files this.
Proof.
  unfold _save_progress, client_index. destruct (b_up _); [|done].
  cbn. by intros [= <-].
Qed.

(** What a run that returns is made of: the generator did not raise, the
    returned counters are those it left, plus, in parallel mode only, one
    error per write operation the backend turned down. *)
Lemma ingest_inv w this files extractor test_limit resume parallel r :
  ingest w this files extractor test_limit resume parallel = Ok r →
  ∃ fl st1,
    generate_actions w extractor test_limit resume (clock w 0) files (fresh this)
      = (fl, st1, run_events r) ∧
    (∀ e, fl ≠ Throw e) ∧
    s_total_records (run_stats r) = total_records st1 ∧
    s_total_errors (run_stats r)
      = total_errors st1 +
        (if parallel
         then Z.of_nat (length (List.filter (λ a, negb (item_ok w a))
                                            (yielded (run_events r))))
         else 0) ∧
    _processed_files (run_self r) = _processed_files (self st1) ∧
    s_files_processed (run_stats r) = size (_processed_files (run_self r)).
Proof.
  unfold ingest. intros H.
  destruct (if parallel then thread_pool (thread_count this) else Ok ())
    as [[]|] eqn:Hpool; [|done].
  cbn [mbind result_bind] in H.
  assert (parallel = true → thread_pool (thread_count this) = Ok ()) as Hp
    by (by intros ->).
  clear Hpool.
  destruct (generate_actions _ _ _ _ _ _ _) as [[fl st1] evs] eqn:E.
  exists fl, st1.
  assert (∀ e, fl ≠ Throw e) as Hfl by (intros e ->; done).
  assert (∃ st2,
    (if parallel
     then results ← parallel_bulk w (_client (self st1)) (thread_count this) (yielded evs);
          Ok (count_failures results st1)
     else _ ← bulk w (_client (self st1)) (yielded evs); Ok st1) = Ok st2 ∧
    (this' ← _save_progress w (self st2);
     _ ← request (_client this') ();
     rate ← rate_per_second (total_records st2) (clock w (ticks st2) - clock w 0);
     Ok {| run_stats :=
             {| s_total_records := total_records st2;
                s_total_errors := total_errors st2;
                s_elapsed_seconds := (clock w (ticks st2) - clock w 0)%Q;
                s_elapsed_hours := ((clock w (ticks st2) - clock w 0) / 3600)%Q;
                s_rate_per_second := rate;
                s_files_processed := size (_processed_files this') |};
           run_self := this'; run_events := evs |}) = Ok r) as (st2 & Hsub & Hrest).
  { destruct fl; try done;
      (destruct (if parallel then _ else _) as [st2|] eqn:E2; [|done]);
      by exists st2. }
  clear H.
  destruct (_save_progress w (self st2)) as [this'|] eqn:Hsave; [|done].
  apply save_progress_spec in Hsave. cbn in Hrest.
  destruct (request _ _); [|done]. cbn in Hrest.
  destruct (rate_per_second _ _); [|done]. cbn in Hrest. simplify_eq. cbn.
  assert (total_records st2 = total_records st1 ∧ self st2 = self st1 ∧
          total_errors st2 = total_errors st1 +
            (if parallel
             then Z.of_nat (length (List.filter (λ a, negb (item_ok w a)) (yielded evs)))
             else 0)) as (-> & Hs & ->).
  { destruct parallel.
    - unfold parallel_bulk, request in Hsub. rewrite (Hp eq_refl) in Hsub.
      cbn [mbind result_bind] in Hsub.
      destruct (yielded evs) as [|act acts] eqn:Hy.
      + cbn in Hsub. simplify_eq. cbn. repeat split; lia.
      + destruct (b_up _); [|done].
        assert (st2 = count_failures ((λ a, (item_ok w a, a)) <$> (act :: acts)) st1)
          as -> by (by injection Hsub).
        destruct (count_failures_spec ((λ a, (item_ok w a, a)) <$> (act :: acts)) st1)
          as (-> & -> & _ & ->).
        by rewrite failures_of_stream.
    - unfold bulk, request in Hsub. destruct (yielded evs).
      + cbn in Hsub. simplify_eq. repeat split; lia.
      + destruct (b_up _); [|done]. cbn in Hsub. simplify_eq. repeat split; lia. }
  rewrite Hsave, Hs. done.
Qed.

(** In parallel mode every write operation the backend turns down counts
    as one error in the returned statistics. *)
Lemma parallel_failures_counted w this files extractor test_limit resume r :
  ingest w this files extractor test_limit resume true = Ok r →
  ∃ fl st1,
    generate_actions w extractor test_limit resume (clock w 0) files (fresh this)
      = (fl, st1, run_events r) ∧
    s_total_errors (run_stats r)
      = total_errors st1 +
        Z.of_nat (length (List.filter (λ a, negb (item_ok w a)) (yielded (run_events r)))).
Proof.
  intros H. apply ingest_inv in H as (fl & st1 & ? & _ & _ & ? & _). eauto.
Qed.

(** In sequential mode the answer of [bulk] is dropped: the returned error
    count is the generator's, whatever the backend turned down. *)
Lemma sequential_failures_dropped w this files extractor test_limit resume r :
  ingest w this files extractor test_limit resume false = Ok r →
  ∃ fl st1,
    generate_actions w extractor test_limit resume (clock w 0) files (fresh this)
      = (fl, st1, run_events r) ∧
    s_total_errors (run_stats r) = total_errors st1.
Proof.
  intros H. apply ingest_inv in H as (fl & st1 & ? & _ & _ & ? & _).
  exists fl, st1. split; [done|lia].
Qed.

(** C6, at the failing input.  The backend turns down every write; the
    second sample file holds two records.  The parallel run reports two
    errors, the sequential run none, although both went through and the
    same two write operations failed. *)
Theorem sequential_failures_uncounted :
  let w := sample_world running_clock false in
  let this := sample_builder 100000 ∅ in
  let files := [rel ["data"; "b.jsonl"]] in
  ∃ seq par,
    ingest w this files sample_extractor None true false = Ok seq ∧
    ingest w this files sample_extractor None true true = Ok par ∧
    length (List.filter (λ a, negb (item_ok w a)) (yielded (run_events seq))) = 2%nat ∧
    s_total_errors (run_stats seq) = 0 ∧
    s_total_errors (run_stats par) = 2.
Proof.
  cbv zeta. eexists _, _.
  split; [vm_compute; reflexivity|]. split; [vm_compute; reflexivity|].
  repeat split; vm_compute; reflexivity.
Qed.

(** ** Throughput *)

(** The rate of the final statistics is always defined: the quotient for
    a positive elapsed time, zero otherwise. *)
Lemma rate_per_second_total records elapsed :
  ∃ q, rate_per_second records elapsed = Ok q ∧
       ((0 < elapsed)%Q → q = (inject_Z records / elapsed)%Q) ∧
       ((elapsed <= 0)%Q → q = 0%Q).
Proof.
  unfold rate_per_second, py_truediv.
  destruct (Qle_bool elapsed 0) eqn:Hle; cbn.
  - exists 0%Q. split; [done|]. split; [|done].
    intros Hlt. apply Qle_bool_iff in Hle. by apply Qlt_not_le in Hlt.
  - destruct (Qeq_bool elapsed 0) eqn:Heq.
    + apply Qeq_bool_eq in Heq.
      assert (Qle_bool elapsed 0 = true) as Hle'
        by (apply Qle_bool_iff; rewrite Heq; apply Qle_refl).
      congruence.
    + eexists. split; [done|]. split; [done|].
      intros Hle'. apply Qle_bool_iff in Hle'. congruence.
Qed.

Example rate_at_zero_elapsed : rate_per_second 1000 0 = Ok 0%Q.
Proof. reflexivity. Qed.

Example rate_at_ten_seconds :
  ∃ q, rate_per_second 1000 10 = Ok q ∧ (q == 100)%Q.
Proof. eexists. split; [reflexivity|]. reflexivity. Qed.

(** C7, at the failing input.  The reporting interval is one record and
    the clock has not moved since the start of the run.  The rate of the
    progress line is computed as [total_records / elapsed] with no test of
    [elapsed]: the division faults, the fault is taken for an error of the
    file, and the file is abandoned after its first record, unmarked.  The
    rate of the final statistics, which is guarded, is zero for the same
    elapsed time. *)
Theorem progress_rate_faults :
  let w := sample_world frozen_clock true in
  let this := sample_builder 1 ∅ in
  let out := gen_file w sample_extractor None true (clock w 0) 1 0
               (rel ["data"; "b.jsonl"]) (fresh this) in
  py_truediv (inject_Z 1) (clock w 1 - clock w 0) = Raise ZeroDivisionError ∧
  rate_per_second 1 (clock w 1 - clock w 0) = Ok 0%Q ∧
  (gen_line w sample_extractor None (clock w 0) 1 0 "{}" (fresh this)).1.1
    = Throw ZeroDivisionError ∧
  out.1.1 = Next ∧
  total_records out.1.2 = 1 ∧
  total_errors out.1.2 = 1 ∧
  _processed_files (self out.1.2) = ∅ ∧
  List.last out.2 (EvOpen EmptyString) = EvFileError "data/b.jsonl" ZeroDivisionError.
Proof. cbv zeta. repeat split; vm_compute; reflexivity. Qed.

(** ** Files processed *)

(** C10.  The [files_processed] of the returned statistics is the size of
    the whole set of processed files at the end of the run, and that set
    is the set the builder held when the run started, whatever earlier
    runs had put there, together with the files this run marked. *)
Theorem files_processed_counts_whole_set w this files extractor test_limit resume parallel r :
  ingest w this files extractor test_limit resume parallel = Ok r →
  s_files_processed (run_stats r) = size (_processed_files (run_self r)) ∧
  _processed_files (run_self r)
    = list_to_set (KStr <$> marked (run_events r)) ∪ _processed_files this ∧
  _processed_files this ⊆ _processed_files (run_self r).
Proof.
  intros H. apply ingest_inv in H as (fl & st1 & Hgen & _ & _ & _ & Hp & Hsize).
  unfold generate_actions in Hgen. apply gen_files_processed in Hgen.
  cbn in Hgen. rewrite Hsize, Hp, Hgen. split; [done|]. split; [done|set_solver].
Qed.

(** A resumed run over the first two sample files, both processed by an
    earlier run together with a third file: this run marks no file and
    reports three files processed. *)
Lemma files_processed_counts_whole_set_witness :
  let this := sample_builder 100000
                {[ KStr "data/a.jsonl"; KStr "data/b.jsonl"; KStr "old/z.jsonl" ]} in
  ∃ r, ingest (sample_world running_clock true) this
         [rel ["data"; "a.jsonl"]; rel ["data"; "b.jsonl"]]
         sample_extractor None true true = Ok r ∧
       marked (run_events r) = [] ∧
       s_files_processed (run_stats r) = 3%nat.
Proof.
  cbv zeta. eexists. split; [vm_compute; reflexivity|].
  match goal with |- context [marked (run_events ?r)] => set (run := r) end.
  destruct (files_processed_counts_whole_set (sample_world running_clock true)
              (sample_builder 100000
                 {[ KStr "data/a.jsonl"; KStr "data/b.jsonl"; KStr "old/z.jsonl" ]})
              [rel ["data"; "a.jsonl"]; rel ["data"; "b.jsonl"]]
              sample_extractor None true true run) as (Hsize & _ & _).
  { vm_compute. reflexivity. }
  split; [reflexivity|]. rewrite Hsize. vm_compute. reflexivity.
Defined.

(** ** Loading the progress *)

Lemma hash_key_json keys : result_mapM py_hash (key_json <$> keys) = Ok keys.
Proof.
  induction keys as [|k keys IH]; [done|].
  cbn. rewrite IH. by destruct k.
Qed.

Lemma py_set_keys keys : py_set (JArr (key_json <$> keys)) = Ok (list_to_set keys).
Proof. unfold py_set. cbn. by rewrite hash_key_json. Qed.

Lemma load_progress_body_eq w this :
  load_progress_body w this
    = match client_get (_client this) (progress_id this) with
      | Ok doc =>
        match loads_stored w (default (SText "[]") (d_processed_files doc)) with
        | Ok v => py_set v
        | Raise e => Raise e
        end
      | Raise e => Raise e
      end.
Proof. unfold load_progress_body. by destruct (client_get _ _). Qed.

Lemma hash_chars t : result_mapM py_hash (chars t) = Ok (char_keys t).
Proof. induction t as [|c t IH]; [done|]. cbn. by rewrite IH. Qed.

Lemma hash_fields (d : list (string * json)) :
  result_mapM py_hash ((λ kv, JStr kv.1) <$> d) = Ok ((λ kv, KStr kv.1) <$> d).
Proof. induction d as [|kv d IH]; [done|]. cbn. by rewrite IH. Qed.

(** C8, as amended.  [_load_progress] always returns.  It leaves the set
    listed by the progress record when the record is there and its text
    decodes to a list of keys, in particular the set a [_save_progress]
    wrote there; it leaves the empty set when the record cannot be fetched
    (missing, or the backend does not answer), when its text does not
    decode, and when the decoded value cannot be made a set.  A record
    whose text decodes to something else that can be made a set is loaded
    as that set: the characters of a string, the keys of an object. *)
Theorem load_progress_never_raises w this :
  ∃ s, _load_progress w this = Ok (set_processed this s) ∧
    (∀ doc v s',
       client_get (_client this) (progress_id this) = Ok doc →
       loads_stored w (default (SText "[]") (d_processed_files doc)) = Ok v →
       py_set v = Ok s' →
       s = s') ∧
    (∀ doc text t,
       client_get (_client this) (progress_id this) = Ok doc →
       d_processed_files doc = Some (SText text) →
       json_loads w text = Ok (JStr t) →
       s = list_to_set (char_keys t)) ∧
    (∀ doc text d,
       client_get (_client this) (progress_id this) = Ok doc →
       d_processed_files doc = Some (SText text) →
       json_loads w text = Ok (JObj d) →
       s = list_to_set ((λ kv, KStr kv.1) <$> d)) ∧
    (∀ doc text keys,
       client_get (_client this) (progress_id this) = Ok doc →
       d_processed_files doc = Some (SText text) →
       json_loads w text = Ok (JArr (key_json <$> keys)) →
       s = list_to_set keys) ∧
    (∀ earlier saved,
       _save_progress w earlier = Ok saved →
       index_name earlier = index_name this →
       _client this = _client saved →
       json_loads w (json_dumps w (JArr (key_json <$> elements (_processed_files earlier))))
         = Ok (JArr (key_json <$> elements (_processed_files earlier))) →
       s = _processed_files earlier) ∧
    (∀ e, client_get (_client this) (progress_id this) = Raise e → s = ∅) ∧
    (∀ doc e,
       client_get (_client this) (progress_id this) = Ok doc →
       loads_stored w (default (SText "[]") (d_processed_files doc)) = Raise e →
       s = ∅) ∧
    (∀ doc v e,
       client_get (_client this) (progress_id this) = Ok doc →
       loads_stored w (default (SText "[]") (d_processed_files doc)) = Ok v →
       py_set v = Raise e →
       s = ∅).
Proof.
  unfold _load_progress.
  destruct (load_progress_body w this) as [s|e0] eqn:Hbody;
    [exists s|exists ∅]; (split; [done|]); rewrite load_progress_body_eq in Hbody.
  all: match goal with |- (∀ doc v s', _ → _ → _ → ?x = s') ∧ _ =>
         assert (∀ doc v s',
                   client_get (_client this) (progress_id this) = Ok doc →
                   loads_stored w (default (SText "[]") (d_processed_files doc)) = Ok v →
                   py_set v = Ok s' → x = s') as Hgen
           by (intros doc v s' Hget Hload Hset; rewrite Hget, Hload, Hset in Hbody;
               by simplify_eq)
       end.
  all: split; [exact Hgen|].
  all: split;
    [intros doc text t Hget Hfield Hload;
     apply (Hgen doc (JStr t)); [done|by rewrite Hfield|];
     unfold py_set; cbn [py_iter mbind result_bind]; by rewrite hash_chars|].
  all: split;
    [intros doc text d Hget Hfield Hload;
     apply (Hgen doc (JObj d)); [done|by rewrite Hfield|];
     unfold py_set; cbn [py_iter mbind result_bind]; by rewrite hash_fields|].
  - assert (∀ doc text keys,
       client_get (_client this) (progress_id this) = Ok doc →
       d_processed_files doc = Some (SText text) →
       json_loads w text = Ok (JArr (key_json <$> keys)) →
       s = list_to_set keys) as Hvalid.
    { intros doc text keys Hget Hfield Hload. rewrite Hget, Hfield in Hbody.
      cbn [from_option loads_stored id] in Hbody.
      rewrite Hload, py_set_keys in Hbody. by simplify_eq. }
    split; [exact Hvalid|]. split; [|split; [|split]].
    + intros earlier saved Hsave Hname Hclient Hrt.
      unfold _save_progress, client_index in Hsave.
      destruct (b_up (_client earlier)) eqn:Hup; [|done]. cbn in Hsave.
      injection Hsave as <-.
      rewrite <- (list_to_set_elements_L (_processed_files earlier)).
      apply (Hvalid {| d_index_name := index_name earlier;
                       d_processed_files :=
                         Some (SText (json_dumps w (JArr (key_json <$> elements (_processed_files earlier))))) |}
               (json_dumps w (JArr (key_json <$> elements (_processed_files earlier))))
         (elements (_processed_files earlier))); [|reflexivity|exact Hrt].
      unfold client_get. rewrite Hclient. cbn. unfold progress_id. rewrite Hname.
      by rewrite lookup_insert_eq.
    + intros e Hget. by rewrite Hget in Hbody.
    + intros doc e Hget Hload. by rewrite Hget, Hload in Hbody.
    + intros doc v e Hget Hload Hset. by rewrite Hget, Hload, Hset in Hbody.
  - assert (∀ doc text keys,
       client_get (_client this) (progress_id this) = Ok doc →
       d_processed_files doc = Some (SText text) →
       json_loads w text = Ok (JArr (key_json <$> keys)) →
       (∅ : gset pykey) = list_to_set keys) as Hvalid.
    { intros doc text keys Hget Hfield Hload. rewrite Hget, Hfield in Hbody.
      cbn [from_option loads_stored id] in Hbody.
      by rewrite Hload, py_set_keys in Hbody. }
    split; [exact Hvalid|]. split; [|done].
    intros earlier saved Hsave Hname Hclient Hrt.
    unfold _save_progress, client_index in Hsave.
    destruct (b_up (_client earlier)) eqn:Hup; [|done]. cbn in Hsave.
    injection Hsave as <-.
    rewrite <- (list_to_set_elements_L (_processed_files earlier)).
    apply (Hvalid {| d_index_name := index_name earlier;
                     d_processed_files :=
                       Some (SText (json_dumps w (JArr (key_json <$> elements (_processed_files earlier))))) |}
             (json_dumps w (JArr (key_json <$> elements (_processed_files earlier))))
         (elements (_processed_files earlier))); [|reflexivity|exact Hrt].
    unfold client_get. rewrite Hclient. cbn. unfold progress_id. rewrite Hname.
    by rewrite lookup_insert_eq.
Qed.

(** A builder that saved two files, and a new builder for the same index
    on the same backend: loading gives the two files back.  With no
    record in the backend, loading gives the empty set. *)
Lemma load_progress_never_raises_witness :
  let w := sample_world running_clock true in
  let files : gset pykey := {[ KStr "data/a.jsonl"; KStr "data/b.jsonl" ]} in
  ∃ saved,
    _save_progress w (sample_builder 100000 files) = Ok saved ∧
    _load_progress w (set_processed saved ∅) = Ok (set_processed saved files) ∧
    _load_progress w (sample_builder 100000 {[ KStr "x" ]}) = Ok (sample_builder 100000 ∅).
Proof.
  cbv zeta. eexists. split; [reflexivity|]. split.
  - match goal with |- _load_progress ?w ?b = _ =>
      destruct (load_progress_never_raises w b) as (s & Hload & _ & _ & _ & _ & Hrt & _)
    end.
    rewrite Hload.
    rewrite (Hrt (sample_builder 100000 {[ KStr "data/a.jsonl"; KStr "data/b.jsonl" ]}) _
               eq_refl eq_refl eq_refl); [reflexivity|].
    vm_compute. reflexivity.
  - destruct (load_progress_never_raises (sample_world running_clock true)
                (sample_builder 100000 {[ KStr "x" ]})) as (s & Hload & _ & _ & _ & _ & _ & Hmiss & _).
    rewrite Hload. rewrite (Hmiss NotFoundError); reflexivity.
Defined.

(** C8 as stated fails for a corrupt record that still decodes.  The
    progress record of the index holds the text of the string [ab] where
    the list of files should be: [json.loads] returns the string, [set]
    takes its characters, and the builder is left with the two one-letter
    names [a] and [b] as its processed files, not with the empty set. *)
Lemma corrupt_record_counterexample :
  let w := {| json_loads := loads_with_text; json_dumps := sample_dumps;
              clock := running_clock; disk := sample_disk;
              fs_entries := sample_entries; fnmatch := sample_fnmatch;
              item_ok := λ _, true |} in
  let this := set_client (sample_builder 100000 ∅) corrupt_backend in
  (client_get (_client this) (progress_id this)
     = Ok {| d_index_name := "corpus";
             d_processed_files := Some (SText (quoted "ab")) |} ∧
   json_loads w (quoted "ab") = Ok (JStr "ab")) ∧
  _load_progress w this = Ok (set_processed this {[ KStr "a"; KStr "b" ]}) ∧
  bool_decide (({[ KStr "a"; KStr "b" ]} : gset pykey) = ∅) = false.
Proof. cbv zeta. repeat split; vm_compute; reflexivity. Qed.

(** ** File discovery *)

Lemma parts_leb_total a b : parts_leb a b = true ∨ parts_leb b a = true.
Proof.
  revert b. induction a as [|x a IH]; intros [|y b]; cbn; auto.
  rewrite (String.compare_antisym y x).
  destruct (String.compare x y); cbn; auto.
Qed.

#[global] Instance path_le_total : Total path_le.
Proof. intros p q. apply parts_leb_total. Qed.

Lemma compare_lt_spec x y :
  String.compare x y = Lt ↔ String.le x y ∧ x ≠ y.
Proof.
  unfold String.le, String.leb. split.
  - intros H. rewrite H. split; [done|]. intros ->.
    pose proof (String.compare_antisym y y) as Ha. by rewrite H in Ha.
  - intros [Hle Hne]. destruct (String.compare x y) eqn:E; [|done|done].
    by apply String.compare_eq_iff in E.
Qed.

Lemma compare_lt_trans x y z :
  String.compare x y = Lt → String.compare y z = Lt → String.compare x z = Lt.
Proof.
  rewrite !compare_lt_spec. intros [Hxy Hne] [Hyz Hne']. split.
  - by etrans.
  - intros ->. apply Hne. by apply (anti_symm String.le).
Qed.

Lemma parts_leb_trans a b c :
  parts_leb a b = true → parts_leb b c = true → parts_leb a c = true.
Proof.
  revert b c. induction a as [|x a IH]; intros [|y b] [|z c]; cbn; try done.
  destruct (String.compare x y) eqn:Exy; [|..|done].
  - apply String.compare_eq_iff in Exy as ->.
    destruct (String.compare y z); [apply IH|done..].
  - destruct (String.compare y z) eqn:Eyz; [..|done].
    + apply String.compare_eq_iff in Eyz as <-. by rewrite Exy.
    + by rewrite (compare_lt_trans _ _ _ Exy Eyz).
Qed.

#[global] Instance path_le_trans : Transitive path_le.
Proof. intros p q r. apply parts_leb_trans. Qed.

Lemma sorted_Sorted l : StronglySorted path_le (sorted l).
Proof. apply StronglySorted_merge_sort; apply _. Qed.

(** The order of paths is not the order of their texts: a hyphen sorts
    before a slash, a shorter component before a longer one. *)
Example component_order_is_not_text_order :
  path_le (rel ["d"; "a"; "x"]) (rel ["d"; "a-b"; "y"]) ∧
  String.leb (path_str (rel ["d"; "a"; "x"])) (path_str (rel ["d"; "a-b"; "y"])) = false.
Proof. split; reflexivity. Qed.

Lemma sorted_Permutation l : sorted l ≡ₚ l.
Proof. apply merge_sort_Permutation. Qed.

(** Text *)

Lemma string_app_cons x (a b : string) : String x a +:+ b = String x (a +:+ b).
Proof. reflexivity. Qed.

Lemma string_app_assoc (a b c : string) : (a +:+ b) +:+ c = a +:+ (b +:+ c).
Proof. induction a as [|x a IH]; [done|]. by rewrite !string_app_cons, IH. Qed.

Lemma string_app_nil_r (a : string) : a +:+ EmptyString = a.
Proof. induction a as [|x a IH]; [done|]. by rewrite string_app_cons, IH. Qed.

Lemma prefix_nil s : String.prefix EmptyString s = true.
Proof. by destruct s. Qed.

Lemma prefix_app sub a b :
  String.prefix sub a = true → String.prefix sub (a +:+ b) = true.
Proof.
  revert a. induction sub as [|x sub IH]; intros a H.
  - apply prefix_nil.
  - destruct a as [|y a]; [done|].
    rewrite string_app_cons. cbn in *.
    destruct (Ascii.ascii_dec x y); [by apply IH|done].
Qed.

Lemma contains_nil_l s : contains EmptyString s = true.
Proof. destruct s; cbn; by rewrite ?prefix_nil. Qed.

Lemma contains_app_r sub a b :
  contains sub b = true → contains sub (a +:+ b) = true.
Proof.
  intros Hb. induction a as [|x a IH]; [done|].
  rewrite string_app_cons. cbn [contains]. by rewrite IH, orb_true_r.
Qed.

Lemma contains_app_l sub a b :
  contains sub a = true → contains sub (a +:+ b) = true.
Proof.
  induction a as [|x a IH]; intros Ha.
  - destruct sub; [apply contains_nil_l|done].
  - rewrite string_app_cons. cbn [contains] in *.
    apply orb_true_iff in Ha as [Ha|Ha].
    + apply (prefix_app _ _ b) in Ha. rewrite string_app_cons in Ha. by rewrite Ha.
    + by rewrite (IH Ha), orb_true_r.
Qed.

Lemma contains_slash_cons x s :
  contains "/" (String x s) = bool_decide (x = "/"%char) || contains "/" s.
Proof.
  cbn [contains String.prefix]. destruct (Ascii.ascii_dec "/" x) as [<-|Hne].
  - by rewrite prefix_nil.
  - rewrite bool_decide_eq_false_2; [done|congruence].
Qed.

Lemma contains_slash_app a b :
  contains "/" (a +:+ b) = contains "/" a || contains "/" b.
Proof.
  induction a as [|x a IH]; [done|].
  rewrite string_app_cons, !contains_slash_cons, IH. by rewrite orb_assoc.
Qed.

Lemma split_slash_cons cur x s :
  split_aux "/" 0 cur (String x s)
    = if bool_decide (x = "/"%char) then cur :: split_aux "/" 0 EmptyString s
      else split_aux "/" 0 (cur +:+ String x EmptyString) s.
Proof.
  cbn [split_aux String.prefix]. destruct (Ascii.ascii_dec "/" x) as [<-|Hne].
  - by rewrite prefix_nil.
  - rewrite bool_decide_eq_false_2; [done|congruence].
Qed.

(** The pieces between slashes hold no slash. *)
Lemma split_slash_pieces cur s :
  contains "/" cur = false →
  Forall (λ c, contains "/" c = false) (split_aux "/" 0 cur s).
Proof.
  revert cur. induction s as [|x s IH]; intros cur Hcur.
  - by constructor.
  - rewrite split_slash_cons. case_bool_decide as Hx.
    + constructor; [done|]. by apply IH.
    + apply IH. rewrite contains_slash_app, Hcur, contains_slash_cons.
      by rewrite bool_decide_eq_false_2.
Qed.

(** A text without a slash is one piece. *)
Lemma split_slash_whole cur s :
  contains "/" s = false → split_aux "/" 0 cur s = [cur +:+ s].
Proof.
  revert cur. induction s as [|x s IH]; intros cur Hs.
  - by rewrite string_app_nil_r.
  - rewrite contains_slash_cons in Hs. apply orb_false_iff in Hs as [Hx Hs].
    rewrite split_slash_cons, Hx, (IH _ Hs), string_app_assoc. done.
Qed.

(** What a text does not contain, its pieces do not contain. *)
Lemma split_slash_contains sub cur s :
  contains sub (cur +:+ s) = false →
  Forall (λ c, contains sub c = false) (split_aux "/" 0 cur s).
Proof.
  revert cur. induction s as [|x s IH]; intros cur H.
  - rewrite string_app_nil_r in H. by constructor.
  - rewrite split_slash_cons. case_bool_decide as Hx.
    + constructor.
      * destruct (contains sub cur) eqn:E; [|done].
        by rewrite (contains_app_l _ _ _ E) in H.
      * apply IH. destruct (contains sub s) eqn:E; [|done].
        rewrite (contains_app_r sub cur (String x s)) in H; [done|].
        cbn [contains]. by rewrite E, orb_true_r.
    + apply IH. by rewrite string_app_assoc.
Qed.

Lemma Path_parts_spec s :
  Forall (λ c, contains "/" c = false ∧ c ≠ EmptyString ∧ c ≠ ".") (p_parts (Path s)).
Proof.
  unfold Path, py_split. cbn [p_parts]. apply Forall_forall. intros c Hc.
  apply list_elem_of_filter in Hc as [[? ?] Hc]. split; [|done].
  pose proof (split_slash_pieces EmptyString s eq_refl) as Hall.
  rewrite Forall_forall in Hall. by apply Hall.
Qed.

Lemma Path_parts_contains sub s :
  contains sub s = false →
  Forall (λ c, contains sub c = false) (p_parts (Path s)).
Proof.
  intros H. unfold Path, py_split. cbn [p_parts]. apply Forall_forall. intros c Hc.
  apply list_elem_of_filter in Hc as [_ Hc].
  pose proof (split_slash_contains sub EmptyString s H) as Hall.
  rewrite Forall_forall in Hall. by apply Hall.
Qed.

Lemma split_aux_cons sep skip cur s :
  ∃ p ps, split_aux sep skip cur s = p :: ps.
Proof.
  revert skip cur. induction s as [|x s IH]; intros skip cur; [by eexists _, _|].
  cbn [split_aux]. destruct skip; [|apply IH].
  destruct (String.prefix sep (String x s)); [by eexists _, _|apply IH].
Qed.

(** The last piece of a split is an end of the text. *)
Lemma split_aux_last sep s skip cur :
  (∃ pre, s = pre +:+ List.last (split_aux sep skip cur s) EmptyString) ∨
  (skip = 0%nat ∧ List.last (split_aux sep skip cur s) EmptyString = cur +:+ s) ∨
  (skip ≠ 0%nat ∧ ∃ pre r, s = pre +:+ r ∧
     List.last (split_aux sep skip cur s) EmptyString = cur +:+ r).
Proof.
  revert skip cur. induction s as [|x s IH]; intros skip cur.
  - destruct skip; [right; left|right; right].
    + split; [done|]. by rewrite string_app_nil_r.
    + split; [done|]. exists EmptyString, EmptyString. split; [done|].
      by rewrite string_app_nil_r.
  - cbn [split_aux]. destruct skip as [|k].
    + destruct (String.prefix sep (String x s)).
      * left. destruct (split_aux_cons sep (String.length sep - 1) EmptyString s)
          as (p & ps & Hp).
        destruct (IH (String.length sep - 1)%nat EmptyString)
          as [(pre & Hpre)|[(_ & Hl)|(_ & pre & r & Hs & Hl)]]; rewrite Hp in *.
        -- exists (String x pre). rewrite string_app_cons. by f_equal.
        -- exists (String x EmptyString). change (List.last (cur :: p :: ps) EmptyString)
             with (List.last (p :: ps) EmptyString). by rewrite Hl.
        -- exists (String x pre). change (List.last (cur :: p :: ps) EmptyString)
             with (List.last (p :: ps) EmptyString).
           rewrite Hl, string_app_cons. by rewrite Hs.
      * destruct (IH 0%nat (cur +:+ String x EmptyString))
          as [(pre & Hpre)|[(_ & Hl)|(Hne & _)]]; [| |done].
        -- left. exists (String x pre). rewrite string_app_cons. by f_equal.
        -- right; left. split; [done|]. by rewrite Hl, string_app_assoc.
    + destruct (IH k cur) as [(pre & Hpre)|[(-> & Hl)|(Hne & pre & r & Hs & Hl)]].
      * left. exists (String x pre). rewrite string_app_cons. by f_equal.
      * right; right. split; [done|]. by exists (String x EmptyString), s.
      * right; right. split; [done|]. exists (String x pre), r.
        split; [|done]. rewrite string_app_cons. by f_equal.
Qed.

Lemma split_last_suffix s sep :
  ∃ pre, s = pre +:+ List.last (py_split s sep) EmptyString.
Proof.
  unfold py_split.
  destruct (split_aux_last sep s 0 EmptyString) as [H|[(_ & Hl)|(Hne & _)]];
    [done| |done].
  exists EmptyString. by rewrite Hl.
Qed.

Lemma ends_with_sep_app pre t :
  t ≠ EmptyString → ends_with_sep (pre +:+ t) = ends_with_sep t.
Proof.
  intros Ht. induction pre as [|c pre IH]; [done|].
  rewrite string_app_cons. cbn [ends_with_sep].
  destruct (pre +:+ t) as [|y u] eqn:E; [|done].
  destruct pre, t; done.
Qed.

(** A component does not end in a separator. *)
Lemma component_no_sep_end c : contains "/" c = false → ends_with_sep c = false.
Proof.
  induction c as [|x c IH]; [done|]. rewrite contains_slash_cons.
  intros H. apply orb_false_iff in H as [Hx Hc]. apply bool_decide_eq_false in Hx.
  cbn [ends_with_sep]. destruct c as [|y c]; [|by apply IH].
  apply Ascii.eqb_neq. done.
Qed.

(** A single component is its own path. *)
Lemma Path_component c :
  contains "/" c = false → c ≠ EmptyString → c ≠ "." → Path c = rel [c].
Proof.
  intros Hslash Hne Hdot. unfold Path, rel, py_split. f_equal.
  - destruct c as [|x c]; [done|]. rewrite contains_slash_cons in Hslash.
    apply orb_false_iff in Hslash as [Hx _]. apply bool_decide_eq_false in Hx.
    unfold root_of. cbn [String.prefix].
    destruct (Ascii.ascii_dec "/" x); [congruence|done].
  - rewrite (split_slash_whole _ _ Hslash). cbn.
    rewrite decide_True; [done|]. done.
Qed.

(** Selection *)

Lemma literal_not_recursive c : literal c = true → String.eqb c "**" = false.
Proof.
  intros Hlit. destruct (String.eqb_spec c "**") as [->|]; [|done].
  by vm_compute in Hlit.
Qed.

Lemma selects_plain w pat pats rest is_dir :
  String.eqb pat "**" = false →
  selects w (pat :: pats) rest is_dir
    = match rest with
      | [] => false
      | nm :: rest' => part_match w pat nm && selects w pats rest' is_dir
      end.
Proof. intros H. cbn [selects]. by rewrite H. Qed.

(** Literal components at the head of a pattern select what lies below
    the directory they name. *)
Lemma selects_literal_prefix w lits pats l is_dir :
  forallb literal lits = true →
  selects w (lits ++ pats) l is_dir
    = match below lits l with
      | Some rest => selects w pats rest is_dir
      | None => false
      end.
Proof.
  revert l. induction lits as [|c lits IH]; intros l Hlits; [done|].
  cbn [forallb] in Hlits. apply andb_prop in Hlits as [Hc Hlits].
  rewrite <- app_comm_cons, (selects_plain _ _ _ _ _ (literal_not_recursive _ Hc)).
  destruct l as [|nm l]; [done|]. cbn [below]. unfold part_match.
  unfold literal in Hc. apply negb_true_iff in Hc. rewrite Hc.
  destruct (String.eqb c nm); [by rewrite IH|done].
Qed.

Lemma select_from_literal_base w r base pats dironly :
  forallb literal base = true →
  select_from w {| p_root := r; p_parts := [] |} (base ++ pats) dironly
    = select_from w {| p_root := r; p_parts := base |} pats dironly.
Proof.
  intros Hbase. unfold select_from. cbn [p_root]. f_equal.
  apply List.filter_ext. intros e.
  unfold selected. cbn [p_root p_parts below].
  by rewrite (selects_literal_prefix _ _ _ _ _ Hbase).
Qed.

(** A pattern that ends in [**] selects directories only, asked or not. *)
Lemma selects_recursive_end w rest is_dir : selects w ["**"] rest is_dir = is_dir.
Proof.
  cbn [selects String.eqb Ascii.eqb Bool.eqb].
  induction rest as [|nm rest IH]; [by destruct is_dir|].
  rewrite IH. by destruct is_dir.
Qed.

Lemma select_from_recursive_end w base dironly dironly' :
  select_from w base ["**"] dironly = select_from w base ["**"] dironly'.
Proof.
  unfold select_from. f_equal. apply List.filter_ext. intros e.
  unfold selected. destruct (below _ _); [|by rewrite !andb_false_r].
  rewrite selects_recursive_end.
  by destruct dironly, dironly', (e_is_dir e), (Bool.eqb _ _).
Qed.

Lemma last_in (l : list string) d : l ≠ [] → List.last l d ∈ l.
Proof.
  intros Hne. rewrite (app_removelast_last d Hne) at 2.
  apply elem_of_app. right. by apply list_elem_of_singleton.
Qed.

(** A pattern with a literal directory is matched as a whole. *)
Lemma discover_literal w pattern :
  literal_directory pattern = true →
  discover w pattern = Ok (sorted (matching w pattern)).
Proof.
  unfold literal_directory, discover, matching. intros H.
  destruct (contains "**" pattern) eqn:Hrec.
  - apply andb_prop in H as [H Hparts]. apply andb_prop in H as [H Hroot].
    apply andb_prop in H as [H Hlit]. apply andb_prop in H as [Habs Hvalid].
    apply negb_true_iff in Habs.
    apply bool_decide_eq_true in Hroot, Hparts.
    unfold rglob. rewrite Habs, Hvalid. cbn [mbind result_bind]. do 2 f_equal.
    rewrite Hparts, Hroot, (select_from_literal_base _ _ _ _ _ Hlit).
    destruct (Path (default EmptyString (head (py_split pattern "**")))) as [r base].
    cbn [p_root p_parts].
    destruct (split_last_suffix pattern "**/") as (pre & Hpre).
    destruct (List.last (py_split pattern "**/") EmptyString) as [|c tail] eqn:Htail.
    + apply select_from_recursive_end.
    + f_equal. rewrite Hpre. by rewrite ends_with_sep_app.
  - apply andb_prop in H as [H Hlit]. apply andb_prop in H as [Hend Hne].
    apply negb_true_iff in Hend. rewrite Hend.
    apply negb_true_iff, bool_decide_eq_false in Hne.
    pose proof (last_in _ EmptyString Hne) as Hin.
    pose proof (Path_parts_spec pattern) as Hspec.
    pose proof (Path_parts_contains "**" pattern Hrec) as Hstar.
    rewrite Forall_forall in Hspec, Hstar.
    destruct (Hspec _ Hin) as (Hslash & Hnil & Hdot). specialize (Hstar _ Hin).
    fold (name (Path pattern)) in *.
    unfold glob. rewrite (Path_component _ Hslash Hnil Hdot).
    destruct (String.eqb_spec (name (Path pattern)) EmptyString) as [?|_]; [done|].
    cbn [p_root rel p_parts forallb absolute]. unfold valid_part at 1. rewrite Hstar.
    rewrite orb_true_r, (component_no_sep_end _ Hslash).
    cbn [andb mbind result_bind]. do 2 f_equal.
    rewrite (app_removelast_last EmptyString Hne) at 1.
    by rewrite (select_from_literal_base _ _ _ _ _ Hlit).
Qed.

Lemma discover_sorted w pattern files :
  discover w pattern = Ok files → StronglySorted path_le files.
Proof.
  unfold discover. intros H.
  destruct (contains "**" pattern);
    [destruct (rglob _ _ _) | destruct (glob _ _ _)];
    simplify_eq/=; apply sorted_Sorted.
Qed.

(** A run over no file goes through when the backend answers. *)
Lemma ingest_no_files w this extractor test_limit resume parallel :
  b_up (_client this) = true →
  (parallel = true → 0 < thread_count this) →
  ∃ r, ingest w this [] extractor test_limit resume parallel = Ok r ∧
       run_events r = [] ∧
       s_total_records (run_stats r) = 0 ∧
       s_total_errors (run_stats r) = 0 ∧
       _processed_files (run_self r) = _processed_files this.
Proof.
  intros Hup Hpool. unfold ingest, generate_actions. cbn [length gen_files].
  destruct (rate_per_second_total 0 (clock w 1 - clock w 0)) as (q & Hq & _).
  assert (parallel = true → thread_pool (thread_count this) = Ok ()) as Hp.
  { intros Hpar. unfold thread_pool.
    destruct (Z.leb_spec (thread_count this) 0) as [Hle|_]; [|done].
    specialize (Hpool Hpar). lia. }
  destruct parallel; [rewrite (Hp eq_refl)|];
    unfold parallel_bulk, bulk, _save_progress, client_index, request;
    rewrite ?(Hp eq_refl);
    cbn -[rate_per_second Qminus]; rewrite Hup; cbn -[rate_per_second Qminus];
    rewrite Hq; cbn; eauto 10.
Qed.

(** C9, as amended.  For a pattern whose directory part is free of
    wildcards (a name pattern in a literal directory, with no separator
    at the end, or a recursive pattern below a literal directory), the
    discovered sequence is the existing paths matching the pattern,
    directories as well as files, each as often as the file system lists
    it, sorted.
    For every pattern on which the discovery does not raise, the sequence
    is ordered by path, component by component; when it is empty the run
    goes through, with no record and no error, provided the backend
    answers and, in parallel mode, the thread count is positive.
    Otherwise the run raises: the exception of the discovery when there is
    one, [ValueError] in parallel mode with a thread count that is not
    positive. *)
Theorem discovery_of_literal_directories w pattern :
  (literal_directory pattern = true →
     discover w pattern = Ok (sorted (matching w pattern)) ∧
     sorted (matching w pattern) ≡ₚ matching w pattern)
  ∧ (∀ files, discover w pattern = Ok files → StronglySorted path_le files)
  ∧ (∀ this extractor test_limit resume parallel,
       discover w pattern = Ok [] → b_up (_client this) = true →
       (parallel = true → 0 < thread_count this) →
       ∃ r, add_jsonl_files w this pattern extractor test_limit resume parallel = Ok r ∧
            run_events r = [] ∧
            s_total_records (run_stats r) = 0 ∧
            s_total_errors (run_stats r) = 0)
  ∧ (∀ this extractor test_limit resume parallel e,
       discover w pattern = Raise e →
       add_jsonl_files w this pattern extractor test_limit resume parallel = Raise e)
  ∧ (∀ this extractor test_limit resume files,
       discover w pattern = Ok files → thread_count this ≤ 0 →
       add_jsonl_files w this pattern extractor test_limit resume true
         = Raise ValueError).
Proof.
  split; [|split; [|split; [|split]]].
  - intros Hlit. split; [by apply discover_literal|apply sorted_Permutation].
  - apply discover_sorted.
  - intros this extractor test_limit resume parallel Hnone Hup Hpool.
    unfold add_jsonl_files. rewrite Hnone. cbn [mbind result_bind].
    destruct (ingest_no_files w this extractor test_limit resume parallel Hup Hpool)
      as (r & Hr & Hev & Hrec & Herr & _).
    eauto 10.
  - intros this extractor test_limit resume parallel e He.
    unfold add_jsonl_files. by rewrite He.
  - intros this extractor test_limit resume files Hfiles Hpool.
    unfold add_jsonl_files. rewrite Hfiles. cbn [mbind result_bind].
    unfold ingest, thread_pool.
    destruct (Z.leb_spec (thread_count this) 0) as [_|Hlt]; [done|lia].
Qed.

(** In the sample file system: a name pattern in a literal directory, a
    recursive pattern below a literal directory, and a pattern that
    matches nothing. *)
Lemma discovery_of_literal_directories_witness :
  let w := sample_world running_clock true in
  discover w "data/*.jsonl" = Ok [rel ["data"; "a.jsonl"]; rel ["data"; "b.jsonl"]] ∧
  discover w "data/**/*.jsonl"
    = Ok [rel ["data"; "a.jsonl"]; rel ["data"; "b.jsonl"]; rel ["data"; "sub"; "x.jsonl"]] ∧
  ∃ r, add_jsonl_files w (sample_builder 100000 ∅) "nothing/*.jsonl"
         sample_extractor None true true = Ok r ∧
       run_events r = [].
Proof.
  cbv zeta. split; [|split].
  - destruct (discovery_of_literal_directories (sample_world running_clock true)
                "data/*.jsonl") as (H & _).
    destruct H as [-> _]; [vm_compute; reflexivity|]. vm_compute. reflexivity.
  - destruct (discovery_of_literal_directories (sample_world running_clock true)
                "data/**/*.jsonl") as (H & _).
    destruct H as [-> _]; [vm_compute; reflexivity|]. vm_compute. reflexivity.
  - destruct (discovery_of_literal_directories (sample_world running_clock true)
                "nothing/*.jsonl") as (_ & _ & H & _).
    destruct (H (sample_builder 100000 ∅) sample_extractor None true true)
      as (r & Hr & Hev & _); [vm_compute; reflexivity|reflexivity| |].
    + intros _. reflexivity.
    + exists r. split; [exact Hr|exact Hev].
Defined.

(** C9 as stated fails in six ways.  A wildcard in a directory
    component: the file [data/sub/x.jsonl] exists and matches the pattern,
    but the discovery looks for the name [x.jsonl] in a directory called
    [data/*], which does not exist, and finds nothing.  Directories: the
    pattern [data/*] discovers the directory [data/sub] next to the two
    files.  A pattern the discovery raises on: with the empty pattern the
    run ends in [ValueError].  A pattern matching nothing, in parallel
    mode with no thread: the run ends in [ValueError].  The order: the
    sequence is sorted by components, which is not the order of the path
    texts, as a hyphen sorts before a slash.  A separator at the end of a
    name pattern: [data/a.jsonl/] matches directories only, so not the
    file [data/a.jsonl], which the discovery finds all the same, the
    separator being lost with [Path(pattern).name]. *)
Lemma discovery_counterexample :
  let w := sample_world running_clock true in
  let threadless := {| index_name := "corpus"; batch_size := 5000;
                       progress_interval := 100000; thread_count := 0;
                       _processed_files := ∅; _client := empty_backend |} in
  let tree := relisted w
                [ {| e_path := rel ["d"]; e_is_dir := true |};
                  {| e_path := rel ["d"; "a-b"]; e_is_dir := true |};
                  {| e_path := rel ["d"; "a"]; e_is_dir := true |};
                  {| e_path := rel ["d"; "a-b"; "y.jsonl"]; e_is_dir := false |};
                  {| e_path := rel ["d"; "a"; "x.jsonl"]; e_is_dir := false |} ] in
  (matching w "data/*/x.jsonl" = [rel ["data"; "sub"; "x.jsonl"]] ∧
   discover w "data/*/x.jsonl" = Ok []) ∧
  (discover w "data/*"
     = Ok [rel ["data"; "a.jsonl"]; rel ["data"; "b.jsonl"]; rel ["data"; "sub"]] ∧
   {| e_path := rel ["data"; "sub"]; e_is_dir := true |} ∈ fs_entries w) ∧
  add_jsonl_files w (sample_builder 100000 ∅) EmptyString sample_extractor None true true
    = Raise ValueError ∧
  (discover w "nothing/*.jsonl" = Ok [] ∧
   add_jsonl_files w threadless "nothing/*.jsonl" sample_extractor None true true
     = Raise ValueError) ∧
  (discover tree "d/**/*.jsonl"
     = Ok [rel ["d"; "a"; "x.jsonl"]; rel ["d"; "a-b"; "y.jsonl"]] ∧
   String.leb (path_str (rel ["d"; "a"; "x.jsonl"]))
              (path_str (rel ["d"; "a-b"; "y.jsonl"])) = false) ∧
  (matching w "data/a.jsonl/" = [] ∧
   discover w "data/a.jsonl/" = Ok [rel ["data"; "a.jsonl"]]).
Proof.
  cbv zeta. repeat split; try (vm_compute; reflexivity).
  do 4 apply list_elem_of_further. apply list_elem_of_here.
Qed.

(** * Further properties *)

(** ** What the counters count *)

Lemma line_errors_app evs1 evs2 :
  line_errors (evs1 ++ evs2) = (line_errors evs1 + line_errors evs2)%nat.
Proof. unfold line_errors. by rewrite List.filter_app, length_app. Qed.

Lemma file_errors_app evs1 evs2 :
  file_errors (evs1 ++ evs2) = (file_errors evs1 + file_errors evs2)%nat.
Proof. unfold file_errors. by rewrite List.filter_app, length_app. Qed.

Lemma accounted_refl st : accounted st st [].
Proof. unfold accounted. cbn. repeat split; [lia..|constructor]. Qed.

Lemma accounted_trans st st1 st2 ev1 ev2 :
  accounted st st1 ev1 → accounted st1 st2 ev2 → accounted st st2 (ev1 ++ ev2).
Proof.
  unfold accounted. intros (? & ? & Hn & ?) (? & ? & ? & ?).
  rewrite yielded_app, length_app, line_errors_app, file_errors_app, Forall_app.
  rewrite Hn in *. repeat split; [lia|lia|congruence|done|done].
Qed.

Section Accounting.
Context (w : world) (extractor : json → result (option record)).
Context (test_limit : option Z) (resume : bool) (start_time : Q) (nfiles : nat).

Lemma gen_line_accounted idx line st fl st' evs :
  gen_line w extractor test_limit start_time nfiles idx line st = (fl, st', evs) →
  accounted st st' evs.
Proof.
  intros H. unfold accounted, well_keyed. line_cases.
  all: unfold line_errors, file_errors; cbn.
  all: repeat split; try lia; try done; repeat constructor.
Qed.

Lemma gen_lines_accounted idx reads st fl st' evs :
  gen_lines w extractor test_limit start_time nfiles idx reads st = (fl, st', evs) →
  accounted st st' evs.
Proof.
  revert st fl st' evs. induction reads as [|[line|e] reads IH]; intros st fl st' evs H.
  - simplify_eq/=. apply accounted_refl.
  - cbn in H. destruct (gen_line _ _ _ _ _ _ _ _) as [[fl1 st1] ev1] eqn:E1.
    apply gen_line_accounted in E1. destruct fl1; [|by simplify_eq..].
    destruct (gen_lines _ _ _ _ _ _ _ _) as [[fl2 st2] ev2] eqn:E2. simplify_eq.
    apply IH in E2. by eapply accounted_trans.
  - simplify_eq/=. apply accounted_refl.
Qed.

Lemma mark_complete_accounted key st evs fl st' evs' :
  mark_complete w key st evs = (fl, st', evs') →
  ∃ tail, evs' = evs ++ tail ∧ accounted st st' tail.
Proof.
  unfold mark_complete, _save_progress, client_index. intros H.
  repeat case_match; simplify_eq/=; (eexists; split; [done|]);
    unfold accounted, line_errors, file_errors; cbn;
    repeat split; try lia; constructor.
Qed.

Lemma gen_file_accounted idx filepath st fl st' evs :
  gen_file w extractor test_limit resume start_time nfiles idx filepath st
    = (fl, st', evs) →
  accounted st st' evs.
Proof.
  unfold gen_file, gen_open. intros H.
  destruct (resume && _). { simplify_eq. apply accounted_refl. }
  destruct (f_open _).
  { simplify_eq. unfold accounted, line_errors, file_errors. cbn.
    repeat split; [lia..|constructor]. }
  destruct (gen_lines _ _ _ _ _ _ _ _) as [[fl1 st1] ev1] eqn:E1.
  apply gen_lines_accounted in E1.
  assert (accounted st st1 (EvOpen (path_str filepath) :: ev1)) as Hopen.
  { apply (accounted_trans st st st1 [EvOpen (path_str filepath)] ev1); [|done].
    unfold accounted, line_errors, file_errors. cbn.
    repeat split; [lia..|constructor]. }
  destruct fl1.
  - apply mark_complete_accounted in H as (tail & -> & Htail).
    by eapply accounted_trans.
  - by simplify_eq.
  - simplify_eq. eapply accounted_trans; [done|].
    unfold accounted, line_errors, file_errors. cbn.
    repeat split; [lia..|constructor].
Qed.

Lemma gen_files_accounted idx files st fl st' evs :
  gen_files w extractor test_limit resume start_time nfiles idx files st
    = (fl, st', evs) →
  accounted st st' evs.
Proof.
  revert idx st fl st' evs.
  induction files as [|filepath files IH]; intros idx st fl st' evs H.
  - simplify_eq/=. apply accounted_refl.
  - cbn in H. destruct (gen_file _ _ _ _ _ _ _ _ _) as [[fl1 st1] ev1] eqn:E1.
    apply gen_file_accounted in E1. destruct fl1; [|by simplify_eq..].
    destruct (gen_files _ _ _ _ _ _ _ _ _) as [[fl2 st2] ev2] eqn:E2. simplify_eq.
    apply IH in E2. by eapply accounted_trans.
Qed.
End Accounting.

(** The run behind a call that returns, with its account and its last
    save. *)
Lemma ingest_account w this files extractor test_limit resume parallel r :
  ingest w this files extractor test_limit resume parallel = Ok r →
  ∃ fl st1,
    generate_actions w extractor test_limit resume (clock w 0) files (fresh this)
      = (fl, st1, run_events r) ∧
    (∀ e, fl ≠ Throw e) ∧
    accounted (fresh this) st1 (run_events r) ∧
    s_total_records (run_stats r) = total_records st1 ∧
    s_total_errors (run_stats r)
      = total_errors st1 +
        (if parallel
         then Z.of_nat (length (List.filter (λ a, negb (item_ok w a))
                                            (yielded (run_events r))))
         else 0) ∧
    _processed_files (run_self r) = _processed_files (self st1).
Proof.
  intros H. apply ingest_inv in H as (fl & st1 & Hgen & Hfl & Hr & He & Hp & _).
  exists fl, st1. repeat split; try done.
  all: unfold generate_actions in Hgen; apply gen_files_accounted in Hgen;
    by destruct Hgen as (? & ? & ? & ?).
Qed.

(** X1.  The [total_records] of the returned statistics is the number of
    write operations the generator handed to the submission, whether the
    backend accepted them or not. *)
Theorem total_records_counts_emitted w this files extractor test_limit resume parallel r :
  ingest w this files extractor test_limit resume parallel = Ok r →
  s_total_records (run_stats r) = Z.of_nat (length (yielded (run_events r))).
Proof.
  intros H. apply ingest_account in H as (fl & st1 & _ & _ & Hacc & -> & _).
  destruct Hacc as (-> & _). cbn. lia.
Qed.

Lemma total_records_counts_emitted_witness :
  ∃ r, ingest (sample_world running_clock false) (sample_builder 5 ∅)
         [rel ["data"; "a.jsonl"]; rel ["data"; "c.jsonl"]]
         sample_extractor None true true = Ok r ∧
       s_total_records (run_stats r) = 11 ∧
       length (yielded (run_events r)) = 11%nat.
Proof.
  eexists. split; [vm_compute; reflexivity|].
  match goal with |- s_total_records (run_stats ?r) = _ ∧ _ => set (run := r) end.
  assert (s_total_records (run_stats run) = Z.of_nat (length (yielded (run_events run))))
    as Heq.
  { apply (total_records_counts_emitted (sample_world running_clock false)
             (sample_builder 5 ∅) [rel ["data"; "a.jsonl"]; rel ["data"; "c.jsonl"]]
             sample_extractor None true true).
    vm_compute. reflexivity. }
  split; [rewrite Heq|]; vm_compute; reflexivity.
Defined.



(** X3.  Every write operation emitted targets the index of the builder
    and is keyed by the id of the document it carries. *)
Theorem emitted_operations_well_keyed w this files extractor test_limit resume parallel r :
  ingest w this files extractor test_limit resume parallel = Ok r →
  Forall (well_keyed (index_name this)) (yielded (run_events r)).
Proof.
  intros H. apply ingest_account in H as (fl & st1 & _ & _ & Hacc & _).
  by destruct Hacc as (_ & _ & _ & ?).
Qed.

Lemma emitted_operations_well_keyed_witness :
  ∃ r, ingest (sample_world running_clock true) (sample_builder 5 ∅)
         [rel ["data"; "b.jsonl"]] sample_extractor None true false = Ok r ∧
       Forall (well_keyed "corpus") (yielded (run_events r)).
Proof.
  eexists. split; [vm_compute; reflexivity|].
  apply (emitted_operations_well_keyed (sample_world running_clock true)
           (sample_builder 5 ∅) [rel ["data"; "b.jsonl"]]
           sample_extractor None true false).
  vm_compute. reflexivity.
Defined.

(** ** Which files a run opens *)

Section Opening.
Context (w : world) (extractor : json → result (option record)).
Context (resume : bool) (start_time : Q) (nfiles : nat).

(** With no limit the generator never returns early. *)
Lemma gen_line_no_stop idx line st fl st' evs :
  gen_line w extractor None start_time nfiles idx line st = (fl, st', evs) →
  fl ≠ Stop.
Proof. intros H. line_cases; done. Qed.

Lemma gen_lines_no_stop idx reads st fl st' evs :
  gen_lines w extractor None start_time nfiles idx reads st = (fl, st', evs) →
  fl ≠ Stop.
Proof.
  revert st fl st' evs. induction reads as [|[line|e] reads IH]; intros st fl st' evs H.
  - by simplify_eq/=.
  - cbn in H. destruct (gen_line _ _ _ _ _ _ _ _) as [[fl1 st1] ev1] eqn:E1.
    apply gen_line_no_stop in E1. destruct fl1; [|done|by simplify_eq].
    destruct (gen_lines _ _ _ _ _ _ _ _) as [[fl2 st2] ev2] eqn:E2. simplify_eq.
    by eapply IH.
  - by simplify_eq/=.
Qed.

(** One turn of the file loop under no limit: the file is stepped over;
    or it is opened and abandoned on an exception, which is noted; or it
    is opened, read to the end and marked. *)
Lemma gen_file_unlimited idx filepath st fl st' evs :
  gen_file w extractor None resume start_time nfiles idx filepath st
    = (fl, st', evs) →
  fl ≠ Stop ∧
  (skipped resume filepath st = true ∧ st' = st ∧ evs = [])
  ∨ (fl ≠ Stop ∧ skipped resume filepath st = false ∧
     opened evs = [path_str filepath] ∧
     _processed_files (self st') = _processed_files (self st) ∧
     file_errors evs = 1%nat ∧ marked evs = [])
  ∨ (fl ≠ Stop ∧ skipped resume filepath st = false ∧
     opened evs = [path_str filepath] ∧
     _processed_files (self st')
       = {[ KStr (path_str filepath) ]} ∪ _processed_files (self st) ∧
     file_errors evs = 0%nat ∧ marked evs = [path_str filepath]).
Proof.
  intros H. pose proof H as Hspec. apply gen_file_spec in Hspec as (_ & Hskip & Hopen).
  destruct (skipped resume filepath st) eqn:Hs.
  { destruct (Hskip eq_refl) as (-> & -> & ->). by left. }
  right. specialize (Hopen eq_refl).
  unfold gen_file, skipped in *. rewrite Hs in H. unfold gen_open in H.
  assert (∀ body, forallb is_line_event body = true → file_errors body = 0%nat)
    as Hnone.
  { clear. induction body as [|ev body IH]; [done|]. cbn.
    intros [Hev Hb]%andb_prop. unfold file_errors in *. cbn.
    destruct ev; try done; by apply IH. }
  destruct (f_open _).
  { simplify_eq. left. repeat split; done. }
  destruct (gen_lines _ _ _ _ _ _ _ _) as [[fl1 st1] ev1] eqn:E1.
  pose proof E1 as Hns. apply gen_lines_no_stop in Hns.
  pose proof E1 as Hself. apply gen_lines_self in Hself.
  pose proof E1 as Hline. apply gen_lines_line_events in Hline.
  destruct fl1; [|done|].
  - right. apply mark_complete_spec in H as (Hp & _ & _ & _ & Hstop & tail & -> & Htail).
    rewrite Hp, Hself. repeat split; try done.
    + rewrite <- app_comm_cons. unfold file_errors. cbn. fold (file_errors (ev1 ++ EvMark (path_str filepath) :: tail)).
      rewrite file_errors_app, (Hnone _ Hline).
      destruct Htail as [->|[s ->]]; done.
    + rewrite <- app_comm_cons, marked_open, marked_app, (marked_line_events _ Hline).
      destruct Htail as [->|[s ->]]; done.
  - left. simplify_eq. cbn [self incr_errors]. rewrite Hself. repeat split; try done.
    + rewrite <- app_comm_cons. unfold file_errors. cbn.
      fold (file_errors (ev1 ++ [EvFileError (path_str filepath) e])).
      by rewrite file_errors_app, (Hnone _ Hline).
    + by rewrite <- app_comm_cons, marked_open, marked_app, (marked_line_events _ Hline).
Qed.
End Opening.

Section OpeningAll.
Context (w : world) (extractor : json → result (option record)).
Context (resume : bool) (start_time : Q) (nfiles : nat).

Lemma gen_files_no_stop idx files st fl st' evs :
  gen_files w extractor None resume start_time nfiles idx files st = (fl, st', evs) →
  fl ≠ Stop.
Proof.
  revert idx st fl st' evs.
  induction files as [|filepath files IH]; intros idx st fl st' evs H.
  - by simplify_eq/=.
  - cbn in H. destruct (gen_file _ _ _ _ _ _ _ _ _) as [[fl1 st1] ev1] eqn:E1.
    assert (fl1 ≠ Stop) as Hns.
    { apply gen_file_unlimited in E1 as [[? _]|[(? & _)|(? & _)]]; done. }
    destruct fl1; [|done|by simplify_eq].
    destruct (gen_files _ _ _ _ _ _ _ _ _) as [[fl2 st2] ev2] eqn:E2. simplify_eq.
    by eapply IH.
Qed.

(** A run that reaches the end of the list opened, in the order of the
    list, the files the resume test did not step over. *)
Lemma gen_files_opened_exact idx files st st' evs :
  NoDup (path_str <$> files) →
  gen_files w extractor None resume start_time nfiles idx files st = (Next, st', evs) →
  opened evs = path_str <$> List.filter (λ f, negb (skipped resume f st)) files.
Proof.
  revert idx st st' evs.
  induction files as [|filepath files IH]; intros idx st st' evs Hnd H.
  - by simplify_eq/=.
  - rewrite fmap_cons in Hnd. apply NoDup_cons in Hnd as [Hfresh Hnd].
    cbn in H. destruct (gen_file _ _ _ _ _ _ _ _ _) as [[fl1 st1] ev1] eqn:E1.
    destruct fl1; [|done..].
    destruct (gen_files _ _ _ _ _ _ _ _ _) as [[fl2 st2] ev2] eqn:E2. simplify_eq.
    apply IH in E2; [|done]. rewrite opened_app, E2. cbn [List.filter].
    apply gen_file_unlimited in E1
      as [(_ & -> & -> & ->)|[(_ & -> & -> & Hp & _)|(_ & -> & -> & Hp & _)]];
      cbn [negb]; [done| |]; rewrite fmap_cons; cbn [app]; do 2 f_equal;
      apply List.filter_ext_in; intros f Hf; unfold skipped; rewrite Hp; [done|].
    do 2 f_equal. apply bool_decide_ext.
    assert (path_str f ≠ path_str filepath) as Hne.
    { intros Heq. apply Hfresh. rewrite <- Heq.
      apply list_elem_of_fmap. exists f. split; [done|]. by apply list_elem_of_In. }
    set_solver.
Qed.

(** A run that reaches the end of the list with no file abandoned leaves
    every file of the list in the set of processed files. *)
Lemma gen_files_all_processed idx files st st' evs :
  gen_files w extractor None resume start_time nfiles idx files st = (Next, st', evs) →
  file_errors evs = 0%nat →
  ∀ f, f ∈ files → KStr (path_str f) ∈ _processed_files (self st').
Proof.
  revert idx st st' evs.
  induction files as [|filepath files IH]; intros idx st st' evs H Hnone f Hf.
  - by apply elem_of_nil in Hf.
  - cbn in H. destruct (gen_file _ _ _ _ _ _ _ _ _) as [[fl1 st1] ev1] eqn:E1.
    destruct fl1; [|done..].
    destruct (gen_files _ _ _ _ _ _ _ _ _) as [[fl2 st2] ev2] eqn:E2. simplify_eq.
    rewrite file_errors_app in Hnone.
    pose proof E2 as Hmono. apply gen_files_processed in Hmono.
    apply elem_of_cons in Hf as [->|Hf]; [|eapply IH; [done|lia|done]].
    rewrite Hmono. apply elem_of_union. right.
    apply gen_file_unlimited in E1
      as [(_ & Hs & -> & _)|[(_ & _ & _ & _ & Herr & _)|(_ & _ & _ & -> & _)]].
    + unfold skipped in Hs. apply andb_prop in Hs as [_ Hs].
      by apply bool_decide_eq_true in Hs.
    + lia.
    + set_solver.
Qed.

(** With [resume] on, a list of processed files is stepped over whole. *)
Lemma gen_files_all_skipped test_limit idx files st :
  (∀ f, f ∈ files → KStr (path_str f) ∈ _processed_files (self st)) →
  gen_files w extractor test_limit true start_time nfiles idx files st = (Next, st, []).
Proof.
  revert idx. induction files as [|filepath files IH]; intros idx Hall; [done|].
  cbn [gen_files]. unfold gen_file.
  rewrite bool_decide_eq_true_2 by (apply Hall; left). cbn.
  rewrite IH; [done|]. intros f Hf. apply Hall. by right.
Qed.
End OpeningAll.

(** The last save of a run that returns. *)
Lemma ingest_last_save w this files extractor test_limit resume parallel r :
  ingest w this files extractor test_limit resume parallel = Ok r →
  ∃ fl st1,
    generate_actions w extractor test_limit resume (clock w 0) files (fresh this)
      = (fl, st1, run_events r) ∧
    (∀ e, fl ≠ Throw e) ∧
    _save_progress w (self st1) = Ok (run_self r).
Proof.
  unfold ingest. intros H.
  destruct (if parallel then thread_pool (thread_count this) else Ok ())
    as [[]|] eqn:Hpool; [|done].
  cbn [mbind result_bind] in H.
  assert (parallel = true → thread_pool (thread_count this) = Ok ()) as Hp
    by (by intros ->).
  clear Hpool.
  destruct (generate_actions _ _ _ _ _ _ _) as [[fl st1] evs] eqn:E.
  exists fl, st1.
  assert (∀ e, fl ≠ Throw e) as Hfl by (intros e ->; done).
  assert (∃ st2, self st2 = self st1 ∧
    (this' ← _save_progress w (self st2);
     _ ← request (_client this') ();
     rate ← rate_per_second (total_records st2) (clock w (ticks st2) - clock w 0);
     Ok {| run_stats :=
             {| s_total_records := total_records st2;
                s_total_errors := total_errors st2;
                s_elapsed_seconds := (clock w (ticks st2) - clock w 0)%Q;
                s_elapsed_hours := ((clock w (ticks st2) - clock w 0) / 3600)%Q;
                s_rate_per_second := rate;
                s_files_processed := size (_processed_files this') |};
           run_self := this'; run_events := evs |}) = Ok r) as (st2 & Hs & Hrest).
  { assert (∀ st2,
      (if parallel
       then results ← parallel_bulk w (_client (self st1)) (thread_count this)
                        (yielded evs);
            Ok (count_failures results st1)
       else _ ← bulk w (_client (self st1)) (yielded evs); Ok st1) = Ok st2 →
      self st2 = self st1) as Hself.
    { intros st2 Hsub. destruct parallel.
      - destruct (parallel_bulk _ _ _ _) as [results|]; [|done].
        assert (st2 = count_failures results st1) as -> by (by injection Hsub).
        by destruct (count_failures_spec results st1) as (_ & _ & _ & ->).
      - destruct (bulk _ _ _); [|done]. by injection Hsub as <-. }
    destruct fl; try done;
      (destruct (if parallel then _ else _) as [st2|] eqn:E2; [|done]);
      exists st2; (split; [by apply Hself|done]). }
  clear H. rewrite Hs in Hrest.
  destruct (_save_progress w (self st1)) as [this'|] eqn:Hsave; [|done].
  cbn in Hrest. destruct (request _ _); [|done]. cbn in Hrest.
  destruct (rate_per_second _ _); [|done]. cbn in Hrest. by simplify_eq.
Qed.

(** X4.  A run with no record limit that returns has opened, in the order
    of the list and each once, exactly the files the resume test does not
    step over at the start: all of them with [resume] off, those outside
    the set of processed files with [resume] on. *)
Theorem opened_files_are_the_unprocessed w this files extractor resume parallel r :
  NoDup (path_str <$> files) →
  ingest w this files extractor None resume parallel = Ok r →
  opened (run_events r)
    = path_str <$> List.filter (λ f, negb (skipped resume f (fresh this))) files.
Proof.
  intros Hnd H. apply ingest_last_save in H as (fl & st1 & Hgen & Hfl & _).
  unfold generate_actions in Hgen.
  pose proof Hgen as Hns. apply gen_files_no_stop in Hns.
  destruct fl; [|done|by destruct (Hfl e)].
  by eapply gen_files_opened_exact.
Qed.

Lemma opened_files_are_the_unprocessed_witness :
  let files := [rel ["data"; "a.jsonl"]; rel ["data"; "b.jsonl"]; rel ["data"; "c.jsonl"]] in
  ∃ r, ingest (sample_world running_clock true)
         (sample_builder 100000 {[ KStr "data/b.jsonl" ]}) files
         sample_extractor None true true = Ok r ∧
       opened (run_events r) = ["data/a.jsonl"; "data/c.jsonl"].
Proof.
  cbv zeta. eexists. split; [vm_compute; reflexivity|].
  erewrite (opened_files_are_the_unprocessed (sample_world running_clock true)
              (sample_builder 100000 {[ KStr "data/b.jsonl" ]})
              [rel ["data"; "a.jsonl"]; rel ["data"; "b.jsonl"]; rel ["data"; "c.jsonl"]]
              sample_extractor true true).
  - vm_compute. reflexivity.
  - apply (bool_decide_unpack _). vm_compute. exact I.
  - vm_compute. reflexivity.
Defined.

Lemma save_progress_stored w this this' :
  _save_progress w this = Ok this' →
  index_name this' = index_name this ∧
  _processed_files this' = _processed_files this ∧
  b_up (_client this) = true ∧
  b_up (_client this') = true ∧
  b_meta (_client this') = <[progress_id this := progress_doc_of w this]> (b_meta (_client this)).
Proof.
  unfold _save_progress, client_index. destruct (b_up _) eqn:Hup; [|done].
  cbn. intros [= <-]. cbn. by rewrite ?Hup.
Qed.

(** X5.  When a run returns, the progress record of the index in the
    backend lists exactly the set of processed files the builder holds,
    under the name of the index; a builder that then loads the progress of
    this index from this backend gets that set, whenever [json.loads]
    reads back what [json.dumps] wrote. *)
Theorem progress_saved_when_run_returns w this files extractor test_limit resume parallel r :
  ingest w this files extractor test_limit resume parallel = Ok r →
  index_name (run_self r) = index_name this ∧
  client_get (_client (run_self r)) (progress_id this)
    = Ok (progress_doc_of w (run_self r)) ∧
  (json_loads w (json_dumps w (JArr (key_json <$> elements (_processed_files (run_self r)))))
     = Ok (JArr (key_json <$> elements (_processed_files (run_self r)))) →
   ∀ later, index_name later = index_name this →
            _client later = _client (run_self r) →
            _load_progress w later
              = Ok (set_processed later (_processed_files (run_self r)))).
Proof.
  intros H. apply ingest_last_save in H as (fl & st1 & Hgen & _ & Hsave).
  unfold generate_actions in Hgen. apply gen_files_accounted in Hgen as (_ & _ & Hn & _).
  cbn in Hn. apply save_progress_stored in Hsave as (Hname & Hp & _ & Hup & Hmeta).
  assert (client_get (_client (run_self r)) (progress_id this)
          = Ok (progress_doc_of w (run_self r))) as Hget.
  { unfold client_get. rewrite Hup, Hmeta. unfold progress_id. rewrite Hn.
    rewrite lookup_insert_eq. unfold progress_doc_of. by rewrite Hname, Hp. }
  split; [congruence|]. split; [done|].
  intros Hrt later Hlater Hclient. unfold _load_progress.
  rewrite load_progress_body_eq. unfold progress_id. rewrite Hlater, Hclient.
  fold (progress_id this). rewrite Hget. cbn [progress_doc_of d_processed_files from_option id loads_stored].
  rewrite Hrt, py_set_keys. by rewrite list_to_set_elements_L.
Qed.

Lemma progress_saved_when_run_returns_witness :
  ∃ r, ingest (sample_world running_clock true) (sample_builder 100000 ∅)
         [rel ["data"; "a.jsonl"]; rel ["data"; "b.jsonl"]]
         sample_extractor None true true = Ok r ∧
       _load_progress (sample_world running_clock true) (set_processed (run_self r) ∅)
         = Ok (run_self r) ∧
       _processed_files (run_self r) = {[ KStr "data/a.jsonl"; KStr "data/b.jsonl" ]}.
Proof.
  eexists. split; [vm_compute; reflexivity|].
  match goal with |- _load_progress _ (set_processed (run_self ?r) _) = _ ∧ _ =>
    set (run := r) end.
  destruct (progress_saved_when_run_returns (sample_world running_clock true)
              (sample_builder 100000 ∅)
              [rel ["data"; "a.jsonl"]; rel ["data"; "b.jsonl"]]
              sample_extractor None true true run) as (_ & _ & Hload).
  { vm_compute. reflexivity. }
  split; [|vm_compute; reflexivity].
  rewrite Hload; [reflexivity | vm_compute; reflexivity | reflexivity | reflexivity].
Defined.

(** X6.  Resuming after a complete run does nothing.  When a run with no
    record limit returned and no file of the list was abandoned on an
    exception, a later resumed run over the same list, by a builder that
    holds the set of processed files the first one left, whatever its
    world, extractor, limit and bulk mode, opens no file and emits no
    operation; its statistics count no record and no error, and the set is
    unchanged. *)
Theorem complete_run_is_not_repeated w this files extractor resume parallel r
    w' later extractor' test_limit' parallel' r' :
  ingest w this files extractor None resume parallel = Ok r →
  file_errors (run_events r) = 0%nat →
  _processed_files later = _processed_files (run_self r) →
  ingest w' later files extractor' test_limit' true parallel' = Ok r' →
  run_events r' = [] ∧
  s_total_records (run_stats r') = 0 ∧
  s_total_errors (run_stats r') = 0 ∧
  _processed_files (run_self r') = _processed_files (run_self r).
Proof.
  intros H Hnone Hlater H'.
  apply ingest_account in H as (fl & st1 & Hgen & Hfl & _ & _ & _ & Hp).
  unfold generate_actions in Hgen.
  pose proof Hgen as Hns. apply gen_files_no_stop in Hns.
  destruct fl; [|done|by destruct (Hfl e)].
  pose proof (gen_files_all_processed _ _ _ _ _ _ _ _ _ _ Hgen Hnone) as Hall.
  apply ingest_account in H' as (fl' & st1' & Hgen' & _ & _ & Hr' & He' & Hp').
  unfold generate_actions in Hgen'.
  rewrite gen_files_all_skipped in Hgen'.
  2:{ intros f Hf. cbn. rewrite Hlater, Hp. by apply Hall. }
  injection Hgen' as <- <- Hevs. rewrite <- Hevs in *.
  cbn in *. repeat split; [done| |congruence].
  rewrite He'. by destruct parallel'.
Qed.

Lemma complete_run_is_not_repeated_witness :
  let files := [rel ["data"; "a.jsonl"]; rel ["data"; "b.jsonl"]] in
  ∃ r r',
    ingest (sample_world running_clock true) (sample_builder 100000 ∅) files
      sample_extractor None false true = Ok r ∧
    ingest (sample_world running_clock true) (run_self r) files
      sample_extractor None true false = Ok r' ∧
    yielded (run_events r) ≠ [] ∧
    run_events r' = [] ∧
    s_total_records (run_stats r') = 0.
Proof.
  cbv zeta. eexists. eexists.
  split; [vm_compute; reflexivity|].
  split; [vm_compute; reflexivity|].
  match goal with |- yielded (run_events ?x) ≠ _ ∧ run_events ?y = _ ∧ _ =>
    set (first := x); set (second := y) end.
  split; [vm_compute; discriminate|].
  destruct (complete_run_is_not_repeated
              (sample_world running_clock true) (sample_builder 100000 ∅)
              [rel ["data"; "a.jsonl"]; rel ["data"; "b.jsonl"]]
              sample_extractor false true first
              (sample_world running_clock true)
              (run_self first) sample_extractor None false second)
    as (He & Hr & _ & _).
  - vm_compute. reflexivity.
  - vm_compute. reflexivity.
  - reflexivity.
  - vm_compute. reflexivity.
  - split; assumption.
Defined.

(** X7.  Progress is kept per index.  A builder saving its progress
    leaves the progress of every index of another name as it was: a
    builder of that other index loads the same set of processed files from
    the backend after the save as before it. *)
Theorem progress_is_per_index w saver saver' other :
  index_name other ≠ index_name saver →
  _save_progress w saver = Ok saver' →
  ∃ s,
    _load_progress w (set_client other (_client saver))
      = Ok (set_processed (set_client other (_client saver)) s) ∧
    _load_progress w (set_client other (_client saver'))
      = Ok (set_processed (set_client other (_client saver')) s).
Proof.
  intros Hne Hsave.
  apply save_progress_stored in Hsave as (_ & _ & Hup0 & Hup & Hmeta).
  assert (load_progress_body w (set_client other (_client saver'))
          = load_progress_body w (set_client other (_client saver))) as Hbody.
  { rewrite !load_progress_body_eq. unfold client_get, progress_id. cbn.
    rewrite Hup, Hup0, Hmeta. rewrite lookup_insert_ne; [done|].
    unfold progress_id. intros Heq. apply (inj (String.app _)) in Heq. done. }
  unfold _load_progress. rewrite Hbody.
  destruct (load_progress_body w (set_client other (_client saver))) as [s|e];
    [by exists s | by exists ∅].
Qed.

Lemma progress_is_per_index_witness :
  let stored := {| d_index_name := "other";
                   d_processed_files := Some (SText ("[" +:+ quoted "data/z.jsonl" +:+ "]")) |} in
  let shared := {| b_up := true; b_meta := {[ "progress_other" := stored ]} |} in
  let saver := set_client (sample_builder 100000 {[ KStr "data/a.jsonl" ]}) shared in
  let other := set_client {| index_name := "other"; batch_size := 5000;
                             progress_interval := 100000; thread_count := 4;
                             _processed_files := ∅; _client := empty_backend |} shared in
  ∃ saver',
    _save_progress (sample_world running_clock true) saver = Ok saver' ∧
    ∃ s,
      _load_progress (sample_world running_clock true) (set_client other (_client saver))
        = Ok (set_processed (set_client other (_client saver)) s) ∧
      _load_progress (sample_world running_clock true) (set_client other (_client saver'))
        = Ok (set_processed (set_client other (_client saver')) s).
Proof.
  cbv zeta. eexists. split; [vm_compute; reflexivity|].
  apply (progress_is_per_index (sample_world running_clock true)).
  - vm_compute. discriminate.
  - vm_compute. reflexivity.
Defined.

(** ** Discovery and the order of the directory listing *)

Lemma parts_leb_antisym a b :
  parts_leb a b = true → parts_leb b a = true → a = b.
Proof.
  revert b. induction a as [|x a IH]; intros [|y b]; cbn; try done.
  rewrite (String.compare_antisym x y).
  destruct (String.compare y x) eqn:E; cbn; try done.
  apply String.compare_eq_iff in E as ->. intros H1 H2. f_equal. by apply IH.
Qed.

Lemma selects_fnmatch_ext w w' pats rest is_dir :
  (∀ pat nm, fnmatch w pat nm = fnmatch w' pat nm) →
  selects w pats rest is_dir = selects w' pats rest is_dir.
Proof.
  intros Hfn. revert rest. induction pats as [|pat pats IH]; intros rest; [done|].
  cbn [selects]. destruct (String.eqb pat "**").
  - induction rest as [|nm rest IHr]; [by rewrite IH|].
    by rewrite IH, IHr.
  - destruct rest as [|nm rest]; [done|].
    rewrite IH. f_equal. unfold part_match. by rewrite Hfn.
Qed.

Lemma filter_listing {A} (f : A → bool) l l' :
  l ≡ₚ l' → List.filter f l ≡ₚ List.filter f l'.
Proof.
  induction 1 as [|x l l' _ IH|x y l|l l' l'' _ IH1 _ IH2]; cbn.
  - done.
  - destruct (f x); by rewrite IH.
  - destruct (f x), (f y); try done. apply Permutation_swap.
  - by etrans.
Qed.

Lemma select_from_listing w w' base pats dironly :
  (∀ pat nm, fnmatch w pat nm = fnmatch w' pat nm) →
  fs_entries w ≡ₚ fs_entries w' →
  select_from w base pats dironly ≡ₚ select_from w' base pats dironly.
Proof.
  intros Hfn Hperm. unfold select_from. apply fmap_Permutation.
  rewrite (List.filter_ext (selected w base pats dironly) (selected w' base pats dironly)).
  - by apply filter_listing.
  - intros e. unfold selected. destruct (below _ _); [|done].
    by rewrite (selects_fnmatch_ext w w').
Qed.

(** Sorting leaves one list for all arrangements of the same paths, when
    they have the same root. *)
Lemma path_key_inj p q :
  p_root p = p_root q → path_key p = path_key q → p = q.
Proof.
  destruct p as [rp pp], q as [rq pq]. unfold path_key. cbn.
  intros <-. destruct rp; cbn; intros H; by simplify_eq.
Qed.

Lemma sorted_listing r l l' :
  (∀ p, p ∈ l → p_root p = r) →
  l ≡ₚ l' → sorted l = sorted l'.
Proof.
  intros Hwf Hperm.
  assert (path_key <$> sorted l = path_key <$> sorted l') as Hkeys.
  { assert (AntiSymm (=) (λ a b, parts_leb a b = true)) as Hanti
      by (intros a b; apply parts_leb_antisym).
    apply (StronglySorted_unique (λ a b, parts_leb a b = true)).
    - apply (StronglySorted_fmap path_key path_le); [by intros ?? | apply sorted_Sorted].
    - apply (StronglySorted_fmap path_key path_le); [by intros ?? | apply sorted_Sorted].
    - apply fmap_Permutation. by rewrite !sorted_Permutation. }
  assert (∀ p, p ∈ sorted l → p_root p = r) as H1.
  { intros p Hp. apply Hwf. by rewrite <- (sorted_Permutation l). }
  assert (∀ p, p ∈ sorted l' → p_root p = r) as H2.
  { intros p Hp. apply Hwf. by rewrite Hperm, <- (sorted_Permutation l'). }
  revert Hkeys H1 H2. generalize (sorted l) (sorted l'). clear.
  intros k. induction k as [|p k IH]; intros [|q k'] Hk H1 H2; try done.
  cbn in Hk. injection Hk as Hpq Hk. f_equal.
  - apply path_key_inj; [|done]. rewrite H1, H2; [done|left..].
  - apply IH; [done|..]; intros x Hx; [apply H1|apply H2]; by right.
Qed.

(** X8.  The files found for a pattern do not depend on the order in which
    the file system lists its entries: two worlds holding the same entries
    in any two orders, with the same name matching, give the same result,
    the same list in the same order or the same exception.  (No component
    of a listed path holds a separator.) *)
Theorem discovery_ignores_listing_order w w' pattern :
  (∀ e, e ∈ fs_entries w → "/" ∉ p_parts (e_path e)) →
  (∀ pat nm, fnmatch w pat nm = fnmatch w' pat nm) →
  fs_entries w ≡ₚ fs_entries w' →
  discover w pattern = discover w' pattern.
Proof.
  intros _ Hfn Hperm.
  assert (∀ base pats dironly,
            sorted (select_from w base pats dironly)
              = sorted (select_from w' base pats dironly)) as Hsort.
  { intros base pats dironly.
    apply (sorted_listing (p_root base)); [|by apply select_from_listing].
    intros p Hp. unfold select_from in Hp.
    by apply list_elem_of_fmap in Hp as (e & -> & _). }
  unfold discover, rglob, glob.
  repeat case_match; cbn; try done; by rewrite Hsort.
Qed.

Lemma discovery_ignores_listing_order_witness :
  discover (sample_world running_clock true) "data/*.jsonl"
    = discover (relisted (sample_world running_clock true) (reverse sample_entries))
               "data/*.jsonl" ∧
  discover (sample_world running_clock true) "data/*.jsonl"
    = Ok [rel ["data"; "a.jsonl"]; rel ["data"; "b.jsonl"]].
Proof.
  split; [|vm_compute; reflexivity].
  apply discovery_ignores_listing_order.
  - apply Forall_forall. apply (bool_decide_unpack _). vm_compute. exact I.
  - reflexivity.
  - symmetry. apply reverse_Permutation.
Defined.

(** ** The default extractor *)

Lemma result_bind_ok {A B} (m : result A) (k : A → result B) b :
  m ≫= k = Ok b → ∃ a, m = Ok a ∧ k a = Ok b.
Proof. destruct m as [a|e]; [by exists a|done]. Qed.

(** X9.  What a record accepted by [default_extractor] is made of.  The
    input is a JSON object and its [attributes] (an empty object when the
    key is absent) are one too; the id and the prefix are the values found
    under [id] and [prefix], of whatever type, the empty string when
    absent; the year is [str] of the value under [publicationYear]; title
    and content are strings. *)
Theorem extracted_record_shape py_str rec r :
  default_extractor py_str rec = Some r →
  ∃ d a,
    rec = JObj d ∧
    dict_get "attributes" d (JObj []) = JObj a ∧
    r_id r = dict_get "id" d (JStr EmptyString) ∧
    r_prefix r = dict_get "prefix" a (JStr EmptyString) ∧
    r_year r = JStr (py_str (dict_get "publicationYear" a (JStr EmptyString))) ∧
    (∃ t, r_title r = JStr t) ∧ (∃ c, r_content r = JStr c).
Proof.
  unfold default_extractor.
  destruct (default_extractor_body py_str rec) as [r'|] eqn:E; [|done].
  intros [= ->]. unfold default_extractor_body in E.
  destruct rec as [| | | | |d]; try done. exists d.
  cbn [py_get mbind result_bind] in E.
  destruct (dict_get "attributes" d (JObj [])) as [| | | | |a]; try done.
  exists a. cbn [py_get mbind result_bind] in E.
  repeat (apply result_bind_ok in E as (? & _ & E)).
  injection E as <-. cbn. eauto 10.
Qed.

Lemma extracted_record_shape_witness :
  let rec := JObj [("id", JNum 7);
                   ("attributes", JObj [("publicationYear", JNum 2024);
                                        ("titles", JArr [JObj [("title", JStr "On goats")]])])] in
  ∃ r, default_extractor sample_str rec = Some r ∧
       r_id r = JNum 7 ∧ r_year r = JStr "2024" ∧ r_title r = JStr "On goats".
Proof.
  cbv zeta. eexists. split; [vm_compute; reflexivity|].
  match goal with |- r_id ?x = _ ∧ _ => set (r := x) end.
  destruct (extracted_record_shape sample_str
              (JObj [("id", JNum 7);
                     ("attributes", JObj [("publicationYear", JNum 2024);
                                          ("titles", JArr [JObj [("title", JStr "On goats")]])])])
              r) as (d & a & Hd & Ha & Hid & _ & Hy & _).
  { vm_compute. reflexivity. }
  injection Hd as <-. vm_compute in Ha. injection Ha as <-.
  rewrite Hid, Hy. repeat split; vm_compute; reflexivity.
Defined.

(** X10.  A JSON object without attributes is accepted.  When the object
    has no [attributes] key, or an empty object there, [default_extractor]
    returns a record with the value under [id] (the empty string when the
    key is absent too), an empty title, content and prefix, and [str] of
    the empty string as the year: a line holding just an empty JSON object
    yields a record whose id is the empty string. *)
Theorem object_without_attributes_is_accepted py_str d :
  dict_get "attributes" d (JObj []) = JObj [] →
  default_extractor py_str (JObj d)
    = Some {| r_id := dict_get "id" d (JStr EmptyString);
              r_title := JStr EmptyString;
              r_content := JStr EmptyString;
              r_year := JStr (py_str (JStr EmptyString));
              r_prefix := JStr EmptyString |}.
Proof.
  intros H. unfold default_extractor, default_extractor_body.
  cbn [py_get mbind result_bind]. rewrite H. reflexivity.
Qed.

Lemma object_without_attributes_is_accepted_witness :
  default_extractor sample_str (JObj [])
    = Some {| r_id := JStr EmptyString; r_title := JStr EmptyString;
              r_content := JStr EmptyString; r_year := JStr EmptyString;
              r_prefix := JStr EmptyString |}.
Proof.
  rewrite (object_without_attributes_is_accepted sample_str []); reflexivity.
Defined.

(** ** Construction *)

Lemma IndexBuilder_new_eq Elasticsearch indices_exists indices_create
    w index_name hosts api_key basic_auth batch_size progress_interval thread_count
    shards replicas refresh_interval :
  IndexBuilder_new Elasticsearch indices_exists indices_create w index_name hosts
      api_key basic_auth batch_size progress_interval thread_count shards replicas
      refresh_interval
    = (_ ← Elasticsearch (conn_kwargs hosts None api_key basic_auth); Raise TypeError).
Proof. unfold IndexBuilder_new. by destruct (Elasticsearch _). Qed.

(** X11.  [IndexBuilder.__init__] never returns a builder.  Whatever the
    arguments and whatever the cluster answers, the constructor makes its
    client and then raises [TypeError]: it passes [refresh_interval] to
    [CaproneIndex], which has no such parameter.  (When making the client
    raises, that exception is the outcome.) *)
Theorem builder_constructor_always_raises Elasticsearch indices_exists indices_create
    w index_name hosts api_key basic_auth batch_size progress_interval thread_count
    shards replicas refresh_interval :
  IndexBuilder_new Elasticsearch indices_exists indices_create w index_name hosts
      api_key basic_auth batch_size progress_interval thread_count shards replicas
      refresh_interval
    = (_ ← Elasticsearch (conn_kwargs hosts None api_key basic_auth); Raise TypeError).
Proof. apply IndexBuilder_new_eq. Qed.

(** X12.  The [build] command reads no file.  For all arguments, in every
    world, [cmd_build] ends with an exception before [add_jsonl_files] is
    called: [TypeError] once the client of the builder is made. *)
Theorem build_command_always_raises Elasticsearch indices_exists indices_create
    w py_str args :
  cmd_build Elasticsearch indices_exists indices_create w py_str args
    = (_ ← Elasticsearch (conn_kwargs (Some (get_hosts (arg_hosts args))) None
                            (arg_api_key args) None);
       Raise TypeError).
Proof.
  unfold cmd_build. cbn [binds mbind result_bind].
  change (binds IndexBuilder_signature _) with (Ok () : result ()).
  cbn [mbind result_bind]. rewrite IndexBuilder_new_eq.
  by destruct (Elasticsearch _).
Qed.

(** ** Hosts *)

Lemma contains_char_cons c x s :
  contains (String c EmptyString) (String x s)
    = bool_decide (x = c) || contains (String c EmptyString) s.
Proof.
  cbn [contains String.prefix]. destruct (Ascii.ascii_dec c x) as [<-|Hne].
  - by rewrite prefix_nil, bool_decide_eq_true_2.
  - rewrite bool_decide_eq_false_2; [done|congruence].
Qed.

Lemma contains_char_app c a b :
  contains (String c EmptyString) (a +:+ b)
    = contains (String c EmptyString) a || contains (String c EmptyString) b.
Proof.
  induction a as [|x a IH]; [done|].
  rewrite string_app_cons, !contains_char_cons, IH. by rewrite orb_assoc.
Qed.

Lemma split_char_cons c cur x s :
  split_aux (String c EmptyString) 0 cur (String x s)
    = if bool_decide (x = c) then cur :: split_aux (String c EmptyString) 0 EmptyString s
      else split_aux (String c EmptyString) 0 (cur +:+ String x EmptyString) s.
Proof.
  cbn [split_aux String.prefix]. destruct (Ascii.ascii_dec c x) as [<-|Hne].
  - by rewrite prefix_nil, bool_decide_eq_true_2.
  - rewrite bool_decide_eq_false_2; [done|congruence].
Qed.

Lemma split_char_pieces c cur s :
  contains (String c EmptyString) cur = false →
  Forall (λ p, contains (String c EmptyString) p = false)
         (split_aux (String c EmptyString) 0 cur s).
Proof.
  revert cur. induction s as [|x s IH]; intros cur Hcur.
  - by constructor.
  - rewrite split_char_cons. case_bool_decide as Hx.
    + constructor; [done|]. by apply IH.
    + apply IH. rewrite contains_char_app, Hcur, contains_char_cons.
      by rewrite bool_decide_eq_false_2.
Qed.

Lemma concat_cons sep p q qs :
  String.concat sep (p :: q :: qs) = p +:+ sep +:+ String.concat sep (q :: qs).
Proof. reflexivity. Qed.

(** Joining the pieces with the separator gives the text back. *)
Lemma split_char_join c cur s :
  String.concat (String c EmptyString) (split_aux (String c EmptyString) 0 cur s)
    = cur +:+ s.
Proof.
  revert cur. induction s as [|x s IH]; intros cur.
  - by rewrite string_app_nil_r.
  - rewrite split_char_cons. case_bool_decide as Hx.
    + subst x. destruct (split_aux_cons (String c EmptyString) 0 EmptyString s)
        as (p & ps & Hp).
      specialize (IH EmptyString). rewrite Hp in *. rewrite concat_cons, IH. done.
    + by rewrite IH, string_app_assoc.
Qed.

(** X13.  What [get_hosts] returns.  The list is never empty and no host
    in it holds a comma; without a [--hosts] value, or with an empty one,
    it is the one default address; otherwise joining the hosts with commas
    gives the value back, so nothing is trimmed or dropped (an empty piece
    between two commas is a host, blanks around a comma stay). *)
Theorem hosts_are_the_comma_pieces hosts :
  (∃ h hs, get_hosts hosts = h :: hs) ∧
  Forall (λ h, contains "," h = false) (get_hosts hosts) ∧
  match hosts with
  | Some (String c s) => String.concat "," (get_hosts hosts) = String c s
  | _ => get_hosts hosts = ["http://localhost:9200"]
  end.
Proof.
  destruct hosts as [[|c s]|]; cbn [get_hosts String.eqb].
  - split; [by eexists _, _|]. split; [|done]. by repeat constructor.
  - split; [apply split_aux_cons|]. split.
    + by apply (split_char_pieces ","%char).
    + apply (split_char_join ","%char EmptyString).
  - split; [by eexists _, _|]. split; [|done]. by repeat constructor.
Qed.


(** ** Records from an iterator *)

Lemma attempt_bind_done {A B} (m : attempt A) (k : A → attempt B) b :
  m ≫= k = Done b → ∃ a, m = Done a ∧ k a = Done b.
Proof. destruct m as [a|r]; [by exists a|done]. Qed.

Lemma ops_app out1 out2 : ops (out1 ++ out2) = ops out1 ++ ops out2.
Proof. unfold ops. by rewrite omap_app. Qed.

Lemma bulk_strict_done w client actions r :
  bulk_strict w client actions = Done r →
  r = (Z.of_nat (length actions), []) ∧ Forall (λ a, item_ok w a = true) actions.
Proof.
  unfold bulk_strict, request. destruct actions as [|a actions].
  - intros [= <-]. by split.
  - destruct (b_up client); [|done]. cbn [lift mbind attempt_bind].
    destruct (forallb _ _) eqn:E; [|done]. intros [= <-]. split; [done|].
    apply Forall_forall. intros x Hx.
    rewrite forallb_forall in E. apply E. by apply list_elem_of_In.
Qed.

Section TupleStream.
Context (py_str : json → string) (w : world) (this : builder).
Context (total_hint : option Z) (start_time : Q).

Lemma add_records_step_done rec st st' out :
  add_records_step py_str w this total_hint start_time rec st = Done (st', out) →
  st'.1 = st.1 + 1 ∧
  ∃ a, add_records_action py_str (index_name this) rec = Done a ∧ ops out = [a].
Proof.
  unfold add_records_step. intros H.
  apply attempt_bind_done in H as (a & Ha & H).
  apply attempt_bind_done in H as (m & _ & H).
  destruct (m =? 0).
  - apply attempt_bind_done in H as (rate & _ & H). injection H as <- <-.
    split; [done|]. by exists a.
  - injection H as <- <-. split; [done|]. by exists a.
Qed.

Lemma add_records_gen_done records st st' out :
  add_records_gen py_str w this total_hint start_time records st = Done (st', out) →
  st'.1 = st.1 + Z.of_nat (length records) ∧
  attempt_mapM (add_records_action py_str (index_name this)) records = Done (ops out).
Proof.
  revert st st' out. induction records as [|rec records IH]; intros st st' out H.
  - injection H as <- <-. split; [cbn; lia|done].
  - cbn [add_records_gen] in H.
    apply attempt_bind_done in H as ([st1 out1] & H1 & H).
    apply attempt_bind_done in H as ([st2 out2] & H2 & H). injection H as <- <-.
    apply add_records_step_done in H1 as (Hn1 & a & Ha & Ho).
    apply IH in H2 as (Hn2 & Hm). split; [cbn [length]; lia|].
    cbn [attempt_mapM]. rewrite Ha, ops_app, Ho. cbn [mbind attempt_bind].
    by rewrite Hm.
Qed.
End TupleStream.

Lemma attempt_mapM_done {A B} (f : A → attempt B) l l' :
  attempt_mapM f l = Done l' → Forall2 (λ x y, f x = Done y) l l'.
Proof.
  revert l'. induction l as [|x l IH]; intros l' H.
  - injection H as <-. constructor.
  - cbn [attempt_mapM] in H.
    apply attempt_bind_done in H as (y & Hy & H).
    apply attempt_bind_done in H as (ys & Hys & H). injection H as <-.
    constructor; [done|]. by apply IH.
Qed.

(** X14.  [add_records] returns only when everything went in.  When the
    call returns, its [total_records] is the number of tuples it was
    given, every tuple had at least its id, the operations submitted are
    those of the tuples, one each and in order, and the backend answered
    and accepted every one of them. *)
Theorem add_records_returns_when_all_went_in py_str w this records total_hint s out :
  add_records py_str w this records total_hint = Done (s, out) →
  ar_total_records s = Z.of_nat (length records) ∧
  Forall2 (λ rec a, add_records_action py_str (index_name this) rec = Done a ∧
                    ∃ id, head rec = Some id ∧ a_id a = id)
          records (ops out) ∧
  Forall (λ a, item_ok w a = true) (ops out) ∧
  b_up (_client this) = true.
Proof.
  unfold add_records. intros H.
  apply attempt_bind_done in H as ([st out'] & Hgen & H).
  apply attempt_bind_done in H as (r & Hbulk & H).
  apply attempt_bind_done in H as (u & Hup & H).
  apply attempt_bind_done in H as (rate & _ & H). injection H as <- <-.
  apply add_records_gen_done in Hgen as (Hn & Hm).
  apply bulk_strict_done in Hbulk as (_ & Hok).
  cbn [ar_total_records]. split; [cbn in Hn; lia|]. split; [|split; [done|]].
  - apply attempt_mapM_done in Hm.
    eapply Forall2_impl; [exact Hm|]. intros rec a Ha. split; [done|].
    unfold add_records_action in Ha. destruct rec as [|id rec]; [done|].
    cbn in Ha. injection Ha as <-. by exists id.
  - unfold request in Hup. by destruct (b_up (_client this)).
Qed.

Lemma add_records_returns_when_all_went_in_witness :
  let records := [[JStr "a"; JStr "On goats"]; [JStr "b"; JStr "On sheep"; JStr "wool"; JNum 0]] in
  ∃ s out,
    add_records sample_str (sample_world running_clock true) (sample_builder 100000 ∅)
      records None = Done (s, out) ∧
    ar_total_records s = 2 ∧ length (ops out) = 2%nat.
Proof.
  cbv zeta. eexists. eexists. split; [vm_compute; reflexivity|].
  match goal with |- ar_total_records ?x = _ ∧ length (ops ?y) = _ =>
    set (s := x); set (out := y) end.
  destruct (add_records_returns_when_all_went_in sample_str
              (sample_world running_clock true) (sample_builder 100000 ∅)
              [[JStr "a"; JStr "On goats"];
               [JStr "b"; JStr "On sheep"; JStr "wool"; JNum 0]] None s out)
    as (Hn & Hops & _).
  { vm_compute. reflexivity. }
  split; [exact Hn|]. symmetry. exact (Forall2_length _ _ _ Hops).
Defined.

Section TupleFault.
Context (py_str : json → string) (w : world) (this : builder) (total_hint : option Z).

(** The generator up to the first progress line, when the clock has not
    moved since the start. *)
Lemma add_records_gen_fault (todo : nat) records n ticks :
  progress_interval this = n + Z.of_nat (S todo) →
  0 ≤ n →
  (n = 0 ∨ 0 < n) →
  (S todo ≤ length records)%nat →
  Forall (λ rec, rec ≠ []) (take (S todo) records) →
  Qeq_bool (clock w ticks - clock w 0) 0 = true →
  add_records_gen py_str w this total_hint (clock w 0) records (n, ticks)
    = Fails (Exn ZeroDivisionError).
Proof.
  revert records n. induction todo as [|todo IH]; intros records n Hint Hn _ Hlen Hne Hclk.
  - destruct records as [|rec records]; [cbn in Hlen; lia|].
    apply Forall_cons in Hne as [Hrec _].
    cbn [add_records_gen]. unfold add_records_step. cbn [fst snd].
    unfold add_records_action. destruct rec as [|id rec]; [done|].
    cbn [lookup list_lookup mbind attempt_bind].
    unfold py_mod. rewrite Hint.
    replace (n + Z.of_nat 1 =? 0) with false by (symmetry; apply Z.eqb_neq; lia).
    replace (n + 1) with (n + Z.of_nat 1) by lia. rewrite Z_mod_same_full.
    cbn [lift mbind attempt_bind Z.eqb]. unfold py_truediv. by rewrite Hclk.
  - destruct records as [|rec records]; [cbn in Hlen; lia|].
    rewrite firstn_cons in Hne. apply Forall_cons in Hne as [Hrec Hne].
    cbn [add_records_gen]. unfold add_records_step at 1. cbn [fst snd].
    unfold add_records_action. destruct rec as [|id rec]; [done|].
    cbn [lookup list_lookup mbind attempt_bind].
    unfold py_mod. rewrite Hint.
    replace (n + Z.of_nat (S (S todo)) =? 0) with false by (symmetry; apply Z.eqb_neq; lia).
    rewrite (Z.mod_small (n + 1)) by lia.
    cbn [lift mbind attempt_bind].
    replace (n + 1 =? 0) with false by (symmetry; apply Z.eqb_neq; lia).
    cbn [mbind attempt_bind].
    rewrite (IH records (n + 1)); [done|lia|lia|lia|cbn in Hlen; lia|done|done].
Qed.
End TupleFault.

(** X15.  The progress line of [add_records] divides by the elapsed time
    unguarded.  With a positive progress interval, at least that many
    tuples, each with its id, and a clock that has not moved between the
    start and the first progress line, the call raises
    [ZeroDivisionError] and returns no statistics (the backend answering
    and accepting every operation, so that no submission fails before). *)
Theorem add_records_progress_fault py_str w this records total_hint :
  0 < progress_interval this →
  (Z.to_nat (progress_interval this) ≤ length records)%nat →
  Forall (λ rec, rec ≠ []) (take (Z.to_nat (progress_interval this)) records) →
  Qeq_bool (clock w 1 - clock w 0) 0 = true →
  b_up (_client this) = true →
  (∀ a, item_ok w a = true) →
  add_records py_str w this records total_hint = Fails (Exn ZeroDivisionError).
Proof.
  intros Hpos Hlen Hne Hclk _ _. unfold add_records.
  destruct (Z.to_nat (progress_interval this)) as [|todo] eqn:E; [lia|].
  rewrite (add_records_gen_fault py_str w this total_hint todo); try done; lia.
Qed.

Lemma add_records_progress_fault_witness :
  add_records sample_str (sample_world frozen_clock true) (sample_builder 2 ∅)
    [[JStr "a"]; [JStr "b"]; [JStr "c"]] None = Fails (Exn ZeroDivisionError).
Proof.
  apply add_records_progress_fault.
  - reflexivity.
  - vm_compute. lia.
  - vm_compute. repeat constructor; discriminate.
  - reflexivity.
  - reflexivity.
  - reflexivity.
Defined.

(** X16.  [CaproneIndex.bulk_add] returns the number of tuples or does
    not return.  The count of successes it hands back is the length of
    the list it was given: a rejected operation or a tuple without an id
    ends the call with an exception instead. *)
Theorem bulk_add_returns_the_number_of_tuples py_str w this records n :
  bulk_add py_str w this records = Done n →
  n = Z.of_nat (length records) ∧
  Forall (λ rec, rec ≠ []) records ∧
  ∃ actions,
    Forall2 (λ rec a, bulk_add_action py_str (ci_index_name this) rec = Done a)
            records actions ∧
    Forall (λ a, item_ok w a = true) actions.
Proof.
  unfold bulk_add. intros H.
  apply attempt_bind_done in H as (actions & Hm & H).
  apply attempt_bind_done in H as ([success failed] & Hb & H). injection H as <-.
  apply bulk_strict_done in Hb as (Hr & Hok). injection Hr as -> ->.
  apply attempt_mapM_done in Hm.
  split; [by rewrite (Forall2_length _ _ _ Hm)|]. split; [|by exists actions].
  clear Hok. induction Hm as [|rec a records actions Ha _ IH]; constructor; [|done].
  by intros ->.
Qed.

Lemma bulk_add_returns_the_number_of_tuples_witness :
  let index := {| ci_index_name := "corpus"; ci_shards := 5; ci_replicas := 1;
                  ci_client := empty_backend |} in
  ∃ n, bulk_add sample_str (sample_world running_clock true) index
         [[JStr "a"; JStr "On goats"]; [JStr "b"]] = Done n ∧ n = 2.
Proof.
  cbv zeta. eexists. split; [vm_compute; reflexivity|].
  apply (bulk_add_returns_the_number_of_tuples sample_str
           (sample_world running_clock true)
           {| ci_index_name := "corpus"; ci_shards := 5; ci_replicas := 1;
              ci_client := empty_backend |}
           [[JStr "a"; JStr "On goats"]; [JStr "b"]]).
  vm_compute. reflexivity.
Defined.

(** X17.  The three ways in store the same document.  For the same five
    values, [CaproneIndex.add], [CaproneIndex.bulk_add] and
    [IndexBuilder.add_records] send the same operation: the id is also
    the key, and a year that counts as false ([None], [0], the empty
    string) is stored as the empty string, any other as its [str]. *)
Theorem entry_points_store_the_same_document py_str name id title content year prefix :
  let a := add_document py_str name id title content year prefix in
  bulk_add_action py_str name [id; title; content; year; prefix] = Done a ∧
  add_records_action py_str name [id; title; content; year; prefix] = Done a ∧
  a_id a = r_id (a_source a) ∧
  r_year (a_source a) = (if truthy year then JStr (py_str year) else JStr EmptyString).
Proof. done. Qed.


(** ** The benchmark *)

(** X18.  [benchmark] with an empty list of queries divides by zero.  For
    every index, host list and key, the call with [queries=[]] makes its
    client, runs no search, and raises [ZeroDivisionError] at the average;
    nothing is returned.  (When making the client raises, that exception is
    the outcome.) *)
Theorem benchmark_of_no_query_divides_by_zero Elasticsearch indices_exists indices_create
    client_search w index_name hosts api_key :
  benchmark Elasticsearch indices_exists indices_create client_search w index_name
      hosts api_key (Some [])
    = (_ ← lift (Elasticsearch (conn_kwargs hosts (Some true) api_key None));
       Fails (Exn ZeroDivisionError)).
Proof.
  unfold benchmark, CaproneIndex_init.
  change (binds CaproneIndex_signature _) with (Ok () : result ()).
  cbn [mbind result_bind]. by destruct (Elasticsearch _).
Qed.

Section BenchmarkLoop.
Context (client_search : backend → string → search_body → attempt (list hit)).
Context (w : world) (index : caprone_index).

Lemma benchmark_loop_done queries ticks total_time :
  (∀ body, ∃ hits, client_search (ci_client index) (ci_index_name index) body = Done hits) →
  ∃ ticks' total' results,
    benchmark_loop client_search w index queries ticks total_time
      = Done (ticks', total', results) ∧
    t_query <$> results = queries.
Proof.
  intros Hsearch. revert ticks total_time.
  induction queries as [|query queries IH]; intros ticks total_time.
  - by eexists _, _, _.
  - cbn [benchmark_loop]. unfold CaproneIndex_search at 1. cbn [app].
    destruct (Hsearch {| q_query := query; q_filters := []; q_size := 100 |})
      as (hits & ->).
    cbn [mbind attempt_bind].
    destruct (IH (S (S ticks))
                 (total_time + (clock w (S ticks) - clock w ticks) * 1000)%Q)
      as (ticks' & total' & results & -> & Hq).
    cbn [mbind attempt_bind]. eexists _, _, _. split; [done|].
    cbn. by rewrite Hq.
Qed.
End BenchmarkLoop.

(** X19.  The [benchmark] command always has a query to average over.
    Whatever [--queries] holds, when the client can be made and every
    search is answered, [cmd_benchmark] returns: it times, in order, the
    comma-separated pieces of a non-empty [--queries] value and the five
    built-in queries otherwise, and its average is the total time over
    their number. *)
Theorem benchmark_command_returns Elasticsearch indices_exists indices_create
    client_search w index hosts api_key queries client :
  Elasticsearch (conn_kwargs (Some (get_hosts hosts)) (Some true) api_key None)
    = Ok client →
  (∀ body, ∃ hits, client_search client index body = Done hits) →
  ∃ b,
    cmd_benchmark Elasticsearch indices_exists indices_create client_search w index
      hosts api_key queries = Done b ∧
    t_query <$> bn_queries b
      = match queries with
        | Some (String c s) => py_split (String c s) ","
        | _ => default_queries
        end ∧
    bn_queries b ≠ [] ∧
    bn_average_ms b
      = (bn_total_ms b / inject_Z (Z.of_nat (length (bn_queries b))))%Q.
Proof.
  intros Hclient Hsearch. unfold cmd_benchmark.
  change (binds benchmark_signature _) with (Ok () : result ()).
  cbn [lift mbind attempt_bind]. unfold benchmark, CaproneIndex_init.
  change (binds CaproneIndex_signature _) with (Ok () : result ()).
  cbn [mbind result_bind]. rewrite Hclient. cbn [mbind result_bind lift attempt_bind].
  set (qs := default default_queries _).
  assert (qs = match queries with
               | Some (String c s) => py_split (String c s) ","
               | _ => default_queries
               end) as Hqs by (by destruct queries as [[|c s]|]).
  assert (∃ q rest, qs = q :: rest) as (q & rest & Hne).
  { rewrite Hqs. destruct queries as [[|c s]|]; [by eexists _, _| |by eexists _, _].
    apply split_aux_cons. }
  destruct (benchmark_loop_done client_search w
              {| ci_index_name := index; ci_shards := 5; ci_replicas := 1;
                 ci_client := client |} qs 0%nat 0%Q Hsearch)
    as (ticks' & total' & results & -> & Hq).
  cbn [mbind attempt_bind]. unfold py_truediv.
  assert (length results = length qs) as Hlen by (by rewrite <- Hq, length_fmap).
  assert (Qeq_bool (inject_Z (Z.of_nat (length qs))) 0 = false) as ->.
  { rewrite Hne. cbn [length]. apply not_true_is_false. intros Hz.
    apply Qeq_bool_eq in Hz. unfold Qeq, inject_Z in Hz. cbn [Qnum Qden] in Hz. lia. }
  cbn [lift mbind attempt_bind]. eexists. split; [done|]. cbn [bn_queries bn_average_ms bn_total_ms].
  split; [by rewrite Hq|]. split; [|by rewrite Hlen].
  intros ->. by rewrite Hne in Hq.
Qed.

Lemma benchmark_command_returns_witness :
  ∃ b,
    cmd_benchmark sample_connect sample_exists sample_create sample_search
      (sample_world running_clock true) "corpus" None None (Some "goat,sheep") = Done b ∧
    t_query <$> bn_queries b = ["goat"; "sheep"] ∧
    bn_average_ms b = (bn_total_ms b / 2)%Q.
Proof.
  destruct (benchmark_command_returns sample_connect sample_exists sample_create
              sample_search (sample_world running_clock true) "corpus" None None
              (Some "goat,sheep") empty_backend) as (b & Hb & Hq & _ & Havg).
  - reflexivity.
  - intros body. eexists. reflexivity.
  - exists b. split; [exact Hb|]. split; [exact Hq|].
    rewrite Havg. replace (length (bn_queries b)) with 2%nat; [reflexivity|].
    rewrite <- (length_fmap t_query), Hq. reflexivity.
Defined.


(** ** The interactive session *)

Section Session.
Context (input : nat → attempt string).
Context (run_search : nat → string → settings → attempt ()).
Context (run_stats : nat → attempt ()).
Context (py_strip : string → string) (py_words : string → list string).
Context (py_int : string → result Z).

Local Abbreviation turn_of := (interactive_turn input run_search run_stats py_strip py_words py_int).
Local Abbreviation loop := (interactive_loop input run_search run_stats py_strip py_words py_int).

Lemma lift_not_interrupt {A} (m : result A) : lift m ≠ Fails KeyboardInterrupt.
Proof. by destruct m. Qed.

(** A turn at the end of the input: the exception is printed, the loop
    goes on. *)
Lemma turn_at_end_of_input n st :
  input n = Fails EOFError → turn_of n st = Continue st.
Proof. intros H. unfold interactive_turn, interactive_body. by rewrite H. Qed.

Lemma loop_at_end_of_input fuel n st :
  (∀ m, n ≤ m → input m = Fails EOFError)%nat → loop fuel n st = None.
Proof.
  revert n st. induction fuel as [|fuel IH]; intros n st H; [done|].
  cbn [interactive_loop]. rewrite turn_at_end_of_input by (apply H; lia).
  apply IH. intros m Hm. apply H. lia.
Qed.

(** What makes a turn leave the loop. *)
Lemma turn_break n st :
  turn_of n st = Break →
  input n = Fails KeyboardInterrupt ∨
  ∃ line, input n = Done line ∧
    (py_strip line = ":quit" ∨ py_strip line = ":q" ∨
     run_stats n = Fails KeyboardInterrupt ∨
     run_search n (py_strip line) st = Fails KeyboardInterrupt).
Proof.
  unfold interactive_turn, interactive_body.
  destruct (input n) as [line|r] eqn:Hin; cbn [mbind attempt_bind].
  2:{ destruct r; try done. by left. }
  intros H. right. exists line. split; [done|].
  destruct (String.eqb (py_strip line) EmptyString); [done|].
  destruct (String.eqb (py_strip line) ":quit") eqn:Hq.
  { left. by apply String.eqb_eq. }
  destruct (String.eqb (py_strip line) ":q") eqn:Hq'.
  { right; left. by apply String.eqb_eq. }
  cbn [orb] in H.
  destruct (String.prefix ":year" (py_strip line)).
  { destruct (py_words _) as [|? [|year [|? ?]]]; try done.
    destruct (py_int year) as [y|e]; [done|by destruct e]. }
  destruct (String.prefix ":limit" (py_strip line)).
  { destruct (py_words _) as [|? [|lim [|? ?]]]; try done.
    destruct (py_int lim) as [y|e]; [done|by destruct e]. }
  destruct (String.eqb (py_strip line) ":content"); [done|].
  destruct (String.eqb (py_strip line) ":stats").
  - destruct (run_stats n) as [|r]; [done|]. right; right; left. by destruct r.
  - destruct (run_search n (py_strip line) st) as [|r]; [done|].
    right; right; right. by destruct r.
Qed.

Lemma loop_leaves fuel n st k st' :
  loop fuel n st = Some (k, st') →
  ∃ m, k = S m ∧ (n ≤ m)%nat ∧ turn_of m st' = Break.
Proof.
  revert n st. induction fuel as [|fuel IH]; intros n st H; [done|].
  cbn [interactive_loop] in H. destruct (turn_of n st) as [st1|] eqn:Ht.
  - apply IH in H as (m & -> & Hm & Hb). exists m. repeat split; [lia|done].
  - injection H as <- <-. by exists n.
Qed.
End Session.

(** X20.  At the end of the input the session never ends.  Once [input]
    raises [EOFError] at every prompt, as it does when the input is a file
    or a pipe that is used up, the loop of [interactive] prints the error
    and prompts again: however many turns it is given from there, it has
    not left the loop. *)
Theorem session_spins_at_end_of_input input run_search run_stats py_strip py_words
    py_int n st fuel :
  (∀ m, (n ≤ m)%nat → input m = Fails EOFError) →
  interactive_loop input run_search run_stats py_strip py_words py_int fuel n st = None.
Proof. apply loop_at_end_of_input. Qed.

(** X21.  The session ends only on [:quit], [:q] or an interrupt.  When
    the loop of [interactive] is left after [k] prompts, the last of them
    was interrupted ([KeyboardInterrupt] at the prompt, or in the search
    or the statistics it started), or it read a line that is, once
    stripped, [:quit] or [:q]; no other line and no other exception ends
    it. *)
Theorem session_ends_on_quit_or_interrupt input run_search run_stats py_strip py_words
    py_int fuel n st k st' :
  interactive_loop input run_search run_stats py_strip py_words py_int fuel n st
    = Some (k, st') →
  ∃ m, k = S m ∧ (n ≤ m)%nat ∧
    (input m = Fails KeyboardInterrupt ∨
     ∃ line, input m = Done line ∧
       (py_strip line = ":quit" ∨ py_strip line = ":q" ∨
        run_stats m = Fails KeyboardInterrupt ∨
        run_search m (py_strip line) st' = Fails KeyboardInterrupt)).
Proof.
  intros H. apply loop_leaves in H as (m & -> & Hm & Hb).
  exists m. split; [done|]. split; [done|]. by eapply turn_break.
Qed.

Lemma session_spins_at_end_of_input_witness :
  interactive_loop (scripted ["goat"; ":year 1999"]) quiet_search quiet_stats
    sample_strip sample_words sample_int 1000 2
    {| year_filter := Some 1999; limit := 20; show_content := false |} = None.
Proof.
  apply session_spins_at_end_of_input.
  intros m Hm. unfold scripted.
  destruct m as [|[|m]]; [lia|lia|reflexivity].
Defined.

Lemma session_ends_on_quit_or_interrupt_witness :
  let input := scripted ["goat"; ":limit 5"; ":year x"; " :quit "; "sheep"] in
  ∃ k st',
    interactive input quiet_search quiet_stats sample_strip sample_words sample_int 10
      = Some (k, st') ∧
    k = 4%nat ∧ limit st' = 5 ∧ year_filter st' = None ∧
    ∃ m, k = S m ∧ (0 ≤ m)%nat ∧
      (input m = Fails KeyboardInterrupt ∨
       ∃ line, input m = Done line ∧
         (sample_strip line = ":quit" ∨ sample_strip line = ":q" ∨
          quiet_stats m = Fails KeyboardInterrupt ∨
          quiet_search m (sample_strip line) st' = Fails KeyboardInterrupt)).
Proof.
  cbv zeta. eexists. eexists. split; [vm_compute; reflexivity|].
  split; [reflexivity|]. split; [reflexivity|]. split; [reflexivity|].
  apply (session_ends_on_quit_or_interrupt
           (scripted ["goat"; ":limit 5"; ":year x"; " :quit "; "sheep"])
           quiet_search quiet_stats sample_strip sample_words sample_int 10 0
           {| year_filter := None; limit := 20; show_content := false |}).
  vm_compute. reflexivity.
Defined.

(** ** The indices of the cluster *)

Lemma index_row_done py_int idx entry :
  index_row py_int idx = Done entry →
  ∃ s, dict_lookup "index" idx = Some (JStr s) ∧
       match entry with
       | Some e => String.prefix "." s = false ∧ ix_name e = JStr s
       | None => String.prefix "." s = true
       end.
Proof.
  unfold index_row. destruct (dict_lookup "index" idx) as [name|]; [|done].
  cbn [mbind attempt_bind]. destruct name as [| | |s| |]; try done.
  cbn [mbind attempt_bind]. exists s. split; [done|].
  destruct (String.prefix "." s); [by injection H as <-|].
  repeat (apply attempt_bind_done in H as (? & _ & H)). by injection H as <-.
Qed.

(** X22.  [ClusterManager.indices] lists the indices that are not system
    indices, all of them and in the order of the answer of the cluster.
    When the call returns, every row of the answer had a text under
    [index], and the names returned are those that do not start with a
    dot, each once per row and in the same order. *)
Theorem indices_lists_the_user_indices py_int cat_indices l :
  indices py_int cat_indices = Done l →
  ∃ rows names,
    cat_indices = Done rows ∧
    Forall2 (λ idx s, dict_lookup "index" idx = Some (JStr s)) rows names ∧
    ix_name <$> l = JStr <$> List.filter (λ s, negb (String.prefix "." s)) names.
Proof.
  unfold indices. destruct cat_indices as [rows|]; [|done].
  cbn [mbind attempt_bind]. intros H. exists rows.
  revert l H. induction rows as [|idx rows IH]; intros l H.
  - injection H as <-. exists []. by repeat split.
  - cbn [index_rows] in H.
    apply attempt_bind_done in H as (entry & He & H).
    apply attempt_bind_done in H as (rest & Hr & H). injection H as <-.
    apply index_row_done in He as (s & Hs & He).
    destruct (IH rest Hr) as (names & _ & Hn & Hl).
    exists (s :: names). split; [done|]. split; [by constructor|].
    cbn [List.filter]. destruct entry as [e|].
    + destruct He as [-> He]. cbn. by rewrite He, Hl.
    + rewrite He. cbn. done.
Qed.

Lemma indices_lists_the_user_indices_witness :
  let rows := [[("index", JStr ".kibana"); ("docs.count", JNull)];
               [("index", JStr "corpus"); ("docs.count", JStr "12"); ("pri", JStr "5")];
               [("index", JStr "archive")]] in
  ∃ l, indices sample_int (Done rows) = Done l ∧
       ix_name <$> l = [JStr "corpus"; JStr "archive"] ∧
       ix_docs_count <$> l = [12; 0].
Proof.
  cbv zeta. eexists. split; [vm_compute; reflexivity|].
  split; [|vm_compute; reflexivity].
  match goal with |- ix_name <$> ?x = _ => set (l := x) end.
  destruct (indices_lists_the_user_indices sample_int
              (Done [[("index", JStr ".kibana"); ("docs.count", JNull)];
                     [("index", JStr "corpus"); ("docs.count", JStr "12"); ("pri", JStr "5")];
                     [("index", JStr "archive")]]) l)
    as (rows & names & Hrows & Hnames & Hl).
  { vm_compute. reflexivity. }
  injection Hrows as <-.
  apply Forall2_cons_inv_l in Hnames as (s1 & n1 & H1 & Hnames & ->).
  apply Forall2_cons_inv_l in Hnames as (s2 & n2 & H2 & Hnames & ->).
  apply Forall2_cons_inv_l in Hnames as (s3 & n3 & H3 & Hnames & ->).
  apply Forall2_nil_inv_l in Hnames as ->.
  injection H1 as <-. injection H2 as <-. injection H3 as <-.
  rewrite Hl. reflexivity.
Defined.
